(** * Reminder bot: event persistence and timer scheduling

    A shallow embedding of [bot.py]: the [Event] record and its dictionary
    form, the JSON-file backed [EventStore], the job-queue scheduling
    functions ([schedule_event_jobs], [schedule_daily_counter],
    [schedule_event_reminders]), the timer callbacks and the start-up
    recovery pass [reschedule_all_events].

    Python exceptions are values of [result]; code that touches the file
    system, the job queue, the clock or the chat is written in a small
    state-and-exception monad over [World]. *)

From Stdlib Require Import ZArith List String Ascii Bool Lia.
From Stdlib Require Import Sorted Permutation.
Import ListNotations.

Local Open Scope string_scope.
Local Open Scope list_scope.
Local Open Scope Z_scope.

(* ================================================================= *)
(** ** Exceptions *)

Inductive exn : Type :=
| KeyError
| ValueError
| TypeError
| AttributeError
| OverflowError
| JSONDecodeError
| OSError.

Inductive result (A : Type) : Type :=
| Ok (a : A)
| Raise (e : exn).

Arguments Ok {A} a.
Arguments Raise {A} e.

Definition rbind {A B} (r : result A) (k : A -> result B) : result B :=
  match r with
  | Ok a => k a
  | Raise e => Raise e
  end.

Declare Scope result_scope.
Delimit Scope result_scope with result.
Notation "'let?' x ':=' r 'in' k" := (rbind r (fun x => k))
  (at level 10, x pattern, r at level 100, k at level 200) : result_scope.

(** [[f(x) for x in xs]] where [f] may raise: the first exception wins. *)
Fixpoint rmap {A B} (f : A -> result B) (xs : list A) : result (list B) :=
  match xs with
  | [] => Ok []
  | x :: xs' =>
      (let? y := f x in
       let? ys := rmap f xs' in
       Ok (y :: ys))%result
  end.

(* ================================================================= *)
(** ** The proleptic Gregorian calendar of [datetime]

    The helper functions of the standard [datetime] module, on which
    [toordinal], [fromordinal], date differences and
    [datetime +/- timedelta] are built.  [//] and [%] are floor division
    and modulus, as [Z.div] and [Z.modulo] are for a positive divisor. *)

Module Calendar.

Definition MINYEAR : Z := 1.
Definition MAXYEAR : Z := 9999.
Definition MAXORDINAL : Z := 3652059.

Definition is_leap (year : Z) : bool :=
  (year mod 4 =? 0) && (negb (year mod 100 =? 0) || (year mod 400 =? 0)).

Definition days_before_year (year : Z) : Z :=
  let y := year - 1 in
  y * 365 + y / 4 - y / 100 + y / 400.

(** [_DAYS_IN_MONTH], indexed from 1; [-1] is the placeholder at index 0. *)
Definition DAYS_IN_MONTH (month : Z) : Z :=
  match month with
  | 1 => 31 | 2 => 28 | 3 => 31 | 4 => 30 | 5 => 31 | 6 => 30
  | 7 => 31 | 8 => 31 | 9 => 30 | 10 => 31 | 11 => 30 | 12 => 31
  | _ => -1
  end.

(** [_DAYS_BEFORE_MONTH], indexed from 1. *)
Definition DAYS_BEFORE_MONTH (month : Z) : Z :=
  match month with
  | 1 => 0 | 2 => 31 | 3 => 59 | 4 => 90 | 5 => 120 | 6 => 151
  | 7 => 181 | 8 => 212 | 9 => 243 | 10 => 273 | 11 => 304 | 12 => 334
  | _ => -1
  end.

Definition days_in_month (year month : Z) : Z :=
  if (month =? 2) && is_leap year then 29 else DAYS_IN_MONTH month.

Definition days_before_month (year month : Z) : Z :=
  DAYS_BEFORE_MONTH month + (if (month >? 2) && is_leap year then 1 else 0).

Definition ymd2ord (year month day : Z) : Z :=
  days_before_year year + days_before_month year month + day.

Definition DI400Y : Z := 146097.
Definition DI100Y : Z := 36524.
Definition DI4Y : Z := 1461.

Definition ord2ymd (n : Z) : Z * Z * Z :=
  let n := n - 1 in
  let n400 := n / DI400Y in
  let n := n mod DI400Y in
  let year := n400 * 400 + 1 in
  let n100 := n / DI100Y in
  let n := n mod DI100Y in
  let n4 := n / DI4Y in
  let n := n mod DI4Y in
  let n1 := n / 365 in
  let n := n mod 365 in
  let year := year + n100 * 100 + n4 * 4 + n1 in
  if (n1 =? 4) || (n100 =? 4) then (year - 1, 12, 31)
  else
    let leapyear := (n1 =? 3) && (negb (n4 =? 24) || (n100 =? 3)) in
    let month := Z.shiftr (n + 50) 5 in
    let preceding :=
      DAYS_BEFORE_MONTH month + (if (month >? 2) && leapyear then 1 else 0) in
    let '(month, preceding) :=
      if preceding >? n
      then (month - 1,
            preceding
            - (DAYS_IN_MONTH (month - 1)
               + (if (month - 1 =? 2) && leapyear then 1 else 0)))
      else (month, preceding) in
    (year, month, n - preceding + 1).

(** [_check_date_fields]. *)
Definition check_date_fields (year month day : Z) : bool :=
  (MINYEAR <=? year) && (year <=? MAXYEAR)
  && (1 <=? month) && (month <=? 12)
  && (1 <=? day) && (day <=? days_in_month year month).

End Calendar.

(* ================================================================= *)
(** ** Decimal text

    [str(n)] and [int(s)] on integers, and the fixed-width fields of
    ISO timestamps. *)

Module PyText.

Definition digit_char (d : Z) : ascii := ascii_of_nat (Z.to_nat (48 + d)).

Definition digit_val (c : ascii) : option Z :=
  let n := Z.of_nat (nat_of_ascii c) in
  if (48 <=? n) && (n <=? 57) then Some (n - 48) else None.

(** [w] decimal digits of [z], most significant first: ["%0wd" % z] for
    [0 <= z < 10^w], the only values the fields of a [datetime] take. *)
Fixpoint fmt_digits (w : nat) (z : Z) (acc : string) : string :=
  match w with
  | O => acc
  | S w' => fmt_digits w' (z / 10) (String (digit_char (z mod 10)) acc)
  end.

(** The value of a string of ASCII digits ([None] on any other
    character), continuing from [acc]. *)
Fixpoint parse_digits (s : string) (acc : Z) : option Z :=
  match s with
  | EmptyString => Some acc
  | String c s' =>
      match digit_val c with
      | Some d => parse_digits s' (acc * 10 + d)
      | None => None
      end
  end.

(** Exactly [w] digits. *)
Definition parse_fixed (w : nat) (s : string) : option Z :=
  if Nat.eqb (String.length s) w then parse_digits s 0 else None.

(** The decimal digits of a positive number, by repeated division; the
    fuel bounds the number of digits. *)
Fixpoint digits_of (fuel : nat) (n : Z) (acc : string) : string :=
  match fuel with
  | O => acc
  | S fuel' =>
      let acc' := String (digit_char (n mod 10)) acc in
      if n <? 10 then acc' else digits_of fuel' (n / 10) acc'
  end.

(** [str(n)] for an [int]. *)
Definition str_of_int (n : Z) : string :=
  let a := Z.abs n in
  let body := digits_of (S (Z.to_nat (Z.log2 a))) a EmptyString in
  if n <? 0 then String "-" body else body.

Definition is_space (c : ascii) : bool :=
  let n := nat_of_ascii c in
  (Nat.eqb n 32) || (Nat.leb 9 n && Nat.leb n 13)
  || (Nat.leb 28 n && Nat.leb n 31).

Fixpoint lstrip (s : string) : string :=
  match s with
  | EmptyString => EmptyString
  | String c s' => if is_space c then lstrip s' else s
  end.

(** Drops trailing white space: a character is kept when something
    other than white space follows it. *)
Fixpoint rstrip (s : string) : string :=
  match s with
  | EmptyString => EmptyString
  | String c s' =>
      match rstrip s' with
      | EmptyString => if is_space c then EmptyString else String c EmptyString
      | r => String c r
      end
  end.

Definition strip (s : string) : string := rstrip (lstrip s).

(** The digits of an integer literal, where single underscores may
    separate digits; [prev] tells whether the previous character was a
    digit. *)
Fixpoint parse_literal (s : string) (prev : bool) (acc : Z) : option Z :=
  match s with
  | EmptyString => if prev then Some acc else None
  | String c s' =>
      match digit_val c with
      | Some d => parse_literal s' true (acc * 10 + d)
      | None =>
          if Ascii.eqb c "_" && prev then parse_literal s' false acc
          else None
      end
  end.

(** [int(s)] for a [str] in base 10: surrounding white space, an
    optional sign, then digits.  [None] stands for [ValueError].
    (Python also accepts non-ASCII decimal digits and white space, which
    are left out.) *)
Definition int_of_str (s : string) : option Z :=
  match strip s with
  | EmptyString => None
  | String c body =>
      if Ascii.eqb c "-" then option_map Z.opp (parse_literal body false 0)
      else if Ascii.eqb c "+" then parse_literal body false 0
      else parse_literal (String c body) false 0
  end.

(** [s.split(sep, 1)] when [sep] occurs in [s]: the text before and
    after its first occurrence; [None] when [sep not in s]. *)
Fixpoint split_once (sep : ascii) (s : string) : option (string * string) :=
  match s with
  | EmptyString => None
  | String c s' =>
      if Ascii.eqb c sep then Some (EmptyString, s')
      else match split_once sep s' with
           | Some (a, b) => Some (String c a, b)
           | None => None
           end
  end.

(** The double quote character. *)
Definition dquote : string := String (ascii_of_nat 34) EmptyString.

End PyText.

(* ================================================================= *)
(** ** Naive [datetime], [date], [time] and [timedelta] *)

Module Datetime.
Import Calendar PyText.

Record date : Type := mkDate { d_year : Z; d_month : Z; d_day : Z }.

Record time : Type :=
  mkTime { t_hour : Z; t_minute : Z; t_second : Z; t_microsecond : Z }.

Record datetime : Type := mkDatetime {
  year : Z; month : Z; day : Z;
  hour : Z; minute : Z; second : Z; microsecond : Z }.

(** A [timedelta] is kept as its exact length in microseconds; Python
    normalises it to days, seconds and microseconds of the same total. *)
Definition timedelta : Type := Z.

Definition US_PER_SECOND : Z := 1000000.
Definition US_PER_DAY : Z := 86400 * US_PER_SECOND.

(** [timedelta(days=, hours=, minutes=, seconds=)]. *)
Definition mk_timedelta (days hours minutes seconds : Z) : timedelta :=
  (((days * 24 + hours) * 60 + minutes) * 60 + seconds) * US_PER_SECOND.

(** [td.days]. *)
Definition td_days (td : timedelta) : Z := td / US_PER_DAY.

(** [int(td.total_seconds())]: [int] truncates towards zero. *)
Definition td_total_seconds_int (td : timedelta) : Z :=
  Z.quot td US_PER_SECOND.

(** [_check_time_fields]. *)
Definition check_time_fields (h m s us : Z) : bool :=
  (0 <=? h) && (h <=? 23) && (0 <=? m) && (m <=? 59)
  && (0 <=? s) && (s <=? 59) && (0 <=? us) && (us <=? 999999).

(** The invariant of every [datetime] object, enforced by the
    constructor. *)
Definition valid (dt : datetime) : bool :=
  check_date_fields (year dt) (month dt) (day dt)
  && check_time_fields (hour dt) (minute dt) (second dt) (microsecond dt).

(** [datetime(year, month, day, hour, minute, second, microsecond)]. *)
Definition datetime_new (y m d h mi s us : Z) : result datetime :=
  let dt := mkDatetime y m d h mi s us in
  if valid dt then Ok dt else Raise ValueError.

(** [dt.date()] and [datetime.combine(d, t)]. *)
Definition date_of (dt : datetime) : date :=
  mkDate (year dt) (month dt) (day dt).

Definition combine (d : date) (t : time) : datetime :=
  mkDatetime (d_year d) (d_month d) (d_day d)
             (t_hour t) (t_minute t) (t_second t) (t_microsecond t).

Definition date_toordinal (d : date) : Z :=
  ymd2ord (d_year d) (d_month d) (d_day d).

Definition toordinal (dt : datetime) : Z :=
  ymd2ord (year dt) (month dt) (day dt).

(** [(d1 - d2).days] for two dates. *)
Definition date_diff_days (d1 d2 : date) : Z :=
  date_toordinal d1 - date_toordinal d2.

(** The comparison of two naive datetimes: their field tuples in
    lexicographic order. *)
Fixpoint lex_compare (xs ys : list Z) : comparison :=
  match xs, ys with
  | x :: xs', y :: ys' =>
      match x ?= y with
      | Eq => lex_compare xs' ys'
      | c => c
      end
  | [], [] => Eq
  | [], _ :: _ => Lt
  | _ :: _, [] => Gt
  end.

Definition fields (dt : datetime) : list Z :=
  [year dt; month dt; day dt; hour dt; minute dt; second dt; microsecond dt].

Definition compare (a b : datetime) : comparison :=
  lex_compare (fields a) (fields b).

Definition ltb (a b : datetime) : bool :=
  match compare a b with Lt => true | _ => false end.
Definition leb (a b : datetime) : bool :=
  match compare a b with Gt => false | _ => true end.
Definition gtb (a b : datetime) : bool := ltb b a.

(** The position of a datetime on the time line, in microseconds: the
    [timedelta] that [__add__] and [__sub__] build from [toordinal()] and
    the time fields. *)
Definition to_delta (dt : datetime) : timedelta :=
  (toordinal dt * 86400
   + (hour dt * 3600 + minute dt * 60 + second dt)) * US_PER_SECOND
  + microsecond dt.

(** [dt + td]; [OverflowError] outside years 1..9999. *)
Definition add (dt : datetime) (td : timedelta) : result datetime :=
  let delta := to_delta dt + td in
  let days := delta / US_PER_DAY in
  let rest := delta mod US_PER_DAY in
  let seconds := rest / US_PER_SECOND in
  let us := rest mod US_PER_SECOND in
  let h := seconds / 3600 in
  let rem := seconds mod 3600 in
  let mi := rem / 60 in
  let s := rem mod 60 in
  if (0 <? days) && (days <=? MAXORDINAL)
  then let '(y, m, d) := ord2ymd days in Ok (mkDatetime y m d h mi s us)
  else Raise OverflowError.

(** [dt - td], which Python computes as [dt + (-td)]. *)
Definition sub (dt : datetime) (td : timedelta) : result datetime :=
  add dt (- td).

(** [a - b] for two datetimes. *)
Definition diff (a b : datetime) : timedelta := to_delta a - to_delta b.

(** [dt.isoformat()]: [YYYY-MM-DDTHH:MM:SS], followed by [.ffffff] when
    the microsecond is not zero. *)
Definition isoformat (dt : datetime) : string :=
  (fmt_digits 4 (year dt) "" ++ "-" ++ fmt_digits 2 (month dt) "" ++ "-"
   ++ fmt_digits 2 (day dt) "" ++ "T"
   ++ fmt_digits 2 (hour dt) "" ++ ":" ++ fmt_digits 2 (minute dt) "" ++ ":"
   ++ fmt_digits 2 (second dt) ""
   ++ (if (microsecond dt =? 0)%Z then ""
       else "." ++ fmt_digits 6 (microsecond dt) ""))%string.

Definition of_option {A} (o : option A) (e : exn) : result A :=
  match o with Some a => Ok a | None => Raise e end.

(** [_parse_isoformat_date] on the first ten characters. *)
Definition parse_isoformat_date (dstr : string) : result (Z * Z * Z) :=
  (let? y := of_option (parse_fixed 4 (substring 0 4 dstr)) ValueError in
   if negb (String.eqb (substring 4 1 dstr) "-") then Raise ValueError else
   let? m := of_option (parse_fixed 2 (substring 5 2 dstr)) ValueError in
   if negb (String.eqb (substring 7 1 dstr) "-") then Raise ValueError else
   let? d := of_option (parse_fixed 2 (substring 8 2 dstr)) ValueError in
   Ok (y, m, d))%result.

(** The fraction [.fff] or [.ffffff] after the seconds. *)
Definition parse_fraction (s : string) : result Z :=
  match s with
  | EmptyString => Ok 0
  | String "." f =>
      if Nat.eqb (String.length f) 6
      then of_option (parse_digits f 0) ValueError
      else if Nat.eqb (String.length f) 3
      then of_option (option_map (Z.mul 1000) (parse_digits f 0)) ValueError
      else Raise ValueError
  | _ => Raise ValueError
  end.

(** [_parse_hh_mm_ss_ff]: [HH[:MM[:SS[.fff[fff]]]]]. *)
Definition parse_hh_mm_ss_ff (tstr : string) : result (Z * Z * Z * Z) :=
  (let? h := of_option (parse_fixed 2 (substring 0 2 tstr)) ValueError in
   match (String.length tstr - 2)%nat with
   | O => Ok (h, 0, 0, 0)
   | _ =>
     if negb (String.eqb (substring 2 1 tstr) ":") then Raise ValueError else
     let? mi := of_option (parse_fixed 2 (substring 3 2 tstr)) ValueError in
     match (String.length tstr - 5)%nat with
     | O => Ok (h, mi, 0, 0)
     | _ =>
       if negb (String.eqb (substring 5 1 tstr) ":") then Raise ValueError else
       let? s := of_option (parse_fixed 2 (substring 6 2 tstr)) ValueError in
       let? us := parse_fraction (substring 8 (String.length tstr - 8) tstr) in
       Ok (h, mi, s, us)
     end
   end)%result.

(** [datetime.fromisoformat(s)] for the naive timestamps
    [YYYY-MM-DD[*HH[:MM[:SS[.fff[fff]]]]]] ([*] is any one character).
    A string carrying a UTC offset denotes an aware datetime, which the
    bot never writes; it is rejected here like any other malformed
    text. *)
Definition fromisoformat (s : string) : result datetime :=
  (let dstr := substring 0 10 s in
   let tstr := substring 11 (String.length s - 11) s in
   let? (y, m, d) := parse_isoformat_date dstr in
   let? (h, mi, sec, us) :=
     match tstr with
     | EmptyString => Ok (0, 0, 0, 0)
     | _ => parse_hh_mm_ss_ff tstr
     end in
   datetime_new y m d h mi sec us)%result.

End Datetime.

(* ================================================================= *)
(** ** Python values in a JSON document, and [dict] *)

Module Json.

(** What [json.load] returns and [json.dump] accepts (numbers are the
    integers; the bot writes no other kind). *)
#[local] Set Warnings "-register-all".
Inductive json : Type :=
| JNull
| JBool (b : bool)
| JNum (z : Z)
| JStr (s : string)
| JArr (items : list json)
| JObj (members : list (string * json)).

End Json.

(** A [dict] with [str] keys, in insertion order.  A key is bound at most
    once; looking a key up takes its first binding. *)
Module Dict.

Definition dict (V : Type) : Type := list (string * V).

Fixpoint get {V} (k : string) (d : dict V) : option V :=
  match d with
  | [] => None
  | (k', v) :: d' => if String.eqb k k' then Some v else get k d'
  end.

(** [d.get(k, default)]. *)
Definition get_default {V} (k : string) (default : V) (d : dict V) : V :=
  match get k d with Some v => v | None => default end.

(** [d[k] = v]: an existing key keeps its position, a new one goes last. *)
Fixpoint set {V} (k : string) (v : V) (d : dict V) : dict V :=
  match d with
  | [] => [(k, v)]
  | (k', v') :: d' =>
      if String.eqb k k' then (k', v) :: d' else (k', v') :: set k v d'
  end.

(** [d.pop(k, None)], the value dropped. *)
Fixpoint remove {V} (k : string) (d : dict V) : dict V :=
  match d with
  | [] => []
  | (k', v') :: d' =>
      if String.eqb k k' then d' else (k', v') :: remove k d'
  end.

End Dict.

(* ================================================================= *)
(** ** [Event] *)

Import PyText Json Datetime.

Record Event : Type := mkEvent {
  id : string;
  title : string;
  when : datetime;
  chat_id : Z }.

(** [raw[key]]: [KeyError] when the key is missing. *)
Definition subscript (raw : list (string * json)) (key : string) : result json :=
  of_option (Dict.get key raw) KeyError.

(** [Event.from_dict(raw)].  The four subscripts are evaluated in the
    order of the keyword arguments, and [fromisoformat] wants a [str].
    The dataclass does not check its fields; the record here is typed,
    so an [id], [title] or [chat_id] of another type than the declared
    one is turned down with [TypeError] once everything else went
    through. *)
Definition from_dict (raw : json) : result Event :=
  match raw with
  | JObj members =>
      (let? r_id := subscript members "id" in
       let? r_title := subscript members "title" in
       let? r_when := subscript members "when" in
       let? w := match r_when with
                 | JStr s => fromisoformat s
                 | _ => Raise TypeError
                 end in
       let? r_chat := subscript members "chat_id" in
       match r_id, r_title, r_chat with
       | JStr i, JStr t, JNum c => Ok (mkEvent i t w c)
       | _, _, _ => Raise TypeError
       end)%result
  | _ => Raise TypeError
  end.

(** [event.to_dict()]. *)
Definition to_dict (e : Event) : json :=
  JObj [("id", JStr (id e));
        ("title", JStr (title e));
        ("when", JStr (isoformat (when e)));
        ("chat_id", JNum (chat_id e))].

(** [events.sort(key=lambda item: item.when)] and [sorted(..., key=...)]:
    a stable sort, as an insertion sort that puts an event before the
    first one of the sorted rest whose [when] is not earlier. *)
Fixpoint insert_by_when (e : Event) (sorted : list Event) : list Event :=
  match sorted with
  | [] => [e]
  | x :: rest =>
      if Datetime.ltb (when x) (when e) then x :: insert_by_when e rest
      else e :: x :: rest
  end.

Definition sort_by_when (events : list Event) : list Event :=
  fold_right insert_by_when [] events.

(* ================================================================= *)
(** ** Files *)

Module FS.

(** A [pathlib.Path], as its parent directory and the stem and suffix of
    its final component: [Path("data/events.json")] is
    [mkPath "data" "events" ".json"]. *)
Record path : Type := mkPath { parent : string; stem : string; suffix : string }.

Definition with_suffix (p : path) (sfx : string) : path :=
  mkPath (parent p) (stem p) sfx.

Definition path_eqb (p q : path) : bool :=
  String.eqb (parent p) (parent q) && String.eqb (stem p) (stem q)
  && String.eqb (suffix p) (suffix q).

(** A file holds a complete JSON document, given by the value it
    denotes, or text that is no JSON document: an empty or cut-off
    file. *)
Inductive content : Type :=
| Document (doc : json)
| Malformed.

Record fs : Type := mkFs {
  dirs : list string;
  files : list (path * content) }.

Fixpoint lookup (p : path) (fl : list (path * content)) : option content :=
  match fl with
  | [] => None
  | (q, c) :: fl' => if path_eqb p q then Some c else lookup p fl'
  end.

Fixpoint store (p : path) (c : content) (fl : list (path * content))
  : list (path * content) :=
  match fl with
  | [] => [(p, c)]
  | (q, c') :: fl' =>
      if path_eqb p q then (q, c) :: fl' else (q, c') :: store p c fl'
  end.

Fixpoint delete (p : path) (fl : list (path * content))
  : list (path * content) :=
  match fl with
  | [] => []
  | (q, c') :: fl' =>
      if path_eqb p q then delete p fl' else (q, c') :: delete p fl'
  end.

(** The file-system calls of [EventStore._write], one step each. *)
Inductive op : Type :=
| Mkdir (dir : string)              (* [mkdir(parents=True, exist_ok=True)] *)
| OpenTruncate (p : path)           (* [open(p, "w")] *)
| Dump (p : path) (doc : json)      (* [json.dump(doc, f)], then close *)
| Replace (src dst : path).         (* [src.replace(dst)] *)

Definition exec (s : fs) (o : op) : fs :=
  match o with
  | Mkdir d => mkFs (d :: dirs s) (files s)
  | OpenTruncate p => mkFs (dirs s) (store p Malformed (files s))
  | Dump p doc => mkFs (dirs s) (store p (Document doc) (files s))
  | Replace src dst =>
      match lookup src (files s) with
      | Some c => mkFs (dirs s) (store dst c (delete src (files s)))
      | None => s
      end
  end.

Definition run (ops : list op) (s : fs) : fs := fold_left exec ops s.

End FS.

(* ================================================================= *)
(** ** The world the bot runs in *)

(** What the platform supplies: the readings of the wall clock
    ([datetime.now()], in call order), the identifiers drawn by
    [uuid.uuid4()], and the two library text functions whose tables are
    not reproduced here, [datetime.strptime] ([None] for [ValueError])
    and [str.lower]. *)
Record Env : Type := mkEnv {
  clock : nat -> datetime;
  uuid4 : nat -> string;
  strptime : string -> string -> option datetime;
  lower : string -> string }.

Inductive callback : Type :=
| DailyCountdown      (* [daily_countdown] *)
| EventReminder.      (* [event_reminder] *)

(** When a job fires, counted from the moment it was registered:
    [run_once(when=delay)] or [run_repeating(interval=..., first=delay)].
    The code passes the delays as [total_seconds()]; they are kept here
    as the exact [timedelta]. *)
Inductive trigger : Type :=
| RunOnce (delay : timedelta)
| RunRepeating (interval : timedelta) (first : timedelta).

(** The [data] dictionary of a job: ["user_id"], ["event"] and, for a
    reminder, ["offset"]. *)
Record JobData : Type := mkJobData {
  jd_user_id : Z;
  jd_event : Event;
  jd_offset : option timedelta }.

Record Job : Type := mkJob {
  job_name : string;
  job_trigger : trigger;
  job_callback : callback;
  job_data : JobData }.

Record World : Type := mkWorld {
  disk : FS.fs;                      (* the file system *)
  jobs : list (nat * Job);           (* the job queue: live jobs with their identity *)
  next_job : nat;                    (* identity of the next job *)
  sent : list (Z * string);          (* [bot.send_message(chat_id, text)] so far *)
  replies : list string;             (* [message.reply_text(text)] so far *)
  user_data : Dict.dict string;      (* [context.user_data] *)
  clock_reads : nat;                 (* calls of [datetime.now()] so far *)
  uuid_reads : nat }.                (* calls of [uuid.uuid4()] so far *)

(** Computations that read and change the world and may raise; the
    effects made before an exception stay. *)
Definition M (A : Type) : Type := World -> result A * World.

Definition ret {A} (a : A) : M A := fun w => (Ok a, w).

Definition bind {A B} (m : M A) (k : A -> M B) : M B :=
  fun w =>
    match m w with
    | (Ok a, w') => k a w'
    | (Raise e, w') => (Raise e, w')
    end.

Definition lift {A} (r : result A) : M A := fun w => (r, w).

Declare Scope monad_scope.
Delimit Scope monad_scope with monad.
Notation "x <- m ;; k" := (bind m (fun x => k))
  (at level 61, m at next level, right associativity) : monad_scope.
Notation "m ;; k" := (bind m (fun _ => k))
  (at level 61, right associativity) : monad_scope.
Local Open Scope monad_scope.

(** [for x in xs: body(x)]. *)
Fixpoint for_each {A} (xs : list A) (body : A -> M unit) : M unit :=
  match xs with
  | [] => ret tt
  | x :: xs' => body x ;; for_each xs' body
  end.

Definition set_disk (d : FS.fs) (w : World) : World :=
  mkWorld d (jobs w) (next_job w) (sent w) (replies w) (user_data w)
          (clock_reads w) (uuid_reads w).

Definition set_jobs (js : list (nat * Job)) (w : World) : World :=
  mkWorld (disk w) js (next_job w) (sent w) (replies w) (user_data w)
          (clock_reads w) (uuid_reads w).

(** [datetime.now()]. *)
Definition datetime_now (env : Env) : M datetime :=
  fun w =>
    (Ok (clock env (clock_reads w)),
     mkWorld (disk w) (jobs w) (next_job w) (sent w) (replies w)
             (user_data w) (S (clock_reads w)) (uuid_reads w)).

(** [str(uuid.uuid4())]. *)
Definition new_uuid (env : Env) : M string :=
  fun w =>
    (Ok (uuid4 env (uuid_reads w)),
     mkWorld (disk w) (jobs w) (next_job w) (sent w) (replies w)
             (user_data w) (clock_reads w) (S (uuid_reads w))).

(** [context.bot.send_message(chat_id=..., text=...)]. *)
Definition send_message (chat : Z) (text : string) : M unit :=
  fun w =>
    (Ok tt,
     mkWorld (disk w) (jobs w) (next_job w) (sent w ++ [(chat, text)])
             (replies w) (user_data w) (clock_reads w) (uuid_reads w)).

(** [update.message.reply_text(text, reply_markup=...)]; the keyboard is
    not recorded. *)
Definition reply_text (text : string) : M unit :=
  fun w =>
    (Ok tt,
     mkWorld (disk w) (jobs w) (next_job w) (sent w) (replies w ++ [text])
             (user_data w) (clock_reads w) (uuid_reads w)).

Definition set_user_data (d : Dict.dict string) : M unit :=
  fun w =>
    (Ok tt,
     mkWorld (disk w) (jobs w) (next_job w) (sent w) (replies w) d
             (clock_reads w) (uuid_reads w)).

(* ----------------------------------------------------------------- *)
(** *** The job queue *)

(** [job.schedule_removal()] for the job of identity [jid]. *)
Definition schedule_removal (jid : nat) : M unit :=
  fun w =>
    (Ok tt,
     set_jobs (filter (fun j => negb (Nat.eqb (fst j) jid)) (jobs w)) w).

(** [job_queue.run_once] and [job_queue.run_repeating]: a new job, with
    an identity of its own, at the end of the queue. *)
Definition register (j : Job) : M unit :=
  fun w =>
    (Ok tt,
     mkWorld (disk w) (jobs w ++ [(next_job w, j)]) (S (next_job w))
             (sent w) (replies w) (user_data w)
             (clock_reads w) (uuid_reads w)).

(** [job_queue.get_jobs_by_name(name)]. *)
Definition get_jobs_by_name (name : string) : M (list (nat * Job)) :=
  fun w =>
    (Ok (filter (fun j => String.eqb (job_name (snd j)) name) (jobs w)), w).

Definition remove_existing_jobs (name : string) : M unit :=
  found <- get_jobs_by_name name ;;
  for_each found (fun j => schedule_removal (fst j)).

(* ----------------------------------------------------------------- *)
(** *** Constants *)

Definition STORAGE_PATH : FS.path := FS.mkPath "data" "events" ".json".

Definition DAILY_REMINDER_TIME : time := mkTime 9 0 0 0.

Definition REMINDER_OFFSETS : list timedelta :=
  [ mk_timedelta 0 10 0 0;
    mk_timedelta 0 5 0 0;
    mk_timedelta 0 0 30 0;
    mk_timedelta 0 0 5 0;
    mk_timedelta 0 0 0 0 ].

(* ----------------------------------------------------------------- *)
(** *** [EventStore]

    A store is its [path]; the [asyncio.Lock] makes each of
    [load_all], [list_events] and [add_event] run from start to end
    without another one in between, which is how they are composed
    here. *)

(** The list comprehension over one owner's [items]. *)
Definition decode_items (items : json) : result (list Event) :=
  match items with
  | JArr l => rmap from_dict l
  | JObj [] => Ok []
  | JStr EmptyString => Ok []
  | _ => Raise TypeError
  end.

(** The dictionary comprehension of [_read] over [raw.items()]. *)
Definition decode (raw : json) : result (Dict.dict (list Event)) :=
  match raw with
  | JObj members =>
      rmap (fun kv => (let? evs := decode_items (snd kv) in
                       Ok (fst kv, evs))%result) members
  | _ => Raise AttributeError
  end.

Definition _read (path : FS.path) : M (Dict.dict (list Event)) :=
  fun w =>
    match FS.lookup path (FS.files (disk w)) with
    | None => (Ok [], w)
    | Some FS.Malformed => (Raise JSONDecodeError, w)
    | Some (FS.Document raw) => (decode raw, w)
    end.

(** The dictionary comprehension of [_write]. *)
Definition encode (data : Dict.dict (list Event)) : json :=
  JObj (map (fun kv => (fst kv, JArr (map to_dict (snd kv)))) data).

(** The file-system steps of [_write], in order. *)
Definition write_ops (path : FS.path) (data : Dict.dict (list Event))
  : list FS.op :=
  let tmp_path := FS.with_suffix path ".tmp" in
  [ FS.Mkdir (FS.parent path);
    FS.OpenTruncate tmp_path;
    FS.Dump tmp_path (encode data);
    FS.Replace tmp_path path ].

Definition _write (path : FS.path) (data : Dict.dict (list Event)) : M unit :=
  fun w => (Ok tt, set_disk (FS.run (write_ops path data) (disk w)) w).

(** A write that does not get through: after [k] of its steps the
    process dies, or the next step raises [OSError]. *)
Definition _write_interrupted (k : nat) (path : FS.path)
    (data : Dict.dict (list Event)) : M unit :=
  fun w =>
    (Raise OSError,
     set_disk (FS.run (firstn k (write_ops path data)) (disk w)) w).

Definition load_all (path : FS.path) : M (Dict.dict (list Event)) :=
  _read path.

Definition list_events (path : FS.path) (user_id : Z) : M (list Event) :=
  data <- _read path ;;
  ret (sort_by_when (Dict.get_default (str_of_int user_id) [] data)).

Definition add_event (path : FS.path) (user_id : Z) (event : Event) : M unit :=
  data <- _read path ;;
  let user_key := str_of_int user_id in
  let events := Dict.get_default user_key [] data in
  let events := events ++ [event] in
  let events := sort_by_when events in
  let data := Dict.set user_key events data in
  _write path data.

(* ----------------------------------------------------------------- *)
(** *** Scheduling *)

Definition daily_job_name (user_id : Z) (event : Event) : string :=
  ("daily-" ++ str_of_int user_id ++ "-" ++ id event)%string.

Definition reminder_job_name (user_id : Z) (event : Event) (offset : timedelta)
  : string :=
  ("reminder-" ++ str_of_int user_id ++ "-" ++ id event ++ "-"
   ++ str_of_int (td_total_seconds_int offset))%string.

(** Lines 171-172 of [schedule_daily_counter]. *)
Definition first_run (now : datetime) : result datetime :=
  let today_target := combine (date_of now) DAILY_REMINDER_TIME in
  if Datetime.gtb today_target now then Ok today_target
  else Datetime.add today_target (mk_timedelta 1 0 0 0).

Definition schedule_daily_counter (user_id : Z) (event : Event) (now : datetime)
  : M unit :=
  let name := daily_job_name user_id event in
  remove_existing_jobs name ;;
  first <- lift (first_run now) ;;
  let delay := Datetime.diff first now in
  register (mkJob name (RunRepeating (mk_timedelta 1 0 0 0) delay)
                  DailyCountdown (mkJobData user_id event None)).

Definition schedule_event_reminders (user_id : Z) (event : Event) (now : datetime)
  : M unit :=
  for_each REMINDER_OFFSETS (fun offset =>
    fire_at <- lift (Datetime.sub (when event) offset) ;;
    if Datetime.leb fire_at now then ret tt
    else
      let name := reminder_job_name user_id event offset in
      remove_existing_jobs name ;;
      let delay := Datetime.diff fire_at now in
      register (mkJob name (RunOnce delay) EventReminder
                      (mkJobData user_id event (Some offset)))).

Definition schedule_event_jobs (env : Env) (user_id : Z) (event : Event) : M unit :=
  now <- datetime_now env ;;
  if Datetime.leb (when event) now then ret tt
  else
    schedule_daily_counter user_id event now ;;
    schedule_event_reminders user_id event now.

Definition create_event_and_schedule (env : Env) (store : FS.path)
    (user_id chat_id : Z) (title : string) (when : datetime) : M Event :=
  uid <- new_uuid env ;;
  let event := mkEvent uid title when chat_id in
  add_event store user_id event ;;
  schedule_event_jobs env user_id event ;;
  ret event.

(* ----------------------------------------------------------------- *)
(** *** Timer callbacks

    A callback gets the job that fired: its identity and its record. *)

Definition daily_countdown (env : Env) (jid : nat) (job : Job) : M unit :=
  let event := jd_event (job_data job) in
  now <- datetime_now env ;;
  if Datetime.leb (when event) now then schedule_removal jid
  else
    let days_left := date_diff_days (date_of (when event)) (date_of now) in
    send_message (chat_id event)
      ("До события " ++ dquote ++ title event ++ dquote ++ " осталось "
       ++ str_of_int days_left ++ " дней.")%string.

Definition humanize_timedelta (delta : timedelta) : string :=
  let total_minutes := delta / (60 * US_PER_SECOND) in
  let hours := total_minutes / 60 in
  let minutes := total_minutes mod 60 in
  let parts := if hours =? 0 then [] else [(str_of_int hours ++ " ч")%string] in
  let parts :=
    if negb (minutes =? 0) || (match parts with [] => true | _ => false end)
    then parts ++ [(str_of_int minutes ++ " мин")%string] else parts in
  String.concat " " parts.

Definition event_reminder (job : Job) : M unit :=
  let event := jd_event (job_data job) in
  match jd_offset (job_data job) with
  | None => lift (Raise KeyError)
  | Some offset =>
      let text :=
        if offset <=? 0
        then ("Событие " ++ dquote ++ title event ++ dquote
              ++ " начинается сейчас!")%string
        else ("Событие " ++ dquote ++ title event ++ dquote ++ " через "
              ++ humanize_timedelta offset ++ ".")%string in
      send_message (chat_id event) text
  end.

(* ----------------------------------------------------------------- *)
(** *** Recovery at start-up *)

Definition reschedule_all_events (env : Env) (store : FS.path) : M unit :=
  data <- load_all store ;;
  now <- datetime_now env ;;
  for_each data (fun entry =>
    match int_of_str (fst entry) with
    | None => ret tt
    | Some user_id =>
        for_each (snd entry) (fun event =>
          if Datetime.gtb (when event) now
          then schedule_event_jobs env user_id event
          else ret tt)
    end).

(* ----------------------------------------------------------------- *)
(** *** The two entry paths that create events *)

(** What the handlers read of an [Update]: the text of the message, the
    user and the chat, each absent or present. *)
Record Update : Type := mkUpdate {
  message : option string;
  effective_user : option Z;
  effective_chat : option Z }.

(** The states of the conversation; [END] is [ConversationHandler.END]. *)
Inductive conversation : Type := TITLE | DATE | END.

Definition parse_datetime (env : Env) (raw : string) : option datetime :=
  let cleaned := strip raw in
  match strptime env cleaned "%Y-%m-%d %H:%M" with
  | Some parsed => Some parsed
  | None =>
      match strptime env cleaned "%Y-%m-%d" with
      | Some parsed => Some (combine (date_of parsed) (mkTime 9 0 0 0))
      | None => None
      end
  end.

(** [dt.strftime('%Y-%m-%d %H:%M')]. *)
Definition strftime_minutes (dt : datetime) : string :=
  (fmt_digits 4 (year dt) "" ++ "-" ++ fmt_digits 2 (month dt) "" ++ "-"
   ++ fmt_digits 2 (day dt) "" ++ " "
   ++ fmt_digits 2 (hour dt) "" ++ ":" ++ fmt_digits 2 (minute dt) "")%string.

Definition added_text (event : Event) : string :=
  ("Событие " ++ dquote ++ title event ++ dquote ++ " добавлено на "
   ++ strftime_minutes (when event) ++ ".")%string.

Definition newline : string := String (ascii_of_nat 10) EmptyString.

Definition add_event_command (env : Env) (store : FS.path)
    (update : Update) (args : list string) : M unit :=
  match message update, effective_user update, effective_chat update with
  | Some text, Some user, Some chat =>
      match args with
      | [] => reply_text "Формат: /add Название; 2024-12-31 18:00"
      | _ :: _ =>
        match split_once " " text with
        | None =>
            reply_text "Нужно использовать точку с запятой: /add Название; 2024-12-31 18:00"
        | Some (_, payload) =>
          match split_once ";" payload with
          | None =>
              reply_text "Нужно использовать точку с запятой: /add Название; 2024-12-31 18:00"
          | Some (title_part, date_part) =>
            let title_raw := strip title_part in
            let date_raw := strip date_part in
            match title_raw with
            | EmptyString => reply_text "Название не может быть пустым."
            | _ =>
              match parse_datetime env date_raw with
              | None =>
                  reply_text "Не получилось разобрать дату. Формат: YYYY-MM-DD HH:MM (например, 2024-12-31 18:00)."
              | Some when =>
                  now <- datetime_now env ;;
                  if Datetime.leb when now
                  then reply_text "Дата должна быть в будущем."
                  else
                    event <- create_event_and_schedule env store user chat
                                                       title_raw when ;;
                    reply_text (added_text event)
              end
            end
          end
        end
      end
  | _, _, _ => ret tt
  end.

Definition add_event_date (env : Env) (store : FS.path) (update : Update)
  : M conversation :=
  match message update, effective_user update, effective_chat update with
  | Some raw_text, Some user, Some chat =>
      let text := strip raw_text in
      if String.eqb (lower env text) "отмена"
      then reply_text "Добавление отменено." ;; ret END
      else
        match parse_datetime env text with
        | None =>
            reply_text
              ("Не получилось разобрать дату. Формат: YYYY-MM-DD HH:MM (например, 2024-12-31 18:00)."
               ++ newline ++ "Попробуй ещё раз или нажми Отмена.")%string ;;
            ret DATE
        | Some when =>
            now <- datetime_now env ;;
            if Datetime.leb when now
            then
              reply_text "Дата должна быть в будущем. Попробуй ещё раз или Отмена." ;;
              ret DATE
            else
              data <- (fun w => (Ok (user_data w), w)) ;;
              let title := Dict.get_default "new_event_title" "Без названия" data in
              event <- create_event_and_schedule env store user chat title when ;;
              data <- (fun w => (Ok (user_data w), w)) ;;
              set_user_data (Dict.remove "new_event_title" data) ;;
              reply_text (added_text event) ;;
              ret END
        end
  | _, _, _ => ret END
  end.

(* ----------------------------------------------------------------- *)
(** *** The conversation around [add_event_date], and the listing *)

(** [context.user_data], read. *)
Definition get_user_data : M (Dict.dict string) :=
  fun w => (Ok (user_data w), w).

Definition add_event_start (update : Update) : M conversation :=
  match message update, effective_user update with
  | Some _, Some _ => reply_text "Как назовем событие?" ;; ret TITLE
  | _, _ => ret END
  end.

Definition add_event_title (env : Env) (update : Update) : M conversation :=
  match message update, effective_user update with
  | Some raw_text, Some _ =>
      let title := strip raw_text in
      if (match title with EmptyString => true | _ => false end)
         || String.eqb (lower env title) "отмена"
      then reply_text "Добавление отменено." ;; ret END
      else
        data <- get_user_data ;;
        set_user_data (Dict.set "new_event_title" title data) ;;
        reply_text
          "Укажи дату и время в формате YYYY-MM-DD HH:MM (можно только дату)." ;;
        ret DATE
  | _, _ => ret END
  end.

Definition cancel_add (update : Update) : M conversation :=
  match message update with
  | Some _ => reply_text "Добавление отменено."
  | None => ret tt
  end ;;
  data <- get_user_data ;;
  set_user_data (Dict.remove "new_event_title" data) ;;
  ret END.

(** The [status] that the loop of [send_events_list] works out for one
    event.  [hours_left] is a float quotient in the code; [time_left] is
    a whole number of microseconds, so comparing the quotient with 24
    and truncating it give what exact division gives. *)
Definition event_status (now : datetime) (event : Event) : string :=
  if Datetime.ltb (when event) now then "уже прошло"
  else
    let time_left := Datetime.diff (when event) now in
    if time_left <? 24 * 3600 * US_PER_SECOND
    then
      let hours := time_left / (3600 * US_PER_SECOND) in
      ("через " ++ str_of_int hours ++ " ч.")%string
    else
      let days_left := date_diff_days (date_of (when event)) (date_of now) in
      if days_left =? 1 then "завтра"
      else ("через " ++ str_of_int days_left ++ " дней")%string.

(** One line of the listing. *)
Definition event_line (now : datetime) (event : Event) : string :=
  ("- " ++ title event ++ " — " ++ strftime_minutes (when event)
   ++ " (" ++ event_status now event ++ ")")%string.

(** [send_events_list], for the user of the update; both callers have
    checked that there is one. *)
Definition send_events_list (env : Env) (store : FS.path) (user : Z) : M unit :=
  events <- list_events store user ;;
  match events with
  | [] => reply_text "Событий пока нет. Добавь через /add"
  | _ :: _ =>
      now <- datetime_now env ;;
      reply_text ("Твои события:" ++ newline
                  ++ String.concat newline (map (event_line now) events))%string
  end.

Definition list_events_command (env : Env) (store : FS.path) (update : Update)
  : M unit :=
  match message update, effective_user update with
  | Some _, Some user => send_events_list env store user
  | _, _ => ret tt
  end.

Definition list_events_button (env : Env) (store : FS.path) (update : Update)
  : M unit :=
  match message update, effective_user update with
  | Some _, Some user => send_events_list env store user
  | _, _ => ret tt
  end.

(* ================================================================= *)
(** ** Definitions used in the statements and proofs below *)

Import Calendar.

(** The month and day of the [n]-th day (from 0) of a year: the last
    part of [ord2ymd]. *)
Definition month_day (n : Z) (leapyear : bool) : Z * Z :=
  let month := Z.shiftr (n + 50) 5 in
  let preceding :=
    DAYS_BEFORE_MONTH month + (if (month >? 2) && leapyear then 1 else 0) in
  let '(month, preceding) :=
    if preceding >? n
    then (month - 1,
          preceding
          - (DAYS_IN_MONTH (month - 1)
             + (if (month - 1 =? 2) && leapyear then 1 else 0)))
    else (month, preceding) in
  (month, n - preceding + 1).

(** [month_day] gives a month, a day of that month, and the right day of
    the year. *)
Definition month_day_ok (leap : bool) (n : Z) : bool :=
  let '(m, d) := month_day n leap in
  (1 <=? m) && (m <=? 12) && (1 <=? d)
  && (d <=? (if (m =? 2) && leap then 29 else DAYS_IN_MONTH m))
  && (DAYS_BEFORE_MONTH m + (if (m >? 2) && leap then 1 else 0) + d =? n + 1).

(** [0, 1, ..., k - 1]. *)
Definition upto (k : nat) : list Z := map Z.of_nat (seq 0 k).

(** The number of days of year [y]. *)
Definition year_len (y : Z) : Z := if is_leap y then 366 else 365.

(** ASCII decimal digits, and strings made of them. *)
Definition is_digit (c : ascii) : bool :=
  match digit_val c with Some _ => true | None => false end.

Fixpoint string_forall (P : ascii -> bool) (s : string) : bool :=
  match s with
  | EmptyString => true
  | String c s' => P c && string_forall P s'
  end.

Definition digit_string (s : string) : bool := string_forall is_digit s.

(** Every stored event carries a well-formed timestamp. *)
Definition all_valid (data : Dict.dict (list Event)) : Prop :=
  Forall (fun kv => Forall (fun e => valid (when e) = true) (snd kv)) data.

(** What [_read] finds on a disk. *)
Definition read_disk (path : FS.path) (d : FS.fs)
  : result (Dict.dict (list Event)) :=
  match FS.lookup path (FS.files d) with
  | None => Ok []
  | Some FS.Malformed => Raise JSONDecodeError
  | Some (FS.Document raw) => decode raw
  end.

(** Ascending order of [when]. *)
Definition when_le (a b : Event) : Prop :=
  Datetime.leb (when a) (when b) = true.

(** The queue without the jobs bearing one of [names]. *)
Definition without (names : list string) (q : list (nat * Job))
  : list (nat * Job) :=
  filter (fun j => negb (existsb (String.eqb (job_name (snd j))) names)) q.

(** The world after registering the jobs [js] in turn, each one taking
    the place of the live jobs of its name: these are dropped, and the
    new jobs stand at the end of the queue with the next identities. *)
Definition enqueue (js : list Job) (w : World) : World :=
  mkWorld (disk w)
          (without (map job_name js) (jobs w)
           ++ List.combine (seq (next_job w) (List.length js)) js)
          (List.length js + next_job w)%nat
          (sent w) (replies w) (user_data w) (clock_reads w) (uuid_reads w).

(** The world after one more reading of the clock. *)
Definition tick (w : World) : World :=
  mkWorld (disk w) (jobs w) (next_job w) (sent w) (replies w) (user_data w)
          (S (clock_reads w)) (uuid_reads w).

(** Job identities are unique and were all handed out already. *)
Definition wf_jobs (w : World) : Prop :=
  NoDup (map fst (jobs w))
  /\ Forall (fun j => (fst j < next_job w)%nat) (jobs w).

(** The time of day of a datetime, in microseconds. *)
Definition time_of_day (dt : datetime) : Z :=
  (hour dt * 3600 + minute dt * 60 + second dt) * US_PER_SECOND
  + microsecond dt.

(** 09:00 as a time of day. *)
Definition NINE : Z := 9 * 3600 * US_PER_SECOND.

(** From [now] to the next 09:00 that lies strictly after it. *)
Definition daily_delay (now : datetime) : timedelta :=
  if time_of_day now <? NINE then NINE - time_of_day now
  else NINE + US_PER_DAY - time_of_day now.

(** The daily countdown of [e], as registered at [now]. *)
Definition daily_job (user_id : Z) (e : Event) (now : datetime) : Job :=
  mkJob (daily_job_name user_id e)
        (RunRepeating (mk_timedelta 1 0 0 0) (daily_delay now))
        DailyCountdown (mkJobData user_id e None).

(** The offsets whose reminder is still ahead at [now]. *)
Definition due_offsets (e : Event) (now : datetime) : list timedelta :=
  filter (fun off => to_delta now <? to_delta (when e) - off) REMINDER_OFFSETS.

(** The reminder of [e] for [off]: it fires [when e - off - now] after
    [now], that is at [when e - off]. *)
Definition reminder_job (user_id : Z) (e : Event) (now : datetime)
    (off : timedelta) : Job :=
  mkJob (reminder_job_name user_id e off)
        (RunOnce (to_delta (when e) - off - to_delta now))
        EventReminder (mkJobData user_id e (Some off)).

(** All timers of one event, as derived at [now]. *)
Definition derived_jobs (user_id : Z) (e : Event) (now : datetime) : list Job :=
  daily_job user_id e now
  :: map (reminder_job user_id e now) (due_offsets e now).

(** The world after one more identifier was drawn. *)
Definition drawn (w : World) : World :=
  mkWorld (disk w) (jobs w) (next_job w) (sent w) (replies w) (user_data w)
          (clock_reads w) (S (uuid_reads w)).

(** A computation that ends without raising and leaves the disk as it
    was. *)
Definition quiet {A} (m : M A) : Prop :=
  forall w, exists a w', m w = (Ok a, w') /\ disk w' = disk w.

(** A clock standing at [now], identifiers [uuid-0], [uuid-1], ...; no
    text is a date and [lower] changes nothing. *)
Definition frozen_env (now : datetime) : Env :=
  mkEnv (fun _ => now)
        (fun n => ("uuid-" ++ str_of_int (Z.of_nat n))%string)
        (fun _ _ => None)
        (fun s => s).

(** Nothing on disk, no job, nothing sent. *)
Definition fresh_world : World :=
  mkWorld (FS.mkFs [] []) [] 0 [] [] [] 0 0.

(** An event at 18:00 on 31 December 2024. *)
Definition party : Event :=
  mkEvent "uuid-0" "party" (mkDatetime 2024 12 31 18 0 0 0) 70.

(** How many live jobs bear [name]. *)
Definition live_count (name : string) (q : list (nat * Job)) : nat :=
  List.length (filter (fun j => String.eqb (job_name (snd j)) name) q).

(** [name] is a timer name of an event whose [id] is [i]. *)
Definition named_for (i name : string) : Prop :=
  exists user_id e,
    id e = i
    /\ (name = daily_job_name user_id e
        \/ exists off, 0 <= off /\ name = reminder_job_name user_id e off).

(** The queue holds only timers of events whose [id] is in [seen]. *)
Definition timers_of (seen : list string) (w : World) : Prop :=
  wf_jobs w
  /\ Forall (fun j => exists i, In i seen /\ named_for i (job_name (snd j)))
            (jobs w).

(** The timers of the events of one owner that lie after [now]. *)
Definition owner_jobs (now : datetime) (user_id : Z) (events : list Event)
  : list Job :=
  flat_map (fun e => if Datetime.gtb (when e) now
                     then derived_jobs user_id e now else []) events.

(** The timers of all events of a store that lie after [now], owner by
    owner; an owner whose key is no integer has none. *)
Definition recovered_jobs (now : datetime) (data : Dict.dict (list Event))
  : list Job :=
  flat_map (fun entry =>
              match int_of_str (fst entry) with
              | Some user_id => owner_jobs now user_id (snd entry)
              | None => []
              end) data.

(** The timers the creation path registers for an event: after
    persisting it, [create_event_and_schedule] runs
    [schedule_event_jobs]; here from a world without timers. *)
Definition creation_timers (env : Env) (user_id : Z) (e : Event) : list Job :=
  map snd (jobs (snd (schedule_event_jobs env user_id e fresh_world))).

(** A store whose first owner has a record without ["when"], and whose
    second owner has the well-formed event [party]. *)
Definition corrupt_store : FS.fs :=
  FS.mkFs ["data"]
    [(STORAGE_PATH,
      FS.Document
        (JObj [("1", JArr [JObj [("id", JStr "a"); ("title", JStr "t");
                                 ("chat_id", JNum 1)]]);
               ("2", JArr [to_dict party])]))].

(** The same store without the first owner. *)
Definition sound_store : FS.fs :=
  FS.mkFs ["data"]
    [(STORAGE_PATH, FS.Document (JObj [("2", JArr [to_dict party])]))].

(** As [frozen_env], reading the one text ["2024-11-30 08:00"] as that
    date and time. *)
Definition reading_env (now : datetime) : Env :=
  mkEnv (fun _ => now)
        (fun n => ("uuid-" ++ str_of_int (Z.of_nat n))%string)
        (fun s fmt =>
           if String.eqb s "2024-11-30 08:00" && String.eqb fmt "%Y-%m-%d %H:%M"
           then Some (mkDatetime 2024 11 30 8 0 0 0) else None)
        (fun s => s).

(** Noon of 1 December 2024. *)
Definition noon : datetime := mkDatetime 2024 12 1 12 0 0 0.

(** An event twenty minutes after [noon]. *)
Definition soon : Event :=
  mkEvent "uuid-1" "call" (mkDatetime 2024 12 1 12 20 0 0) 70.

(** Case analysis on a month [m] from [H : 1 <= m <= 12]. *)
Ltac each_month H :=
  let C := fresh "C" in
  match type of H with
  | 1 <= ?m <= 12 =>
      assert (C : m = 1 \/ m = 2 \/ m = 3 \/ m = 4 \/ m = 5 \/ m = 6 \/
                  m = 7 \/ m = 8 \/ m = 9 \/ m = 10 \/ m = 11 \/ m = 12)
        by lia;
      clear H;
      repeat (destruct C as [C | C]; [subst | ]); [ .. | subst]
  end.

(** The five texts a reminder of [e] can carry. *)
Definition reminder_texts (e : Event) : list string :=
  map (fun tail => ("Событие " ++ dquote ++ title e ++ dquote ++ tail)%string)
      [" через 10 ч."; " через 5 ч."; " через 30 мин."; " через 5 мин.";
       " начинается сейчас!"].

(** [e] takes place at the moment [t]. *)
Definition same_when (t : datetime) (e : Event) : bool :=
  match Datetime.compare (when e) t with Eq => true | _ => false end.

(** The four keys of an event record. *)
Definition EVENT_KEYS : list string := ["id"; "title"; "when"; "chat_id"].

(* ================================================================= *)
(** * Properties *)

(** ** The calendar *)

Lemma is_leap_spec y :
  is_leap y = true <-> (y mod 4 = 0 /\ (y mod 100 <> 0 \/ y mod 400 = 0)).
Proof.
  unfold is_leap. rewrite andb_true_iff, orb_true_iff, negb_true_iff.
  rewrite !Z.eqb_eq, Z.eqb_neq. tauto.
Qed.

Lemma days_before_year_succ y :
  days_before_year (y + 1) = days_before_year y + (if is_leap y then 366 else 365).
Proof.
  unfold days_before_year.
  destruct (is_leap y) eqn:E.
  - apply is_leap_spec in E. 
    replace (y + 1 - 1) with y by lia.
    Z.div_mod_to_equations; lia.
  - assert (~ (y mod 4 = 0 /\ (y mod 100 <> 0 \/ y mod 400 = 0))).
    { rewrite <- is_leap_spec. congruence. }
    replace (y + 1 - 1) with y by lia.
    Z.div_mod_to_equations; lia.
Qed.

Lemma upto_In k n : 0 <= n < Z.of_nat k -> In n (upto k).
Proof.
  intros H. unfold upto. apply in_map_iff. exists (Z.to_nat n). split; [lia|].
  apply in_seq. lia.
Qed.

Lemma month_day_ok_all (leap : bool) n :
  0 <= n < (if leap then 366 else 365) -> month_day_ok leap n = true.
Proof.
  intros H.
  assert (A : forallb (month_day_ok true) (upto 366) = true) by (vm_compute; reflexivity).
  assert (B : forallb (month_day_ok false) (upto 365) = true) by (vm_compute; reflexivity).
  rewrite forallb_forall in A, B.
  destruct leap; [apply A | apply B]; apply upto_In; lia.
Qed.

Lemma ord2ymd_eq n :
  ord2ymd n =
  let n0 := n - 1 in
  let a := n0 / 146097 in let r400 := n0 mod 146097 in
  let b := r400 / 36524 in let r100 := r400 mod 36524 in
  let c := r100 / 1461 in let r4 := r100 mod 1461 in
  let d := r4 / 365 in let r := r4 mod 365 in
  let year := a * 400 + 1 + b * 100 + c * 4 + d in
  if (d =? 4) || (b =? 4) then (year - 1, 12, 31)
  else let '(m, dd) := month_day r ((d =? 3) && (negb (c =? 24) || (b =? 3))) in
       (year, m, dd).
Proof.
  unfold ord2ymd, month_day, DI400Y, DI100Y, DI4Y. cbv zeta.
  destruct (_ || _); [reflexivity|].
  destruct (_ >? _); reflexivity.
Qed.

Lemma ord2ymd_spec n :
  let '(y, m, d) := ord2ymd n in
  1 <= m <= 12 /\ 1 <= d <= days_in_month y m /\ ymd2ord y m d = n.
Proof.
  rewrite ord2ymd_eq. cbv zeta.
  set (n0 := n - 1).
  pose proof (Z.div_mod n0 146097 ltac:(lia)) as E1.
  pose proof (Z.mod_pos_bound n0 146097 ltac:(lia)) as B1.
  set (a := n0 / 146097) in *. set (r400 := n0 mod 146097) in *.
  pose proof (Z.div_mod r400 36524 ltac:(lia)) as E2.
  pose proof (Z.mod_pos_bound r400 36524 ltac:(lia)) as B2.
  set (b := r400 / 36524) in *. set (r100 := r400 mod 36524) in *.
  pose proof (Z.div_mod r100 1461 ltac:(lia)) as E3.
  pose proof (Z.mod_pos_bound r100 1461 ltac:(lia)) as B3.
  set (c := r100 / 1461) in *. set (r4 := r100 mod 1461) in *.
  pose proof (Z.div_mod r4 365 ltac:(lia)) as E4.
  pose proof (Z.mod_pos_bound r4 365 ltac:(lia)) as B4.
  set (d := r4 / 365) in *. set (r := r4 mod 365) in *.
  assert (Hb : 0 <= b <= 4) by lia.
  assert (Hc : 0 <= c <= 24) by lia.
  assert (Hd : 0 <= d <= 4) by lia.
  clearbody a r400 b r100 c r4 d r.
  set (leap := (d =? 3) && (negb (c =? 24) || (b =? 3))).
  destruct ((d =? 4) || (b =? 4)) eqn:Eearly.
  - (* last day of a leap year *)
    set (y := a * 400 + 1 + b * 100 + c * 4 + d - 1).
    assert (Hl : is_leap y = true).
    { apply is_leap_spec. subst y. apply orb_true_iff in Eearly. 
      rewrite !Z.eqb_eq in Eearly.
      destruct Eearly as [-> | ->].
      - (Z.div_mod_to_equations; lia).
      - assert (c = 0 /\ d = 0) as [-> ->] by lia. (Z.div_mod_to_equations; lia). }
    unfold days_in_month, ymd2ord, days_before_month. rewrite Hl. cbn.
    split; [lia|]. split; [lia|].
    unfold days_before_year. subst y.
    apply orb_true_iff in Eearly. rewrite !Z.eqb_eq in Eearly.
    destruct Eearly as [-> | ->].
    + (Z.div_mod_to_equations; lia).
    + assert (c = 0 /\ d = 0) as [-> ->] by lia. (Z.div_mod_to_equations; lia).
  - apply orb_false_iff in Eearly. rewrite !Z.eqb_neq in Eearly.
    set (y := a * 400 + 1 + b * 100 + c * 4 + d).
    assert (Hl : is_leap y = leap).
    { subst leap y. unfold is_leap.
      assert (Hy4 : (a * 400 + 1 + b * 100 + c * 4 + d) mod 4 = (d + 1) mod 4).
      { (Z.div_mod_to_equations; lia). }
      assert (Hy100 : (a * 400 + 1 + b * 100 + c * 4 + d) mod 100 = (4 * c + d + 1) mod 100).
      { (Z.div_mod_to_equations; lia). }
      assert (Hy400 : (a * 400 + 1 + b * 100 + c * 4 + d) mod 400 = (100 * b + 4 * c + d + 1) mod 400).
      { (Z.div_mod_to_equations; lia). }
      rewrite Hy4, Hy100, Hy400.
      assert (d = 0 \/ d = 1 \/ d = 2 \/ d = 3) as Hd' by lia.
      destruct (d =? 3) eqn:Ed3.
      + apply Z.eqb_eq in Ed3. subst d. cbn [andb]. 
        change ((3 + 1) mod 4 =? 0) with true. cbn [andb].
        destruct (c =? 24) eqn:Ec.
        * apply Z.eqb_eq in Ec. subst c. cbn [negb orb].
          change ((4 * 24 + 3 + 1) mod 100 =? 0) with true. cbn [negb orb].
          destruct (b =? 3) eqn:Eb.
          -- apply Z.eqb_eq in Eb. subst b. reflexivity.
          -- apply Z.eqb_neq in Eb. apply Z.eqb_neq.
             assert (b = 0 \/ b = 1 \/ b = 2) as [-> | [-> | ->]] by lia; cbv; discriminate.
        * apply Z.eqb_neq in Ec. cbn [negb orb].
          replace ((4 * c + 3 + 1) mod 100 =? 0) with false; [reflexivity|].
          symmetry. apply Z.eqb_neq. rewrite Z.mod_small by lia. lia.
      + apply Z.eqb_neq in Ed3. cbn [andb].
        replace ((d + 1) mod 4 =? 0) with false; [reflexivity|].
        symmetry. apply Z.eqb_neq. rewrite Z.mod_small by lia. lia. }
    assert (Hr : 0 <= r < (if leap then 366 else 365)) by (destruct leap; lia).
    pose proof (month_day_ok_all leap r Hr) as Hok.
    unfold month_day_ok in Hok.
    destruct (month_day r leap) as [m dd].
    rewrite !andb_true_iff in Hok. 
    destruct Hok as [[[[H1 H2] H3] H4] H5].
    apply Z.leb_le in H1, H2, H3, H4. apply Z.eqb_eq in H5.
    unfold days_in_month, ymd2ord, days_before_month. rewrite Hl.
    split; [lia|]. split; [lia|].
    assert (Hy : days_before_year y = 146097 * a + 36524 * b + 1461 * c + 365 * d).
    { unfold days_before_year. subst y.
      replace (a * 400 + 1 + b * 100 + c * 4 + d - 1)
        with (400 * a + 100 * b + 4 * c + d) by lia.
      (Z.div_mod_to_equations; lia). }
    subst n0. lia.
Qed.

Lemma ord2ymd_year_range n :
  1 <= n <= MAXORDINAL -> MINYEAR <= fst (fst (ord2ymd n)) <= MAXYEAR.
Proof.
  unfold MAXORDINAL, MINYEAR, MAXYEAR. intros Hn.
  rewrite ord2ymd_eq. cbv zeta.
  set (n0 := n - 1).
  pose proof (Z.div_mod n0 146097 ltac:(lia)) as E1.
  pose proof (Z.mod_pos_bound n0 146097 ltac:(lia)) as B1.
  set (a := n0 / 146097) in *. set (r400 := n0 mod 146097) in *.
  pose proof (Z.div_mod r400 36524 ltac:(lia)) as E2.
  pose proof (Z.mod_pos_bound r400 36524 ltac:(lia)) as B2.
  set (b := r400 / 36524) in *. set (r100 := r400 mod 36524) in *.
  pose proof (Z.div_mod r100 1461 ltac:(lia)) as E3.
  pose proof (Z.mod_pos_bound r100 1461 ltac:(lia)) as B3.
  set (c := r100 / 1461) in *. set (r4 := r100 mod 1461) in *.
  pose proof (Z.div_mod r4 365 ltac:(lia)) as E4.
  pose proof (Z.mod_pos_bound r4 365 ltac:(lia)) as B4.
  set (d := r4 / 365) in *. set (r := r4 mod 365) in *.
  clearbody a r400 b r100 c r4 d r.
  destruct ((d =? 4) || (b =? 4)) eqn:Eearly.
  - cbn [fst]. apply orb_true_iff in Eearly. rewrite !Z.eqb_eq in Eearly. lia.
  - apply orb_false_iff in Eearly. rewrite !Z.eqb_neq in Eearly.
    destruct (month_day _ _). cbn [fst]. lia.
Qed.


Lemma days_before_year_le y y' : y <= y' -> days_before_year y <= days_before_year y'.
Proof.
  intros H. replace y' with (y + (y' - y)) by lia.
  assert (Hk : 0 <= y' - y) by lia. revert Hk.
  generalize (y' - y) as k. clear.
  intros k Hk. pattern k. apply natlike_ind; [ | | exact Hk].
  - rewrite Z.add_0_r. lia.
  - intros x Hx IH. replace (y + Z.succ x) with (y + x + 1) by lia.
    rewrite days_before_year_succ. destruct (is_leap (y + x)); lia.
Qed.

Lemma month_cases m : 1 <= m <= 12 ->
  m = 1 \/ m = 2 \/ m = 3 \/ m = 4 \/ m = 5 \/ m = 6 \/
  m = 7 \/ m = 8 \/ m = 9 \/ m = 10 \/ m = 11 \/ m = 12.
Proof. lia. Qed.

Lemma day_of_year_bounds y m d :
  1 <= m <= 12 -> 1 <= d <= days_in_month y m ->
  1 <= days_before_month y m + d <= year_len y.
Proof.
  intros Hm. unfold days_before_month, days_in_month, year_len.
  destruct (is_leap y); intros Hd; each_month Hm; cbn -[Z.add] in *; lia.
Qed.

Lemma day_of_year_lt y m d m' d' :
  1 <= m <= 12 -> 1 <= d <= days_in_month y m ->
  1 <= m' <= 12 -> 1 <= d' <= days_in_month y m' ->
  m < m' ->
  days_before_month y m + d < days_before_month y m' + d'.
Proof.
  intros Hm Hd Hm' Hd' Hlt. revert Hd Hd'. unfold days_before_month, days_in_month.
  destruct (is_leap y); intros Hd Hd'; each_month Hm; each_month Hm'; try lia; cbn -[Z.add] in *; lia.
Qed.

Lemma ymd2ord_year_lt y m d y' m' d' :
  1 <= m <= 12 -> 1 <= d <= days_in_month y m ->
  1 <= m' <= 12 -> 1 <= d' <= days_in_month y' m' ->
  y < y' -> ymd2ord y m d < ymd2ord y' m' d'.
Proof.
  intros Hm Hd Hm' Hd' Hlt. unfold ymd2ord.
  pose proof (day_of_year_bounds y m d Hm Hd).
  pose proof (day_of_year_bounds y' m' d' Hm' Hd').
  pose proof (days_before_year_succ y).
  pose proof (days_before_year_le (y + 1) y' ltac:(lia)).
  unfold year_len in *. lia.
Qed.

Lemma check_date_fields_spec y m d :
  check_date_fields y m d = true <->
  (MINYEAR <= y <= MAXYEAR /\ 1 <= m <= 12 /\ 1 <= d <= days_in_month y m).
Proof.
  unfold check_date_fields. rewrite !andb_true_iff, !Z.leb_le. lia.
Qed.

Lemma check_time_fields_spec h m s us :
  check_time_fields h m s us = true <->
  (0 <= h <= 23 /\ 0 <= m <= 59 /\ 0 <= s <= 59 /\ 0 <= us <= 999999).
Proof.
  unfold check_time_fields. rewrite !andb_true_iff, !Z.leb_le. lia.
Qed.

Lemma ymd2ord_compare y m d y' m' d' :
  1 <= m <= 12 -> 1 <= d <= days_in_month y m ->
  1 <= m' <= 12 -> 1 <= d' <= days_in_month y' m' ->
  lex_compare [y; m; d] [y'; m'; d'] = (ymd2ord y m d ?= ymd2ord y' m' d').
Proof.
  intros Hm Hd Hm' Hd'. cbn [lex_compare]. symmetry.
  destruct (Z.compare_spec y y') as [-> | Hy | Hy].
  - destruct (Z.compare_spec m m') as [-> | Hmm | Hmm].
    + unfold ymd2ord. destruct (Z.compare_spec d d'); 
        [apply Z.compare_eq_iff | apply Z.compare_lt_iff | apply Z.compare_gt_iff]; lia.
    + apply Z.compare_lt_iff. unfold ymd2ord.
      pose proof (day_of_year_lt y' m d m' d' Hm Hd Hm' Hd' Hmm). lia.
    + apply Z.compare_gt_iff. unfold ymd2ord.
      pose proof (day_of_year_lt y' m' d' m d Hm' Hd' Hm Hd Hmm). lia.
  - apply Z.compare_lt_iff. now apply ymd2ord_year_lt.
  - apply Z.compare_gt_iff. now apply ymd2ord_year_lt.
Qed.

Lemma ymd2ord_range y m d :
  check_date_fields y m d = true -> 1 <= ymd2ord y m d <= MAXORDINAL.
Proof.
  rewrite check_date_fields_spec. intros (Hy & Hm & Hd).
  unfold MINYEAR, MAXYEAR in Hy.
  pose proof (day_of_year_bounds y m d Hm Hd) as B.
  pose proof (days_before_year_le 1 y ltac:(lia)) as L.
  pose proof (days_before_year_le (y + 1) 10000 ltac:(lia)) as U.
  rewrite days_before_year_succ in U. unfold year_len in B.
  change (days_before_year 1) with 0 in L.
  change (days_before_year 10000) with 3652059 in U.
  unfold ymd2ord, MAXORDINAL. lia.
Qed.

Lemma valid_spec dt :
  valid dt = true <->
  (MINYEAR <= year dt <= MAXYEAR /\ 1 <= month dt <= 12
   /\ 1 <= day dt <= days_in_month (year dt) (month dt)
   /\ 0 <= hour dt <= 23 /\ 0 <= minute dt <= 59
   /\ 0 <= second dt <= 59 /\ 0 <= microsecond dt <= 999999).
Proof.
  unfold valid. rewrite andb_true_iff, check_date_fields_spec, check_time_fields_spec.
  tauto.
Qed.

Lemma compare_to_delta a b :
  valid a = true -> valid b = true ->
  compare a b = (to_delta a ?= to_delta b).
Proof.
  intros Ha Hb. apply valid_spec in Ha, Hb.
  destruct Ha as (_ & Hm & Hd & Hh & Hmi & Hs & Hus).
  destruct Hb as (_ & Hm' & Hd' & Hh' & Hmi' & Hs' & Hus').
  pose proof (ymd2ord_compare _ _ _ _ _ _ Hm Hd Hm' Hd') as E.
  unfold compare, fields, to_delta, toordinal, US_PER_SECOND.
  cbn [lex_compare] in *.
  set (o := ymd2ord (year a) (month a) (day a)) in *.
  set (o' := ymd2ord (year b) (month b) (day b)) in *.
  clearbody o o'.
  assert (E' : match o ?= o' with
               | Eq => lex_compare [hour a; minute a; second a; microsecond a]
                                   [hour b; minute b; second b; microsecond b]
               | c => c end
               = ((o * 86400 + (hour a * 3600 + minute a * 60 + second a)) * 1000000 + microsecond a
                  ?= (o' * 86400 + (hour b * 3600 + minute b * 60 + second b)) * 1000000 + microsecond b)).
  { symmetry. cbn [lex_compare].
    destruct (Z.compare_spec o o');
    [ destruct (Z.compare_spec (hour a) (hour b));
      [ destruct (Z.compare_spec (minute a) (minute b));
        [ destruct (Z.compare_spec (second a) (second b));
          [ destruct (Z.compare_spec (microsecond a) (microsecond b)) | .. ] | .. ] | .. ] | .. ];
    first [apply Z.compare_eq_iff; lia | apply Z.compare_lt_iff; lia | apply Z.compare_gt_iff; lia]. }
  rewrite <- E'. rewrite <- E.
  destruct (year a ?= year b); [ | reflexivity | reflexivity].
  destruct (month a ?= month b); [ | reflexivity | reflexivity].
  destruct (day a ?= day b); reflexivity.
Qed.

(** ** Datetime arithmetic and text *)

Lemma add_spec dt td dt' :
  add dt td = Ok dt' ->
  valid dt' = true /\ to_delta dt' = to_delta dt + td.
Proof.
  unfold add. set (delta := to_delta dt + td). clearbody delta.
  unfold US_PER_DAY, US_PER_SECOND.
  set (days := delta / (86400 * 1000000)).
  set (rest := delta mod (86400 * 1000000)).
  pose proof (Z.div_mod delta (86400 * 1000000) ltac:(lia)) as E1.
  pose proof (Z.mod_pos_bound delta (86400 * 1000000) ltac:(lia)) as B1.
  fold days in E1. fold rest in E1, B1.
  set (seconds := rest / 1000000). set (us := rest mod 1000000).
  pose proof (Z.div_mod rest 1000000 ltac:(lia)) as E2.
  pose proof (Z.mod_pos_bound rest 1000000 ltac:(lia)) as B2.
  fold seconds in E2. fold us in E2, B2.
  set (h := seconds / 3600). set (rem := seconds mod 3600).
  pose proof (Z.div_mod seconds 3600 ltac:(lia)) as E3.
  pose proof (Z.mod_pos_bound seconds 3600 ltac:(lia)) as B3.
  fold h in E3. fold rem in E3, B3.
  set (mi := rem / 60). set (s := rem mod 60).
  pose proof (Z.div_mod rem 60 ltac:(lia)) as E4.
  pose proof (Z.mod_pos_bound rem 60 ltac:(lia)) as B4.
  fold mi in E4. fold s in E4, B4.
  clearbody days rest seconds us h rem mi s.
  destruct ((0 <? days) && (days <=? MAXORDINAL)) eqn:R; [ | discriminate].
  apply andb_true_iff in R. destruct R as [R1 R2].
  apply Z.ltb_lt in R1. apply Z.leb_le in R2.
  pose proof (ord2ymd_spec days) as S.
  pose proof (ord2ymd_year_range days ltac:(lia)) as Y.
  destruct (ord2ymd days) as [[y m] d]. cbn [fst] in Y.
  destruct S as (Sm & Sd & So).
  intros [= <-]. split.
  - apply valid_spec. cbn. lia.
  - unfold to_delta, toordinal, US_PER_SECOND. cbn. rewrite So. lia.
Qed.

Lemma add_ok dt td :
  US_PER_DAY <= to_delta dt + td < (MAXORDINAL + 1) * US_PER_DAY ->
  exists dt', add dt td = Ok dt'.
Proof.
  intros H. unfold add. 
  set (delta := to_delta dt + td) in *. clearbody delta.
  assert (R : (0 <? delta / US_PER_DAY) && (delta / US_PER_DAY <=? MAXORDINAL) = true).
  { apply andb_true_iff. rewrite Z.ltb_lt, Z.leb_le.
    unfold US_PER_DAY, US_PER_SECOND, MAXORDINAL in *.
    Z.div_mod_to_equations. lia. }
  cbv zeta. rewrite R. destruct (ord2ymd _) as [[y m] d]. eauto.
Qed.

Lemma add_overflow dt td :
  ~ (US_PER_DAY <= to_delta dt + td < (MAXORDINAL + 1) * US_PER_DAY) ->
  add dt td = Raise OverflowError.
Proof.
  intros H. unfold add. 
  set (delta := to_delta dt + td) in *. clearbody delta.
  assert (R : (0 <? delta / US_PER_DAY) && (delta / US_PER_DAY <=? MAXORDINAL) = false).
  { apply andb_false_iff. rewrite Z.ltb_ge, Z.leb_gt.
    unfold US_PER_DAY, US_PER_SECOND, MAXORDINAL in *.
    Z.div_mod_to_equations. lia. }
  cbv zeta. rewrite R. reflexivity.
Qed.

(** Why the statements below keep the clock out of year 1: ten hours
    before 05:00 on 1 January of year 1 there is no [datetime]. *)
Example sub_before_year_one :
  Datetime.sub (mkDatetime 1 1 1 5 0 0 0) (mk_timedelta 0 10 0 0)
  = Raise OverflowError.
Proof. apply add_overflow. vm_compute. intros [H _]. now apply H. Qed.

Lemma digit_val_char d : 0 <= d <= 9 -> digit_val (digit_char d) = Some d.
Proof.
  intros H.
  assert (d = 0 \/ d = 1 \/ d = 2 \/ d = 3 \/ d = 4 \/ d = 5 \/ d = 6 \/ d = 7 \/ d = 8 \/ d = 9) by lia.
  repeat (destruct H0 as [-> | H0]; [reflexivity | ]). subst. reflexivity.
Qed.

Lemma digit_mod z : 0 <= z mod 10 <= 9.
Proof. pose proof (Z.mod_pos_bound z 10). lia. Qed.

Lemma parse_fixed_2 z :
  0 <= z <= 99 ->
  parse_fixed 2 (fmt_digits 2 z "") = Some z.
Proof.
  intros H. unfold parse_fixed. cbn [fmt_digits String.length Nat.eqb parse_digits].
  rewrite !digit_val_char by apply digit_mod. f_equal.
  Z.div_mod_to_equations; lia.
Qed.

Lemma parse_fixed_4 z :
  0 <= z <= 9999 ->
  parse_fixed 4 (fmt_digits 4 z "") = Some z.
Proof.
  intros H. unfold parse_fixed. cbn [fmt_digits String.length Nat.eqb parse_digits].
  rewrite !digit_val_char by apply digit_mod. f_equal.
  Z.div_mod_to_equations; lia.
Qed.

Lemma parse_digits_6 z :
  0 <= z <= 999999 ->
  parse_digits (fmt_digits 6 z "") 0 = Some z.
Proof.
  intros H. cbn [fmt_digits parse_digits].
  rewrite !digit_val_char by apply digit_mod. f_equal.
  Z.div_mod_to_equations; lia.
Qed.

Lemma parse_isoformat_date_fmt y m d :
  0 <= y <= 9999 -> 0 <= m <= 99 -> 0 <= d <= 99 ->
  parse_isoformat_date
    (fmt_digits 4 y "" ++ "-" ++ fmt_digits 2 m "" ++ "-" ++ fmt_digits 2 d "")
  = Ok (y, m, d).
Proof.
  intros Hy Hm Hd. unfold parse_isoformat_date.
  pose proof (parse_fixed_4 y Hy) as Py.
  pose proof (parse_fixed_2 m Hm) as Pm.
  pose proof (parse_fixed_2 d Hd) as Pd.
  cbn [fmt_digits String.append substring] in *.
  rewrite Py, Pm, Pd. reflexivity.
Qed.

Lemma parse_hh_mm_ss_ff_fmt h mi s us :
  0 <= h <= 99 -> 0 <= mi <= 99 -> 0 <= s <= 99 -> 0 <= us <= 999999 ->
  parse_hh_mm_ss_ff
    (fmt_digits 2 h "" ++ ":" ++ fmt_digits 2 mi "" ++ ":" ++ fmt_digits 2 s ""
     ++ (if us =? 0 then "" else "." ++ fmt_digits 6 us ""))
  = Ok (h, mi, s, us).
Proof.
  intros Hh Hmi Hs Hus. unfold parse_hh_mm_ss_ff.
  pose proof (parse_fixed_2 h Hh) as Ph.
  pose proof (parse_fixed_2 mi Hmi) as Pmi.
  pose proof (parse_fixed_2 s Hs) as Ps.
  pose proof (parse_digits_6 us Hus) as Pus.
  destruct (us =? 0) eqn:E.
  - apply Z.eqb_eq in E. subst us.
    cbn [fmt_digits String.append substring String.length Nat.sub] in *.
    rewrite Ph, Pmi, Ps. reflexivity.
  - cbn [fmt_digits String.append substring String.length Nat.sub] in *.
    rewrite Ph, Pmi, Ps. cbn [of_option rbind String.eqb Ascii.eqb Bool.eqb negb].
    unfold parse_fraction. cbn [String.length Nat.eqb]. rewrite Pus. reflexivity.
Qed.

Lemma isoformat_roundtrip dt :
  valid dt = true -> fromisoformat (isoformat dt) = Ok dt.
Proof.
  intros V. pose proof V as V'. apply valid_spec in V'.
  destruct V' as (Hy & Hm & Hd & Hh & Hmi & Hs & Hus).
  unfold MINYEAR, MAXYEAR in Hy.
  assert (Hd' : 1 <= day dt <= 31).
  { split; [lia|]. unfold days_in_month in Hd.
    destruct (_ && _); [lia|]. apply month_cases in Hm.
    repeat (destruct Hm as [Hm | Hm]; [rewrite Hm in Hd; cbn in Hd; lia | ]).
    rewrite Hm in Hd; cbn in Hd; lia. }
  pose proof (parse_isoformat_date_fmt (year dt) (month dt) (day dt)
                ltac:(lia) ltac:(lia) ltac:(lia)) as PD.
  pose proof (parse_hh_mm_ss_ff_fmt (hour dt) (minute dt) (second dt) (microsecond dt)
                ltac:(lia) ltac:(lia) ltac:(lia) ltac:(lia)) as PT.
  unfold fromisoformat, isoformat.
  destruct (microsecond dt =? 0) eqn:Eus;
    cbn [fmt_digits String.append] in PD, PT |- *;
    cbn [substring String.length Nat.sub];
    rewrite PD; cbn [rbind]; rewrite PT; cbn [rbind];
    unfold datetime_new; destruct dt; cbn in V |- *; rewrite V; reflexivity.
Qed.

(** ** Integers as text *)

Lemma is_digit_char d : 0 <= d <= 9 -> is_digit (digit_char d) = true.
Proof. intros H. unfold is_digit. now rewrite digit_val_char. Qed.

Lemma is_digit_facts c :
  is_digit c = true ->
  is_space c = false /\ Ascii.eqb c "-" = false /\ Ascii.eqb c "+" = false
  /\ Ascii.eqb c "_" = false.
Proof.
  destruct c as [[] [] [] [] [] [] [] []]; vm_compute; intros H;
    try discriminate H; repeat split.
Qed.

Lemma string_forall_app P a b :
  string_forall P (a ++ b) = string_forall P a && string_forall P b.
Proof.
  induction a as [|c a IH]; cbn; [reflexivity|]. now rewrite IH, andb_assoc.
Qed.

Lemma digits_of_digit_string fuel : forall n acc,
  digit_string acc = true -> digit_string (digits_of fuel n acc) = true.
Proof.
  induction fuel as [|f IH]; intros n acc Hacc; cbn [digits_of]; [exact Hacc|].
  assert (Hacc' : digit_string (String (digit_char (n mod 10)) acc) = true).
  { unfold digit_string in *. cbn. rewrite Hacc, is_digit_char; [reflexivity|apply digit_mod]. }
  destruct (n <? 10); [exact Hacc' | now apply IH].
Qed.

Lemma digits_of_nonempty fuel n acc : digits_of (S fuel) n acc <> "".
Proof.
  revert n acc. induction fuel as [|f IH]; intros n acc; cbn [digits_of].
  - destruct (n <? 10); discriminate.
  - destruct (n <? 10); [discriminate|]. apply IH.
Qed.

Lemma digits_of_parse fuel : forall n acc,
  0 <= n < 10 ^ Z.of_nat (S fuel) ->
  exists k, forall prev a,
    parse_literal (digits_of (S fuel) n acc) prev a
    = parse_literal acc true (a * 10 ^ k + n) /\ 0 <= k.
Proof.
  induction fuel as [|f IH]; intros n acc Hn.
  - exists 1. intros prev a. split; [|lia].
    change (10 ^ Z.of_nat 1) with 10 in Hn.
    cbn [digits_of]. replace (n <? 10) with true by (symmetry; apply Z.ltb_lt; lia).
    cbn [parse_literal]. rewrite Z.mod_small by lia.
    rewrite digit_val_char by lia. f_equal; lia.
  - remember (S f) as f1 eqn:Ef1. cbn [digits_of]. destruct (n <? 10) eqn:E.
    + apply Z.ltb_lt in E. exists 1. intros prev a. split; [|lia].
      cbn [parse_literal]. rewrite Z.mod_small by lia.
      rewrite digit_val_char by lia. f_equal; lia.
    + apply Z.ltb_ge in E.
      assert (Hq : 0 <= n / 10 < 10 ^ Z.of_nat f1).
      { rewrite Nat2Z.inj_succ, Z.pow_succ_r in Hn by lia.
        split; [apply Z.div_pos; lia|]. apply Z.div_lt_upper_bound; lia. }
      subst f1.
      destruct (IH (n / 10) (String (digit_char (n mod 10)) acc) Hq) as [k Hk].
      exists (k + 1). intros prev a. destruct (Hk prev a) as [Hk1 Hk2].
      split; [|lia]. rewrite Hk1. cbn [parse_literal].
      rewrite digit_val_char by apply digit_mod. f_equal; [ ].
      rewrite Z.pow_add_r by lia.
      pose proof (Z.div_mod n 10 ltac:(lia)). lia.
Qed.

Lemma log2_fuel a : 0 <= a -> a < 10 ^ Z.of_nat (S (Z.to_nat (Z.log2 a))).
Proof.
  intros Ha. rewrite Nat2Z.inj_succ, Z2Nat.id by apply Z.log2_nonneg.
  destruct (Z.eq_dec a 0) as [-> | Hne]; [cbn; lia|].
  pose proof (Z.log2_spec a ltac:(lia)) as [_ Hu].
  eapply Z.lt_le_trans; [exact Hu|].
  apply Z.pow_le_mono_l. pose proof (Z.log2_nonneg a). lia.
Qed.

Lemma lstrip_head c s : is_space c = false -> lstrip (String c s) = String c s.
Proof. intros H. cbn. now rewrite H. Qed.

Lemma rstrip_no_space s :
  string_forall (fun c => negb (is_space c)) s = true -> rstrip s = s.
Proof.
  induction s as [|c s IH]; cbn; [reflexivity|].
  intros H. apply andb_true_iff in H. destruct H as [Hc Hs].
  rewrite (IH Hs). destruct s; [|reflexivity].
  apply negb_true_iff in Hc. now rewrite Hc.
Qed.

Lemma string_forall_impl (P Q : ascii -> bool) s :
  (forall c, P c = true -> Q c = true) ->
  string_forall P s = true -> string_forall Q s = true.
Proof.
  intros HPQ. induction s as [|c s IH]; cbn; [reflexivity|].
  rewrite !andb_true_iff. intros [H1 H2]. auto.
Qed.

Lemma strip_digit_string c s :
  is_space c = false ->
  string_forall (fun c => negb (is_space c)) s = true ->
  strip (String c s) = String c s.
Proof.
  intros Hc Hs. unfold strip. rewrite lstrip_head by exact Hc.
  apply rstrip_no_space. cbn. now rewrite Hc, Hs.
Qed.

Lemma digit_string_no_space s :
  digit_string s = true -> string_forall (fun c => negb (is_space c)) s = true.
Proof.
  apply string_forall_impl. intros c Hc.
  apply is_digit_facts in Hc. destruct Hc as [-> _]. reflexivity.
Qed.

Lemma int_of_str_digits c s v :
  digit_string (String c s) = true ->
  parse_literal (String c s) false 0 = Some v ->
  int_of_str (String c s) = Some v
  /\ int_of_str (String "-" (String c s)) = Some (- v).
Proof.
  intros Hd Hp. pose proof Hd as Hd'. unfold digit_string in Hd'. cbn in Hd'.
  apply andb_true_iff in Hd'. destruct Hd' as [Hc Hs].
  pose proof (is_digit_facts c Hc) as (Fs & Fm & Fp & _).
  pose proof (digit_string_no_space _ Hd) as Hns.
  split.
  - unfold int_of_str. rewrite strip_digit_string; [ | exact Fs | ].
    + now rewrite Fm, Fp.
    + cbn in Hns. apply andb_true_iff in Hns. tauto.
  - unfold int_of_str. rewrite strip_digit_string; [ | reflexivity | exact Hns].
    cbn [Ascii.eqb Bool.eqb andb]. cbn. cbn in Hp. rewrite Hp. reflexivity.
Qed.

Lemma int_of_str_of_int z : int_of_str (str_of_int z) = Some z.
Proof.
  unfold str_of_int.
  set (a := Z.abs z). set (f := Z.to_nat (Z.log2 a)).
  pose proof (log2_fuel a ltac:(lia)) as Hf. fold f in Hf.
  destruct (digits_of_parse f a "" ltac:(lia)) as [k Hk].
  destruct (Hk false 0) as [Hp _]. cbn [parse_literal] in Hp.
  replace (0 * 10 ^ k + a) with a in Hp by lia.
  pose proof (digits_of_digit_string (S f) a "" eq_refl) as Hd.
  pose proof (digits_of_nonempty f a "") as Hne.
  destruct (digits_of (S f) a "") as [|c s] eqn:E; [congruence|].
  destruct (int_of_str_digits c s a Hd Hp) as [H1 H2].
  destruct (z <? 0) eqn:Ez.
  - apply Z.ltb_lt in Ez. rewrite H2. f_equal. lia.
  - apply Z.ltb_ge in Ez. rewrite H1. f_equal. lia.
Qed.

Lemma str_of_int_inj a b : str_of_int a = str_of_int b -> a = b.
Proof.
  intros H. pose proof (int_of_str_of_int a) as Ha.
  rewrite H, int_of_str_of_int in Ha. congruence.
Qed.

(** ** Job names determine the owner, the event and the offset *)

Lemma append_inv_head p : forall a b, (p ++ a = p ++ b)%string -> a = b.
Proof.
  induction p as [|c p IH]; cbn; intros a b H; [exact H|].
  injection H as H. now apply IH.
Qed.

Lemma str_of_int_shape z :
  exists D, digit_string D = true /\ D <> ""
            /\ str_of_int z = if z <? 0 then String "-" D else D.
Proof.
  unfold str_of_int. set (a := Z.abs z). set (f := Z.to_nat (Z.log2 a)).
  exists (digits_of (S f) a ""). split; [|split].
  - now apply digits_of_digit_string.
  - apply digits_of_nonempty.
  - reflexivity.
Qed.

Lemma digit_dash_split D : forall D' x x',
  digit_string D = true -> digit_string D' = true ->
  (D ++ String "-" x = D' ++ String "-" x')%string -> D = D' /\ x = x'.
Proof.
  induction D as [|c D IH]; intros [|c' D'] x x' HD HD' H; cbn in H.
  - injection H as ->. auto.
  - injection H as Hc _. subst c'. discriminate HD'.
  - injection H as Hc _. subst c. discriminate HD.
  - injection H as -> H.
    unfold digit_string in HD, HD'. cbn in HD, HD'.
    apply andb_true_iff in HD, HD'.
    destruct (IH D' x x') as [-> ->]; tauto.
Qed.

Lemma int_prefix_inj u u' x x' :
  (str_of_int u ++ String "-" x = str_of_int u' ++ String "-" x')%string ->
  u = u' /\ x = x'.
Proof.
  intros H.
  destruct (str_of_int_shape u) as (D & HD & Hne & E).
  destruct (str_of_int_shape u') as (D' & HD' & Hne' & E').
  assert (S : str_of_int u = str_of_int u' /\ x = x').
  { rewrite E, E' in H |- *.
    destruct (u <? 0), (u' <? 0); cbn in H.
    - injection H as H. destruct (digit_dash_split D D' x x' HD HD' H) as [-> ->]. auto.
    - destruct D' as [|c' D']; [congruence|]. cbn in H. injection H as Hc _.
      subst c'. discriminate HD'.
    - destruct D as [|c D]; [congruence|]. cbn in H. injection H as Hc _.
      subst c. discriminate HD.
    - destruct (digit_dash_split D D' x x' HD HD' H) as [-> ->]. auto. }
  destruct S as [S ->]. split; [now apply str_of_int_inj | reflexivity].
Qed.

Lemma digit_string_dash a s : digit_string (a ++ String "-" s) = false.
Proof.
  unfold digit_string. rewrite string_forall_app. cbn.
  apply andb_false_r.
Qed.

Lemma dash_suffix_split a : forall a' s s',
  digit_string s = true -> digit_string s' = true ->
  (a ++ String "-" s = a' ++ String "-" s')%string -> a = a' /\ s = s'.
Proof.
  induction a as [|c a IH]; intros [|c' a'] s s' Hs Hs' H; cbn in H.
  - injection H as ->. auto.
  - injection H as _ H. subst s. rewrite digit_string_dash in Hs. discriminate.
  - injection H as _ H. subst s'. rewrite digit_string_dash in Hs'. discriminate.
  - injection H as -> H. destruct (IH a' s s' Hs Hs' H) as [-> ->]. auto.
Qed.

Lemma str_of_int_nonneg_digits z : 0 <= z -> digit_string (str_of_int z) = true.
Proof.
  intros Hz. destruct (str_of_int_shape z) as (D & HD & _ & E).
  rewrite E. replace (z <? 0) with false by (symmetry; apply Z.ltb_ge; lia).
  exact HD.
Qed.

Lemma daily_job_name_inj u e u' e' :
  daily_job_name u e = daily_job_name u' e' -> u = u' /\ id e = id e'.
Proof.
  unfold daily_job_name. intros H.
  apply (append_inv_head "daily-") in H.
  now apply int_prefix_inj in H.
Qed.

Lemma reminder_job_name_inj u e off u' e' off' :
  0 <= off -> 0 <= off' ->
  reminder_job_name u e off = reminder_job_name u' e' off' ->
  u = u' /\ id e = id e'
  /\ td_total_seconds_int off = td_total_seconds_int off'.
Proof.
  unfold reminder_job_name. intros Ho Ho' H.
  apply (append_inv_head "reminder-") in H.
  apply int_prefix_inj in H. destruct H as [-> H].
  assert (N : forall o, 0 <= o -> 0 <= td_total_seconds_int o).
  { intros o Hpos. unfold td_total_seconds_int, US_PER_SECOND.
    apply Z.quot_pos; lia. }
  apply dash_suffix_split in H; try (apply str_of_int_nonneg_digits; auto).
  destruct H as [-> H]. apply str_of_int_inj in H. auto.
Qed.

Lemma daily_reminder_name_neq u e u' e' off :
  daily_job_name u e <> reminder_job_name u' e' off.
Proof. unfold daily_job_name, reminder_job_name. cbn. discriminate. Qed.

(** ** Serialisation, files and the store *)

Lemma datetime_new_valid y m d h mi s us dt :
  datetime_new y m d h mi s us = Ok dt -> valid dt = true.
Proof.
  unfold datetime_new. destruct (valid _) eqn:V; [|discriminate].
  now intros [= <-].
Qed.

Lemma fromisoformat_valid s dt : fromisoformat s = Ok dt -> valid dt = true.
Proof.
  unfold fromisoformat.
  destruct (parse_isoformat_date _) as [[[y m] d]|]; cbn [rbind]; [|discriminate].
  destruct (match substring 11 _ s with EmptyString => _ | _ => _ end)
    as [[[[h mi] sec] us]|]; cbn [rbind]; [|discriminate].
  apply datetime_new_valid.
Qed.

Lemma from_dict_valid raw e : from_dict raw = Ok e -> valid (when e) = true.
Proof.
  unfold from_dict. destruct raw as [ | | | | |members]; try discriminate.
  destruct (subscript members "id") as [r_id|]; cbn [rbind]; [|discriminate].
  destruct (subscript members "title") as [r_title|]; cbn [rbind]; [|discriminate].
  destruct (subscript members "when") as [r_when|]; cbn [rbind]; [|discriminate].
  destruct r_when as [ | | |s| | ]; cbn [rbind]; try discriminate.
  destruct (fromisoformat s) as [w|] eqn:F; cbn [rbind]; [|discriminate].
  destruct (subscript members "chat_id") as [r_chat|]; cbn [rbind]; [|discriminate].
  destruct r_id; try discriminate. destruct r_title; try discriminate.
  destruct r_chat; try discriminate.
  intros [= <-]. cbn. now apply fromisoformat_valid in F.
Qed.

Lemma from_dict_to_dict_ok e :
  valid (when e) = true -> from_dict (to_dict e) = Ok e.
Proof.
  intros V. unfold from_dict, to_dict, subscript.
  cbn -[isoformat fromisoformat]. rewrite (isoformat_roundtrip _ V). cbn [rbind]. destruct e; reflexivity.
Qed.

Lemma rmap_ok_Forall {A B} (f : A -> result B) (P : B -> Prop) xs ys :
  (forall x y, f x = Ok y -> P y) -> rmap f xs = Ok ys -> Forall P ys.
Proof.
  intros Hf. revert ys. induction xs as [|x xs IH]; cbn; intros ys H.
  - injection H as <-. constructor.
  - destruct (f x) as [y|] eqn:E; cbn in H; [|discriminate].
    destruct (rmap f xs) as [ys'|]; cbn in H; [|discriminate].
    injection H as <-. constructor; eauto.
Qed.

Lemma rmap_map_id {A B} (g : A -> B) (f : B -> result A) xs :
  Forall (fun x => f (g x) = Ok x) xs -> rmap f (map g xs) = Ok xs.
Proof.
  induction 1 as [|x xs Hx _ IH]; cbn; [reflexivity|].
  now rewrite Hx, IH.
Qed.

Lemma decode_items_valid items evs :
  decode_items items = Ok evs -> Forall (fun e => valid (when e) = true) evs.
Proof.
  destruct items as [ | | |s|l|m]; cbn; try discriminate.
  - destruct s; [|discriminate]. intros [= <-]. constructor.
  - apply rmap_ok_Forall. apply from_dict_valid.
  - destruct m; [|discriminate]. intros [= <-]. constructor.
Qed.

Lemma decode_valid raw data : decode raw = Ok data -> all_valid data.
Proof.
  destruct raw as [ | | | | |members]; cbn; try discriminate.
  apply rmap_ok_Forall. intros [k items] [k' evs]. cbn.
  destruct (decode_items items) as [evs'|] eqn:E; cbn; [|discriminate].
  intros [= <- <-]. now apply decode_items_valid in E.
Qed.

Lemma decode_encode data : all_valid data -> decode (encode data) = Ok data.
Proof.
  intros V. unfold decode, encode. apply rmap_map_id.
  eapply Forall_impl; [|exact V]. intros [k evs] Hevs. cbn in *.
  rewrite rmap_map_id; [reflexivity|].
  eapply Forall_impl; [|exact Hevs]. intros e. apply from_dict_to_dict_ok.
Qed.

Lemma path_eqb_refl p : FS.path_eqb p p = true.
Proof. unfold FS.path_eqb. now rewrite !String.eqb_refl. Qed.

Lemma path_eqb_eq p q : FS.path_eqb p q = true -> p = q.
Proof.
  unfold FS.path_eqb. rewrite !andb_true_iff, !String.eqb_eq.
  destruct p, q; cbn. intros [[-> ->] ->]. reflexivity.
Qed.

Lemma lookup_store_same p c fl : FS.lookup p (FS.store p c fl) = Some c.
Proof.
  induction fl as [|[q c'] fl IH]; cbn.
  - now rewrite path_eqb_refl.
  - destruct (FS.path_eqb p q) eqn:E; cbn; now rewrite E.
Qed.

Lemma lookup_store_other p q c fl :
  FS.path_eqb p q = false -> FS.lookup p (FS.store q c fl) = FS.lookup p fl.
Proof.
  intros N. induction fl as [|[r c'] fl IH]; cbn.
  - now rewrite N.
  - destruct (FS.path_eqb q r) eqn:E; cbn.
    + apply path_eqb_eq in E. subst r. now rewrite N.
    + now rewrite IH.
Qed.

Lemma tmp_path_differs path :
  FS.suffix path <> ".tmp" ->
  FS.path_eqb path (FS.with_suffix path ".tmp") = false.
Proof.
  intros H. unfold FS.path_eqb, FS.with_suffix. cbn.
  apply String.eqb_neq in H. rewrite H. apply andb_false_r.
Qed.

Lemma _read_eq path w : _read path w = (read_disk path (disk w), w).
Proof.
  unfold _read, read_disk. destruct (FS.lookup _ _) as [[|]|]; reflexivity.
Qed.

Lemma read_disk_after_write path data d :
  read_disk path (FS.run (write_ops path data) d) = decode (encode data).
Proof.
  unfold write_ops, FS.run, read_disk. cbn [fold_left FS.exec FS.files FS.dirs].
  rewrite lookup_store_same. cbn [FS.files]. rewrite lookup_store_same. reflexivity.
Qed.

Lemma read_disk_crash path data d k :
  FS.suffix path <> ".tmp" -> (k < 4)%nat ->
  read_disk path (FS.run (firstn k (write_ops path data)) d) = read_disk path d.
Proof.
  intros Hs Hk. pose proof (tmp_path_differs path Hs) as N.
  unfold write_ops, FS.run, read_disk.
  destruct k as [|[|[|[|k]]]]; [ | | | | lia];
    cbn [firstn fold_left FS.exec FS.files FS.dirs];
    rewrite ?lookup_store_other by exact N; reflexivity.
Qed.

(** ** Dictionaries and sorting *)

Lemma dict_get_set_same {V} k (v : V) d : Dict.get k (Dict.set k v d) = Some v.
Proof.
  induction d as [|[k' v'] d IH]; cbn.
  - now rewrite String.eqb_refl.
  - destruct (String.eqb k k') eqn:E; cbn; now rewrite E.
Qed.

Lemma dict_get_set_other {V} k k' (v : V) d :
  k' <> k -> Dict.get k' (Dict.set k v d) = Dict.get k' d.
Proof.
  intros N. induction d as [|[k0 v0] d IH]; cbn.
  - apply String.eqb_neq in N. now rewrite N.
  - destruct (String.eqb k k0) eqn:E; cbn.
    + apply String.eqb_eq in E. subst k0.
      apply String.eqb_neq in N. now rewrite N.
    + now rewrite IH.
Qed.

Lemma dict_set_Forall {V} (P : string * V -> Prop) k v d :
  Forall P d -> (forall k', P (k', v)) -> Forall P (Dict.set k v d).
Proof.
  intros Hd Hv. induction Hd as [|[k0 v0] d H0 Hd IH]; cbn.
  - constructor; auto.
  - destruct (String.eqb k k0); constructor; auto.
Qed.

Lemma lex_compare_antisym xs : forall ys,
  lex_compare ys xs = CompOpp (lex_compare xs ys).
Proof.
  induction xs as [|x xs IH]; intros [|y ys]; cbn; try reflexivity.
  rewrite (Z.compare_antisym x y). destruct (x ?= y); cbn; auto.
Qed.

Lemma ltb_false_leb a b : Datetime.ltb a b = false -> Datetime.leb b a = true.
Proof.
  unfold Datetime.ltb, Datetime.leb, compare.
  rewrite (lex_compare_antisym (fields a) (fields b)).
  destruct (lex_compare (fields a) (fields b)); cbn; congruence.
Qed.

Lemma ltb_true_leb a b : Datetime.ltb a b = true -> Datetime.leb a b = true.
Proof.
  unfold Datetime.ltb, Datetime.leb.
  destruct (compare a b); congruence.
Qed.

Lemma insert_by_when_perm e l : Permutation (e :: l) (insert_by_when e l).
Proof.
  induction l as [|x l IH]; cbn; [reflexivity|].
  destruct (Datetime.ltb (when x) (when e)); [|reflexivity].
  rewrite perm_swap. now constructor.
Qed.

Lemma sort_by_when_perm l : Permutation l (sort_by_when l).
Proof.
  induction l as [|x l IH]; cbn; [constructor|].
  rewrite <- insert_by_when_perm. now constructor.
Qed.

Lemma insert_by_when_sorted e l :
  Sorted when_le l -> Sorted when_le (insert_by_when e l).
Proof.
  induction 1 as [|x l Hl IH Hx]; cbn.
  - repeat constructor.
  - destruct (Datetime.ltb (when x) (when e)) eqn:E.
    + constructor; [exact IH|].
      destruct l as [|y l]; cbn.
      * constructor. now apply ltb_true_leb.
      * destruct (Datetime.ltb (when y) (when e)).
        -- constructor. now inversion Hx.
        -- constructor. now apply ltb_true_leb.
    + constructor; [now constructor|]. constructor. now apply ltb_false_leb.
Qed.

Lemma sort_by_when_sorted l : Sorted when_le (sort_by_when l).
Proof.
  induction l as [|x l IH]; cbn; [constructor|].
  now apply insert_by_when_sorted.
Qed.

(** ** The job queue *)

Lemma world_eta w :
  mkWorld (disk w) (jobs w) (next_job w) (sent w) (replies w) (user_data w)
          (clock_reads w) (uuid_reads w) = w.
Proof. now destruct w. Qed.

Lemma filter_true {A} (f : A -> bool) l :
  (forall x, In x l -> f x = true) -> filter f l = l.
Proof.
  induction l as [|x l IH]; cbn; intros H; [reflexivity|].
  rewrite (H x) by now left. f_equal. apply IH. intros; apply H; now right.
Qed.

Lemma filter_filter {A} (f g : A -> bool) l :
  filter f (filter g l) = filter (fun x => g x && f x) l.
Proof.
  induction l as [|x l IH]; cbn; [reflexivity|].
  destruct (g x); cbn; [destruct (f x)|]; now rewrite IH.
Qed.

Lemma for_each_removal found : forall w,
  for_each found (fun j : nat * Job => schedule_removal (fst j)) w
  = (Ok tt,
     set_jobs (filter (fun j => negb (existsb (Nat.eqb (fst j)) (map fst found)))
                      (jobs w)) w).
Proof.
  induction found as [|j0 found IH]; intros w; cbn [for_each].
  - unfold ret. f_equal. cbn [map existsb negb].
    rewrite filter_true by reflexivity. unfold set_jobs. now rewrite world_eta.
  - unfold bind. unfold schedule_removal at 1. rewrite IH.
    f_equal. unfold set_jobs. cbn [jobs disk next_job sent replies user_data clock_reads uuid_reads].
    rewrite filter_filter. f_equal. apply filter_ext. intros j.
    cbn [map existsb]. rewrite negb_orb. reflexivity.
Qed.

Lemma NoDup_fst_inj {A B} (l : list (A * B)) x y :
  NoDup (map fst l) -> In x l -> In y l -> fst x = fst y -> x = y.
Proof.
  induction l as [|z l IH]; cbn; intros ND Hx Hy E; [contradiction|].
  inversion ND as [|? ? Hn ND']; subst.
  destruct Hx as [-> | Hx], Hy as [-> | Hy]; auto.
  - exfalso. apply Hn. rewrite E. now apply in_map.
  - exfalso. apply Hn. rewrite <- E. now apply in_map.
Qed.

Lemma remove_existing_jobs_spec name w :
  wf_jobs w ->
  remove_existing_jobs name w = (Ok tt, set_jobs (without [name] (jobs w)) w).
Proof.
  intros [ND _]. unfold remove_existing_jobs, bind, get_jobs_by_name.
  rewrite for_each_removal. f_equal. f_equal. unfold without.
  apply filter_ext_in. intros j Hj. f_equal. cbn [existsb]. rewrite orb_false_r.
  destruct (String.eqb (job_name (snd j)) name) eqn:E.
  - apply existsb_exists. exists (fst j). split; [|apply Nat.eqb_refl].
    apply in_map. apply filter_In. auto.
  - apply not_true_is_false. intros H. apply existsb_exists in H.
    destruct H as (i & Hi & Ei). apply Nat.eqb_eq in Ei. subst i.
    apply in_map_iff in Hi. destruct Hi as (j' & Ej & Hj').
    apply filter_In in Hj'. destruct Hj' as [Hj' Hn].
    assert (j' = j) by (eapply NoDup_fst_inj; eauto). subst j'. congruence.
Qed.

Lemma replace_job_spec j w :
  wf_jobs w ->
  (remove_existing_jobs (job_name j) ;; register j) w = (Ok tt, enqueue [j] w).
Proof.
  intros Hwf. unfold bind. rewrite remove_existing_jobs_spec by exact Hwf.
  reflexivity.
Qed.

Lemma without_app names q1 q2 :
  without names (q1 ++ q2) = without names q1 ++ without names q2.
Proof. apply filter_app. Qed.

Lemma without_without a b q : without b (without a q) = without (a ++ b) q.
Proof.
  unfold without. rewrite filter_filter. apply filter_ext. intros j.
  rewrite existsb_app, negb_orb. reflexivity.
Qed.

Lemma without_fresh names q :
  (forall j, In j q -> ~ In (job_name (snd j)) names) -> without names q = q.
Proof.
  intros H. unfold without. apply filter_true. intros j Hj.
  apply negb_true_iff. apply not_true_is_false. intros E.
  apply existsb_exists in E. destruct E as (n & Hn & En).
  apply String.eqb_eq in En. subst n. now apply (H j).
Qed.

Lemma without_all names q :
  (forall j, In j q -> In (job_name (snd j)) names) -> without names q = [].
Proof.
  intros H. unfold without. induction q as [|j q IH]; cbn; [reflexivity|].
  assert (E : existsb (String.eqb (job_name (snd j))) names = true).
  { apply existsb_exists. exists (job_name (snd j)). split.
    - apply H. now left.
    - apply String.eqb_refl. }
  rewrite E. cbn. apply IH. intros; apply H; now right.
Qed.

Lemma enqueue_nil w : enqueue [] w = w.
Proof.
  unfold enqueue. cbn [map List.length List.combine seq Nat.add].
  unfold without. cbn [existsb negb]. rewrite filter_true by reflexivity.
  rewrite app_nil_r. apply world_eta.
Qed.

Lemma enqueue_cons j js w :
  ~ In (job_name j) (map job_name js) ->
  enqueue js (enqueue [j] w) = enqueue (j :: js) w.
Proof.
  intros Hn. unfold enqueue.
  cbn [disk jobs next_job sent replies user_data clock_reads uuid_reads map List.length List.combine seq Nat.add].
  f_equal.
  - rewrite without_app, without_without. cbn [app].
    rewrite (without_fresh (map job_name js) [(next_job w, j)]).
    + rewrite <- app_assoc. reflexivity.
    + intros j' [<- | []]. exact Hn.
  - lia.
Qed.

Lemma combine_seq_fst {A} (l : list A) n :
  map fst (List.combine (seq n (List.length l)) l) = seq n (List.length l).
Proof.
  revert n. induction l as [|x l IH]; intros n; cbn; [reflexivity|].
  now rewrite IH.
Qed.

Lemma wf_enqueue js w : wf_jobs w -> wf_jobs (enqueue js w).
Proof.
  intros [ND Hlt]. unfold wf_jobs, enqueue. cbn [jobs next_job].
  assert (Hsub : forall j, In j (without (map job_name js) (jobs w)) -> In j (jobs w)).
  { intros j Hj. unfold without in Hj. now apply filter_In in Hj. }
  rewrite Forall_forall in Hlt.
  split.
  - rewrite map_app, combine_seq_fst.
    apply NoDup_app; [ | apply seq_NoDup | ].
    + unfold without. clear Hsub Hlt. induction (jobs w) as [|j q IH]; cbn; [constructor|].
      inversion ND as [|? ? Hn ND']; subst.
      destruct (negb _); cbn; auto. constructor; auto.
      intros Hin. apply Hn. apply in_map_iff in Hin. destruct Hin as (x & Ex & Hx).
      apply filter_In in Hx. rewrite <- Ex. apply in_map. tauto.
    + intros i Hi Hs. apply in_map_iff in Hi. destruct Hi as (j & <- & Hj).
      apply in_seq in Hs. specialize (Hlt j (Hsub j Hj)). lia.
  - apply Forall_forall. intros j Hj. apply in_app_or in Hj. destruct Hj as [Hj | Hj].
    + specialize (Hlt j (Hsub j Hj)). lia.
    + assert (In (fst j) (seq (next_job w) (List.length js))).
      { rewrite <- (combine_seq_fst js). now apply in_map. }
      apply in_seq in H. lia.
Qed.

(** ** Deriving the timers of an event *)

Lemma leb_to_delta a b :
  valid a = true -> valid b = true ->
  Datetime.leb a b = (to_delta a <=? to_delta b).
Proof.
  intros Ha Hb. unfold Datetime.leb, Z.leb. now rewrite compare_to_delta.
Qed.

Lemma ltb_to_delta a b :
  valid a = true -> valid b = true ->
  Datetime.ltb a b = (to_delta a <? to_delta b).
Proof.
  intros Ha Hb. unfold Datetime.ltb, Z.ltb. now rewrite compare_to_delta.
Qed.

Lemma gtb_to_delta a b :
  valid a = true -> valid b = true ->
  Datetime.gtb a b = (to_delta b <? to_delta a).
Proof. intros Ha Hb. unfold Datetime.gtb. now apply ltb_to_delta. Qed.

Lemma to_delta_split dt :
  to_delta dt = toordinal dt * US_PER_DAY + time_of_day dt.
Proof. unfold to_delta, time_of_day, US_PER_DAY, US_PER_SECOND. lia. Qed.

Lemma time_of_day_range dt :
  valid dt = true -> 0 <= time_of_day dt < US_PER_DAY.
Proof.
  intros V. apply valid_spec in V. unfold time_of_day, US_PER_DAY, US_PER_SECOND. lia.
Qed.

Lemma toordinal_range dt :
  valid dt = true -> 1 <= toordinal dt <= MAXORDINAL.
Proof.
  intros V. apply ymd2ord_range. unfold valid in V.
  now apply andb_true_iff in V.
Qed.

Lemma toordinal_from_year_2 dt :
  valid dt = true -> 2 <= year dt -> 366 <= toordinal dt.
Proof.
  intros V Hy. apply valid_spec in V. destruct V as (_ & Hm & Hd & _).
  pose proof (day_of_year_bounds _ _ _ Hm Hd) as B.
  pose proof (days_before_year_le 2 (year dt) Hy) as L.
  change (days_before_year 2) with 365 in L.
  unfold toordinal, ymd2ord. lia.
Qed.

Lemma toordinal_until_year_9998 dt :
  valid dt = true -> year dt <= 9998 -> toordinal dt < MAXORDINAL.
Proof.
  intros V Hy. apply valid_spec in V. destruct V as (_ & Hm & Hd & _).
  pose proof (day_of_year_bounds _ _ _ Hm Hd) as B.
  pose proof (days_before_year_le (year dt + 1) 9999 ltac:(lia)) as L.
  rewrite days_before_year_succ in L. unfold year_len in B.
  change (days_before_year 9999) with 3651694 in L.
  unfold toordinal, ymd2ord, MAXORDINAL. lia.
Qed.

Lemma sub_ok wh off :
  valid wh = true -> 2 <= year wh -> 0 <= off <= 365 * US_PER_DAY ->
  exists fa, Datetime.sub wh off = Ok fa /\ valid fa = true
             /\ to_delta fa = to_delta wh - off.
Proof.
  intros V Hy Ho. unfold Datetime.sub.
  pose proof (toordinal_from_year_2 wh V Hy) as L.
  pose proof (toordinal_range wh V) as R.
  pose proof (time_of_day_range wh V) as T.
  destruct (add_ok wh (- off)) as [fa Hfa].
  { rewrite to_delta_split. unfold US_PER_DAY, US_PER_SECOND, MAXORDINAL in *. lia. }
  exists fa. split; [exact Hfa|]. apply add_spec in Hfa.
  destruct Hfa as [Vf Ef]. split; [exact Vf | lia].
Qed.

Lemma combine_nine_valid now :
  valid now = true -> valid (combine (date_of now) DAILY_REMINDER_TIME) = true.
Proof.
  intros V. apply valid_spec in V. apply valid_spec. cbn. lia.
Qed.

Lemma first_run_spec now :
  valid now = true -> year now <= 9998 ->
  exists fr,
    first_run now = Ok fr /\ valid fr = true
    /\ Datetime.diff fr now = daily_delay now
    /\ time_of_day fr = NINE
    /\ toordinal fr
       = toordinal now + (if time_of_day now <? NINE then 0 else 1).
Proof.
  intros V Hy. unfold first_run.
  set (today := combine (date_of now) DAILY_REMINDER_TIME).
  pose proof (combine_nine_valid now V) as Vt. fold today in Vt.
  assert (Et : to_delta today = toordinal now * US_PER_DAY + NINE).
  { rewrite to_delta_split. reflexivity. }
  pose proof (to_delta_split now) as En.
  pose proof (time_of_day_range now V) as Tn.
  rewrite (gtb_to_delta _ _ Vt V).
  assert (Ec : (to_delta now <? to_delta today) = (time_of_day now <? NINE)).
  { destruct (time_of_day now <? NINE) eqn:E.
    - apply Z.ltb_lt in E. apply Z.ltb_lt. lia.
    - apply Z.ltb_ge in E. apply Z.ltb_ge. lia. }
  rewrite Ec. unfold daily_delay, Datetime.diff.
  destruct (time_of_day now <? NINE) eqn:E.
  - exists today. repeat split; try assumption; try reflexivity.
    + lia.
    + unfold today, toordinal. cbn. lia.
  - pose proof (toordinal_until_year_9998 now V Hy) as U.
    pose proof (toordinal_range now V) as R.
    destruct (add_ok today (mk_timedelta 1 0 0 0)) as [fr Hfr].
    { rewrite Et. unfold NINE, mk_timedelta, US_PER_DAY, US_PER_SECOND, MAXORDINAL in *. lia. }
    exists fr. split; [exact Hfr|]. apply add_spec in Hfr. destruct Hfr as [Vf Ef].
    pose proof (to_delta_split fr) as Efr.
    pose proof (time_of_day_range fr Vf) as Tf.
    change (mk_timedelta 1 0 0 0) with US_PER_DAY in Ef.
    assert (toordinal fr = toordinal now + 1 /\ time_of_day fr = NINE) as [E1 E2].
    { unfold NINE, US_PER_DAY, US_PER_SECOND in *. lia. }
    repeat split; try assumption. lia.
Qed.

Lemma schedule_daily_counter_spec uid e now w :
  valid now = true -> year now <= 9998 -> wf_jobs w ->
  schedule_daily_counter uid e now w = (Ok tt, enqueue [daily_job uid e now] w).
Proof.
  intros V Hy Hwf. destruct (first_run_spec now V Hy) as (fr & Hfr & _ & Hd & _).
  unfold schedule_daily_counter, bind.
  rewrite remove_existing_jobs_spec by exact Hwf.
  unfold lift. rewrite Hfr, Hd. reflexivity.
Qed.

Lemma reminder_names_NoDup uid e offs :
  Forall (fun off => 0 <= off) offs ->
  NoDup (map td_total_seconds_int offs) ->
  NoDup (map (reminder_job_name uid e) offs).
Proof.
  induction offs as [|o offs IH]; cbn; intros Hpos ND; [constructor|].
  inversion Hpos as [|? ? Ho Hpos']; subst.
  inversion ND as [|? ? Hn ND']; subst.
  constructor; [|auto].
  intros Hin. apply Hn. apply in_map_iff in Hin. destruct Hin as (o' & En & Ho').
  rewrite Forall_forall in Hpos'.
  apply reminder_job_name_inj in En; [|now apply Hpos'|exact Ho].
  destruct En as (_ & _ & <-). now apply in_map.
Qed.

Lemma reminders_loop_spec uid e now offs :
  valid (when e) = true -> valid now = true -> 2 <= year (when e) ->
  Forall (fun off => 0 <= off <= 365 * US_PER_DAY) offs ->
  NoDup (map td_total_seconds_int offs) ->
  forall w, wf_jobs w ->
  for_each offs (fun offset =>
    fire_at <- lift (Datetime.sub (when e) offset) ;;
    if Datetime.leb fire_at now then ret tt
    else
      let name := reminder_job_name uid e offset in
      remove_existing_jobs name ;;
      let delay := Datetime.diff fire_at now in
      register (mkJob name (RunOnce delay) EventReminder
                      (mkJobData uid e (Some offset)))) w
  = (Ok tt,
     enqueue (map (reminder_job uid e now)
                  (filter (fun off => to_delta now <? to_delta (when e) - off) offs))
             w).
Proof.
  intros Vw Vn Hy. induction offs as [|o offs IH]; intros Hr ND w Hwf.
  - cbn. now rewrite enqueue_nil.
  - inversion Hr as [|? ? Ho Hr']; subst.
    pose proof ND as ND0.
    inversion ND as [|? ? Hn ND']; subst.
    cbn [for_each filter]. unfold bind at 1.
    destruct (sub_ok (when e) o Vw Hy Ho) as (fa & Hs & Vf & Ef).
    unfold bind at 1. unfold lift at 1. rewrite Hs.
    rewrite (leb_to_delta _ _ Vf Vn), Ef.
    destruct (to_delta now <? to_delta (when e) - o) eqn:E.
    + replace (to_delta (when e) - o <=? to_delta now) with false
        by (symmetry; apply Z.leb_gt; now apply Z.ltb_lt).
      cbv zeta. unfold Datetime.diff. rewrite Ef.
      change (mkJob (reminder_job_name uid e o)
                    (RunOnce (to_delta (when e) - o - to_delta now)) EventReminder
                    (mkJobData uid e (Some o))) with (reminder_job uid e now o).
      change (reminder_job_name uid e o) with (job_name (reminder_job uid e now o)).
      rewrite (replace_job_spec _ _ Hwf).
      rewrite (IH Hr' ND' _ (wf_enqueue _ _ Hwf)).
      cbn [map]. rewrite enqueue_cons; [reflexivity|].
      rewrite map_map. cbn [job_name reminder_job].
      assert (NDn : NoDup (map (reminder_job_name uid e) (o :: offs))).
      { apply reminder_names_NoDup; [|exact ND0].
        eapply Forall_impl; [|exact Hr]. cbn. intros; lia. }
      inversion NDn as [|? ? Hnn _]; subst.
      intros Hin. apply Hnn. apply in_map_iff in Hin.
      destruct Hin as (o' & <- & Ho'). apply in_map.
      now apply filter_In in Ho'.
    + replace (to_delta (when e) - o <=? to_delta now) with true
        by (symmetry; apply Z.leb_le; now apply Z.ltb_ge).
      unfold ret at 1. now apply IH.
Qed.

Lemma REMINDER_OFFSETS_range :
  Forall (fun off => 0 <= off <= 365 * US_PER_DAY) REMINDER_OFFSETS.
Proof. repeat constructor; vm_compute; discriminate. Qed.

Lemma REMINDER_OFFSETS_NoDup :
  NoDup (map td_total_seconds_int REMINDER_OFFSETS).
Proof.
  vm_compute. repeat constructor; cbn; intuition discriminate.
Qed.

Example REMINDER_OFFSETS_seconds :
  map td_total_seconds_int REMINDER_OFFSETS = [36000; 18000; 1800; 300; 0].
Proof. reflexivity. Qed.

Lemma schedule_event_reminders_spec uid e now w :
  valid (when e) = true -> valid now = true -> 2 <= year (when e) ->
  wf_jobs w ->
  schedule_event_reminders uid e now w
  = (Ok tt, enqueue (map (reminder_job uid e now) (due_offsets e now)) w).
Proof.
  intros Vw Vn Hy Hwf. unfold schedule_event_reminders, due_offsets.
  apply reminders_loop_spec; auto using REMINDER_OFFSETS_range, REMINDER_OFFSETS_NoDup.
Qed.

Lemma year_le_of_leb a b :
  valid a = true -> valid b = true -> Datetime.leb a b = true -> year a <= year b.
Proof.
  intros Va Vb. unfold Datetime.leb, compare, fields. cbn [lex_compare].
  destruct (Z.compare_spec (year a) (year b)); first [lia | discriminate].
Qed.

Lemma schedule_event_jobs_spec env uid e w :
  let now := clock env (clock_reads w) in
  valid (when e) = true -> valid now = true -> 2 <= year now <= 9998 ->
  wf_jobs w ->
  schedule_event_jobs env uid e w
  = (Ok tt,
     if Datetime.leb (when e) now then tick w
     else enqueue (derived_jobs uid e now) (tick w)).
Proof.
  intros now Vw Vn Hy Hwf. unfold schedule_event_jobs, bind at 1.
  unfold datetime_now at 1. fold now. fold (tick w).
  destruct (Datetime.leb (when e) now) eqn:E; [reflexivity|].
  assert (Hyw : 2 <= year (when e)).
  { assert (L : Datetime.leb now (when e) = true).
    { apply ltb_false_leb. unfold Datetime.ltb, Datetime.leb in *.
      destruct (compare (when e) now); congruence. }
    pose proof (year_le_of_leb _ _ Vn Vw L). lia. }
  unfold bind.
  rewrite (schedule_daily_counter_spec uid e now (tick w) Vn ltac:(lia) Hwf).
  rewrite (schedule_event_reminders_spec uid e now _ Vw Vn Hyw
             (wf_enqueue [daily_job uid e now] (tick w) Hwf)).
  rewrite enqueue_cons; [reflexivity|].
  rewrite map_map. intros Hin. apply in_map_iff in Hin.
  destruct Hin as (o & Eo & _). cbn [job_name reminder_job daily_job] in Eo.
  symmetry in Eo. now apply daily_reminder_name_neq in Eo.
Qed.

(** ** Persistence: claims C10, C7 and C9 *)

Lemma quiet_ret {A} (a : A) : quiet (ret a).
Proof. intros w. exists a, w. auto. Qed.

Lemma quiet_bind {A B} (m : M A) (k : A -> M B) :
  quiet m -> (forall a, quiet (k a)) -> quiet (bind m k).
Proof.
  intros Hm Hk w. destruct (Hm w) as (a & w1 & E1 & D1).
  destruct (Hk a w1) as (b & w2 & E2 & D2).
  exists b, w2. unfold bind. rewrite E1, E2. split; [reflexivity|congruence].
Qed.

Lemma quiet_for_each {A} (xs : list A) (body : A -> M unit) :
  (forall x, In x xs -> quiet (body x)) -> quiet (for_each xs body).
Proof.
  induction xs as [|x xs IH]; intros H; cbn [for_each].
  - apply quiet_ret.
  - apply quiet_bind; [apply H; now left|]. intros _. apply IH.
    intros y Hy. apply H. now right.
Qed.

Lemma quiet_remove_existing_jobs name : quiet (remove_existing_jobs name).
Proof.
  intros w. unfold remove_existing_jobs, bind, get_jobs_by_name.
  rewrite for_each_removal. eexists _, _. split; reflexivity.
Qed.

Lemma quiet_register j : quiet (register j).
Proof. intros w. eexists _, _. split; reflexivity. Qed.

Lemma quiet_schedule_event_jobs env uid e :
  (forall i, valid (clock env i) = true /\ 2 <= year (clock env i) <= 9998) ->
  valid (when e) = true ->
  quiet (schedule_event_jobs env uid e).
Proof.
  intros Hclock Vw w. unfold schedule_event_jobs, bind at 1, datetime_now at 1.
  destruct (Hclock (clock_reads w)) as [Vn Hy].
  set (now := clock env (clock_reads w)) in *.
  destruct (Datetime.leb (when e) now) eqn:E.
  - eexists _, _. split; reflexivity.
  - assert (Hyw : 2 <= year (when e)).
    { assert (L : Datetime.leb now (when e) = true).
      { apply ltb_false_leb. unfold Datetime.ltb, Datetime.leb in *.
        destruct (compare (when e) now); congruence. }
      pose proof (year_le_of_leb _ _ Vn Vw L). lia. }
    match goal with |- exists a w', ?m ?w0 = _ /\ _ =>
      assert (Q : quiet m); [ | destruct (Q w0) as (a & w' & Ea & Da);
                                exists a, w'; split; [exact Ea | exact Da] ] end.
    apply quiet_bind.
    + unfold schedule_daily_counter.
      apply quiet_bind; [apply quiet_remove_existing_jobs|]. intros _.
      destruct (first_run_spec now Vn ltac:(lia)) as (fr & Hfr & _).
      rewrite Hfr. apply quiet_bind; [intros w1; eexists _, _; split; reflexivity|].
      intros a. apply quiet_register.
    + intros _. unfold schedule_event_reminders. apply quiet_for_each.
      intros off Hoff.
      pose proof REMINDER_OFFSETS_range as R. rewrite Forall_forall in R.
      destruct (sub_ok (when e) off Vw Hyw (R off Hoff)) as (fa & Hs & _).
      rewrite Hs. apply quiet_bind; [intros w1; eexists _, _; split; reflexivity|].
      intros a. destruct (Datetime.leb a now); [apply quiet_ret|].
      apply quiet_bind; [apply quiet_remove_existing_jobs|]. intros _.
      apply quiet_register.
Qed.

Lemma add_event_spec path uid e w data :
  read_disk path (disk w) = Ok data ->
  add_event path uid e w
  = (Ok tt,
     set_disk
       (FS.run
          (write_ops path
             (Dict.set (str_of_int uid)
                (sort_by_when (Dict.get_default (str_of_int uid) [] data ++ [e]))
                data))
          (disk w)) w).
Proof.
  intros R. unfold add_event, bind. rewrite _read_eq, R. reflexivity.
Qed.

Lemma all_valid_get key data :
  all_valid data ->
  Forall (fun e => valid (when e) = true) (Dict.get_default key [] data).
Proof.
  unfold Dict.get_default. intros V.
  induction V as [|[k evs] d Hk _ IH]; cbn; [constructor|].
  destruct (String.eqb key k); [exact Hk | exact IH].
Qed.

Lemma all_valid_set key evs data :
  all_valid data -> Forall (fun e => valid (when e) = true) evs ->
  all_valid (Dict.set key evs data).
Proof. intros V Hevs. apply dict_set_Forall; auto. Qed.

Lemma Forall_perm {A} (P : A -> Prop) l l' :
  Permutation l l' -> Forall P l -> Forall P l'.
Proof. intros Hp H. rewrite Forall_forall in *. intros x Hx. apply H.
  eapply Permutation_in; [symmetry; exact Hp | exact Hx]. Qed.

Lemma decode_valid_disk path d data :
  read_disk path d = Ok data -> all_valid data.
Proof.
  unfold read_disk. destruct (FS.lookup path (FS.files d)) as [[raw|]|].
  - apply decode_valid.
  - discriminate.
  - intros [= <-]. constructor.
Qed.

Lemma insert_sorted_head e l :
  Sorted when_le (e :: l) -> insert_by_when e l = e :: l.
Proof.
  intros H. destruct l as [|x l]; cbn; [reflexivity|].
  inversion H as [|? ? _ Hd]; subst. inversion Hd as [|? ? Hle]; subst.
  unfold when_le in Hle.
  replace (Datetime.ltb (when x) (when e)) with false; [reflexivity|].
  symmetry. apply not_true_is_false. intros Hlt.
  unfold Datetime.ltb, Datetime.leb, compare in *.
  rewrite (lex_compare_antisym (fields (when e)) (fields (when x))) in Hlt.
  destruct (lex_compare (fields (when e)) (fields (when x))); cbn in *; congruence.
Qed.

Lemma sort_sorted_id l : Sorted when_le l -> sort_by_when l = l.
Proof.
  induction l as [|x l IH]; intros H; [reflexivity|].
  change (sort_by_when (x :: l)) with (insert_by_when x (sort_by_when l)).
  inversion H as [|? ? Hl Hd]; subst. rewrite (IH Hl).
  now apply insert_sorted_head.
Qed.

(** Claim C10.  Event serialisation round-trips: for every event [e]
    (whose [when], like every [datetime] object, has well-formed
    fields), [isoformat] followed by [fromisoformat] gives back [when e],
    and [Event.from_dict(e.to_dict())] is [e] itself, so [id], [title],
    [chat_id] and the timestamp are all recovered exactly. *)
Theorem event_dict_roundtrip (e : Event) :
  valid (when e) = true ->
  fromisoformat (isoformat (when e)) = Ok (when e)
  /\ from_dict (to_dict e) = Ok e.
Proof.
  intros V. split; [now apply isoformat_roundtrip | now apply from_dict_to_dict_ok].
Qed.

Lemma event_dict_roundtrip_witness :
  valid (when party) = true
  /\ fromisoformat (isoformat (when party)) = Ok (when party)
  /\ from_dict (to_dict party) = Ok party.
Proof. split; [reflexivity | apply (event_dict_roundtrip party); reflexivity]. Defined.

(** Claim C7.  [_write] is atomic through the temporary file and the
    rename.  For a store path whose suffix is not [.tmp] (as
    [data/events.json]): if the write stops after any number [k] of its
    four file-system steps short of all of them (before the rename has
    happened, so also right between the dump to the temporary file and
    the rename), [load_all] returns what it returned before the write;
    after the complete write it returns the new data.  A reader never
    sees a cut-off store. *)
Theorem write_is_atomic (path : FS.path) (data : Dict.dict (list Event)) (w : World) :
  FS.suffix path <> ".tmp" ->
  (forall k, (k < List.length (write_ops path data))%nat ->
     fst (load_all path (snd (_write_interrupted k path data w)))
     = fst (load_all path w))
  /\ (all_valid data ->
      fst (load_all path (snd (_write path data w))) = Ok data).
Proof.
  intros Hs. split.
  - intros k Hk. unfold load_all, _write_interrupted. cbn [snd].
    rewrite !_read_eq. cbn [fst disk set_disk].
    now apply read_disk_crash.
  - intros V. unfold load_all, _write. cbn [snd]. rewrite _read_eq.
    cbn [fst disk set_disk]. rewrite read_disk_after_write.
    now apply decode_encode.
Qed.

Lemma write_is_atomic_witness :
  FS.suffix STORAGE_PATH <> ".tmp"
  /\ fst (load_all STORAGE_PATH
            (snd (_write_interrupted 3 STORAGE_PATH [("7", [party])]
                    (set_disk sound_store fresh_world))))
     = fst (load_all STORAGE_PATH (set_disk sound_store fresh_world)).
Proof.
  split; [discriminate|].
  apply (write_is_atomic STORAGE_PATH [("7", [party])]
           (set_disk sound_store fresh_world));
    [discriminate | cbn; lia].
Defined.

(** Claim C9.  On a readable store, [create_event_and_schedule] returns
    the new event and persists exactly that one event: the owner's
    sequence in the reloaded store is a permutation of the old one plus
    the event (one longer), every other owner's entry is unchanged,
    [list_events] of the owner returns that sequence, which contains the
    event and is sorted ascending by [when]; and if every owner's
    sequence was sorted before the write, every one is after it.  (The
    clock is assumed to read times in years 2..9998, where the timer
    arithmetic cannot overflow; the statement holds whether or not
    [when] is in the future.) *)
Theorem create_event_persists (env : Env) (store : FS.path)
    (user_id chat : Z) (title : string) (wh : datetime) (w : World)
    (data : Dict.dict (list Event)) :
  (forall i, valid (clock env i) = true /\ 2 <= year (clock env i) <= 9998) ->
  valid wh = true ->
  fst (load_all store w) = Ok data ->
  let e := mkEvent (uuid4 env (uuid_reads w)) title wh chat in
  let key := str_of_int user_id in
  let old := Dict.get_default key [] data in
  exists w' data' new,
    create_event_and_schedule env store user_id chat title wh w = (Ok e, w')
    /\ fst (load_all store w') = Ok data'
    /\ Dict.get key data' = Some new
    /\ Permutation (old ++ [e]) new
    /\ List.length new = S (List.length old)
    /\ (forall k, k <> key -> Dict.get k data' = Dict.get k data)
    /\ fst (list_events store user_id w') = Ok new
    /\ In e new
    /\ Sorted when_le new
    /\ (Forall (fun kv => Sorted when_le (snd kv)) data ->
        Forall (fun kv => Sorted when_le (snd kv)) data').
Proof.
  intros Hclock Vw Hload e key old.
  unfold load_all in Hload. rewrite _read_eq in Hload. cbn [fst] in Hload.
  set (new := sort_by_when (old ++ [e])).
  set (data' := Dict.set key new data).
  pose proof (decode_valid_disk store (disk w) data Hload) as Vd.
  assert (Vnew : Forall (fun x => valid (when x) = true) new).
  { apply (Forall_perm _ (old ++ [e])); [apply sort_by_when_perm|].
    apply Forall_app. split; [now apply all_valid_get|]. now constructor. }
  assert (Vd' : all_valid data') by now apply all_valid_set.
  destruct (quiet_schedule_event_jobs env user_id e Hclock Vw
              (set_disk (FS.run (write_ops store data') (disk w)) (drawn w)))
    as ([] & w' & Es & Ds).
  assert (Rd : read_disk store (disk w') = Ok data').
  { rewrite Ds. cbn [disk set_disk]. rewrite read_disk_after_write.
    now apply decode_encode. }
  assert (Pn : Permutation (old ++ [e]) new) by apply sort_by_when_perm.
  assert (Sn : Sorted when_le new) by apply sort_by_when_sorted.
  assert (Gn : Dict.get key data' = Some new) by apply dict_get_set_same.
  exists w', data', new. repeat split.
  - unfold create_event_and_schedule, bind at 1, new_uuid at 1.
    fold (drawn w). fold e. unfold bind at 1.
    rewrite (add_event_spec store user_id e (drawn w) data Hload).
    fold key old new data'. unfold bind. 
    change (disk (drawn w)) with (disk w). rewrite Es. reflexivity.
  - unfold load_all. rewrite _read_eq. exact Rd.
  - exact Gn.
  - exact Pn.
  - rewrite <- (Permutation_length Pn). rewrite length_app. cbn. lia.
  - intros k Hk. now apply dict_get_set_other.
  - unfold list_events, bind. rewrite _read_eq, Rd. cbn [fst ret].
    unfold Dict.get_default. fold key. rewrite Gn.
    f_equal. now apply sort_sorted_id.
  - eapply Permutation_in; [exact Pn|]. apply in_or_app. right. now left.
  - exact Sn.
  - intros Hs. apply dict_set_Forall; auto.
Qed.

Lemma create_event_persists_witness :
  exists w' data' new,
    create_event_and_schedule (frozen_env (mkDatetime 2024 12 1 12 0 0 0))
      STORAGE_PATH 7 70 "party" (mkDatetime 2024 12 31 18 0 0 0) fresh_world
    = (Ok party, w')
    /\ fst (load_all STORAGE_PATH w') = Ok data'
    /\ Dict.get "7" data' = Some new
    /\ Permutation ([] ++ [party]) new
    /\ List.length new = 1%nat
    /\ (forall k, k <> "7" -> Dict.get k data' = Dict.get k [])
    /\ fst (list_events STORAGE_PATH 7 w') = Ok new
    /\ In party new
    /\ Sorted when_le new
    /\ (Forall (fun kv : string * list Event => Sorted when_le (snd kv)) [] ->
        Forall (fun kv => Sorted when_le (snd kv)) data').
Proof.
  apply (create_event_persists (frozen_env (mkDatetime 2024 12 1 12 0 0 0))
           STORAGE_PATH 7 70 "party" (mkDatetime 2024 12 31 18 0 0 0)
           fresh_world []).
  - intros i. cbn. split; [reflexivity | lia].
  - reflexivity.
  - reflexivity.
Defined.

(** ** Reminders and idempotent derivation: claims C3 and C5 *)

Lemma gtb_year_le a b :
  valid a = true -> valid b = true -> Datetime.gtb a b = true -> year b <= year a.
Proof.
  intros Va Vb H. apply (year_le_of_leb b a Vb Va).
  apply ltb_true_leb. exact H.
Qed.

(** Claim C3.  For an event with [when e > now],
    [schedule_event_reminders] registers, for exactly the offsets [off] of
    [REMINDER_OFFSETS] with [fire_at = when e - off] strictly after
    [now], a one-shot timer whose delay from [now] is [fire_at - now]
    (so it fires at [fire_at]), replacing a live timer of the same name;
    it registers nothing for an offset with [fire_at <= now].  An event
    twenty minutes ahead gets only the 5-minute and the 0-second
    reminder. *)
Theorem reminders_registered (user_id : Z) (e : Event) (now : datetime) (w : World) :
  valid (when e) = true -> valid now = true -> 2 <= year now ->
  Datetime.gtb (when e) now = true ->
  wf_jobs w ->
  schedule_event_reminders user_id e now w
  = (Ok tt, enqueue (map (reminder_job user_id e now) (due_offsets e now)) w)
  /\ (forall off, In off REMINDER_OFFSETS ->
        exists fire_at,
          Datetime.sub (when e) off = Ok fire_at
          /\ to_delta fire_at = to_delta (when e) - off
          /\ job_trigger (reminder_job user_id e now off)
             = RunOnce (Datetime.diff fire_at now)
          /\ (In off (due_offsets e now) <-> Datetime.gtb fire_at now = true))
  /\ (Datetime.diff (when e) now = mk_timedelta 0 0 20 0 ->
      due_offsets e now = [mk_timedelta 0 0 5 0; mk_timedelta 0 0 0 0]).
Proof.
  intros Vw Vn Hy Hfut Hwf.
  assert (Hyw : 2 <= year (when e)).
  { pose proof (gtb_year_le _ _ Vw Vn Hfut). lia. }
  split; [|split].
  - now apply schedule_event_reminders_spec.
  - intros off Hoff.
    pose proof REMINDER_OFFSETS_range as R. rewrite Forall_forall in R.
    destruct (sub_ok (when e) off Vw Hyw (R off Hoff)) as (fa & Hs & Vf & Ef).
    exists fa. split; [exact Hs|]. split; [exact Ef|]. split.
    + cbn. unfold Datetime.diff. now rewrite Ef.
    + unfold due_offsets. rewrite filter_In, (gtb_to_delta _ _ Vf Vn), Ef. tauto.
  - unfold Datetime.diff. intros H20. unfold due_offsets, REMINDER_OFFSETS.
    cbn [filter].
    repeat match goal with
    | |- context [to_delta now <? ?x] =>
        let b := fresh "b" in
        destruct (to_delta now <? x) eqn:b;
        [apply Z.ltb_lt in b | apply Z.ltb_ge in b]
    end;
    try reflexivity; exfalso;
    unfold mk_timedelta, US_PER_SECOND in *; lia.
Qed.

Lemma combine_seq_snd {A} (l : list A) n :
  map snd (List.combine (seq n (List.length l)) l) = l.
Proof.
  revert n. induction l as [|x l IH]; intros n; cbn; [reflexivity|].
  now rewrite IH.
Qed.

Lemma due_offsets_nonneg e now off : In off (due_offsets e now) -> 0 <= off.
Proof.
  unfold due_offsets. rewrite filter_In. intros [H _].
  pose proof REMINDER_OFFSETS_range as R. rewrite Forall_forall in R.
  apply R in H. lia.
Qed.

Lemma NoDup_map_filter {A B} (g : A -> B) (f : A -> bool) l :
  NoDup (map g l) -> NoDup (map g (filter f l)).
Proof.
  induction l as [|x l IH]; cbn; intros ND; [constructor|].
  inversion ND as [|? ? Hx ND']; subst.
  destruct (f x); cbn; [constructor|]; auto.
  intros Hin. apply Hx. apply in_map_iff in Hin. destruct Hin as (y & <- & Hy).
  apply in_map. now apply filter_In in Hy.
Qed.

Lemma derived_names_NoDup uid e now :
  NoDup (map job_name (derived_jobs uid e now)).
Proof.
  unfold derived_jobs. cbn [map]. constructor.
  - rewrite map_map. intros Hin. apply in_map_iff in Hin.
    destruct Hin as (o & Eo & _). cbn [job_name reminder_job daily_job] in Eo.
    symmetry in Eo. now apply daily_reminder_name_neq in Eo.
  - rewrite map_map. cbn [job_name reminder_job]. unfold due_offsets.
    apply NoDup_map_filter. apply reminder_names_NoDup.
    + eapply Forall_impl; [|exact REMINDER_OFFSETS_range]. cbn. intros; lia.
    + exact REMINDER_OFFSETS_NoDup.
Qed.

Lemma filter_none {A} (f : A -> bool) l :
  (forall x, In x l -> f x = false) -> filter f l = [].
Proof.
  induction l as [|x l IH]; cbn; intros H; [reflexivity|].
  rewrite (H x) by now left. apply IH. intros; apply H; now right.
Qed.

Lemma live_count_app name q1 q2 :
  live_count name (q1 ++ q2) = (live_count name q1 + live_count name q2)%nat.
Proof. unfold live_count. now rewrite filter_app, length_app. Qed.

Lemma live_count_without name names q :
  In name names -> live_count name (without names q) = 0%nat.
Proof.
  intros Hin. unfold live_count, without. rewrite filter_filter.
  rewrite filter_none; [reflexivity|].
  intros j _. destruct (String.eqb (job_name (snd j)) name) eqn:E.
  - apply String.eqb_eq in E. rewrite andb_true_r. apply negb_false_iff.
    apply existsb_exists. exists name. split; [exact Hin|].
    rewrite E. apply String.eqb_refl.
  - apply andb_false_r.
Qed.

Lemma live_count_numbered name js n :
  NoDup (map job_name js) -> In name (map job_name js) ->
  live_count name (List.combine (seq n (List.length js)) js) = 1%nat.
Proof.
  revert n. induction js as [|j js IH]; intros n ND Hin; [contradiction|].
  cbn [map] in ND, Hin. inversion ND as [|? ? Hj ND']; subst.
  unfold live_count in *. cbn [List.length seq List.combine filter snd].
  destruct (String.eqb (job_name j) name) eqn:E.
  - apply String.eqb_eq in E. subst name. cbn [List.length]. f_equal.
    apply length_zero_iff_nil. apply filter_none. intros [i j'] Hj'.
    cbn [snd]. apply String.eqb_neq. intros Ej. apply Hj. rewrite <- Ej.
    apply in_map. apply in_combine_r in Hj'. exact Hj'.
  - apply String.eqb_neq in E. destruct Hin as [Hin | Hin]; [congruence|].
    now apply IH.
Qed.

Lemma live_count_enqueue name js w :
  NoDup (map job_name js) -> In name (map job_name js) ->
  live_count name (jobs (enqueue js w)) = 1%nat.
Proof.
  intros ND Hin. unfold enqueue. cbn [jobs].
  rewrite live_count_app, live_count_without by exact Hin.
  now rewrite live_count_numbered.
Qed.

Lemma enqueue_twice_jobs js w w1 :
  jobs w1 = jobs (enqueue js w) ->
  map snd (jobs (enqueue js w1)) = map snd (jobs (enqueue js w)).
Proof.
  intros E. unfold enqueue at 1. cbn [jobs]. rewrite E.
  unfold enqueue. cbn [jobs].
  rewrite without_app, without_without.
  rewrite (without_all (map job_name js) (List.combine _ js)).
  - rewrite app_nil_r, !map_app, !combine_seq_snd. f_equal. f_equal.
    unfold without. apply filter_ext. intros j.
    rewrite existsb_app. now rewrite orb_diag.
  - intros [i j] Hj. cbn [snd]. apply in_map. now apply in_combine_r in Hj.
Qed.

(** Claim C5.  Timer derivation is idempotent.  Running
    [schedule_event_jobs] twice for the same event with the clock
    reading the same [now] both times leaves the same timers, under the
    same names, as running it once.  For an event after [now] the first
    run already replaces, per derived name, whatever was live under that
    name by one new timer, so after either run exactly one live timer
    bears each derived name.  The daily timer's name depends on
    [(user_id, id e)] only and a reminder's on [(user_id, id e, offset)]
    only. *)
Theorem derivation_idempotent (env : Env) (user_id : Z) (e : Event) (w : World) :
  let now := clock env (clock_reads w) in
  clock env (S (clock_reads w)) = now ->
  valid (when e) = true -> valid now = true -> 2 <= year now <= 9998 ->
  wf_jobs w ->
  let w1 := snd (schedule_event_jobs env user_id e w) in
  let w2 := snd (schedule_event_jobs env user_id e w1) in
  fst (schedule_event_jobs env user_id e w) = Ok tt
  /\ fst (schedule_event_jobs env user_id e w1) = Ok tt
  /\ map snd (jobs w2) = map snd (jobs w1)
  /\ (Datetime.gtb (when e) now = true ->
      w1 = enqueue (derived_jobs user_id e now) (tick w)
      /\ forall name, In name (map job_name (derived_jobs user_id e now)) ->
           live_count name (jobs w1) = 1%nat
           /\ live_count name (jobs w2) = 1%nat)
  /\ map job_name (derived_jobs user_id e now)
     = daily_job_name user_id e
       :: map (reminder_job_name user_id e) (due_offsets e now)
  /\ (forall e', id e' = id e ->
        daily_job_name user_id e' = daily_job_name user_id e
        /\ forall off, reminder_job_name user_id e' off
                       = reminder_job_name user_id e off).
Proof.
  intros now Hsame Vw Vn Hy Hwf w1 w2.
  pose proof (schedule_event_jobs_spec env user_id e w Vw Vn Hy Hwf) as S1.
  fold now in S1.
  assert (E1 : w1 = if Datetime.leb (when e) now then tick w
                    else enqueue (derived_jobs user_id e now) (tick w)).
  { unfold w1. now rewrite S1. }
  assert (Hwf1 : wf_jobs w1).
  { rewrite E1. destruct (Datetime.leb (when e) now); [exact Hwf|].
    now apply wf_enqueue. }
  assert (Hc1 : clock env (clock_reads w1) = now).
  { rewrite E1. destruct (Datetime.leb (when e) now); exact Hsame. }
  assert (Vn1 : valid (clock env (clock_reads w1)) = true) by now rewrite Hc1.
  assert (Hy1 : 2 <= year (clock env (clock_reads w1)) <= 9998) by now rewrite Hc1.
  pose proof (schedule_event_jobs_spec env user_id e w1 Vw Vn1 Hy1 Hwf1) as S2.
  rewrite Hc1 in S2.
  assert (E2 : w2 = if Datetime.leb (when e) now then tick w1
                    else enqueue (derived_jobs user_id e now) (tick w1)).
  { unfold w2. now rewrite S2. }
  split; [now rewrite S1|]. split; [now rewrite S2|].
  split; [|split; [|split]].
  - rewrite E2. destruct (Datetime.leb (when e) now) eqn:L; [reflexivity|].
    rewrite E1. apply enqueue_twice_jobs. reflexivity.
  - intros Hfut.
    assert (L : Datetime.leb (when e) now = false).
    { unfold Datetime.gtb, Datetime.ltb, Datetime.leb, compare in *.
      rewrite (lex_compare_antisym (fields (when e)) (fields now)) in Hfut.
      destruct (lex_compare (fields (when e)) (fields now)); cbn in *; congruence. }
    rewrite L in E1, E2. split; [exact E1|]. intros name Hname.
    pose proof (derived_names_NoDup user_id e now) as ND.
    rewrite E2, E1. split; now apply live_count_enqueue.
  - unfold derived_jobs. cbn [map]. f_equal. now rewrite map_map.
  - intros e' He'. unfold daily_job_name, reminder_job_name. rewrite He'. auto.
Qed.

(** ** Recovery: claims C4 and C8 *)

Lemma named_for_inj i i' name : named_for i name -> named_for i' name -> i = i'.
Proof.
  intros (u & e & <- & H) (u' & e' & <- & H').
  destruct H as [-> | (off & Ho & ->)], H' as [H' | (off' & Ho' & H')].
  - now apply daily_job_name_inj in H'.
  - now apply daily_reminder_name_neq in H'.
  - symmetry in H'. now apply daily_reminder_name_neq in H'.
  - apply reminder_job_name_inj in H'; tauto.
Qed.

Lemma derived_jobs_named uid e now j :
  In j (derived_jobs uid e now) -> named_for (id e) (job_name j).
Proof.
  unfold derived_jobs. intros [<- | Hj].
  - exists uid, e. split; [reflexivity|]. now left.
  - apply in_map_iff in Hj. destruct Hj as (off & <- & Hoff).
    exists uid, e. split; [reflexivity|]. right. exists off.
    split; [now apply due_offsets_nonneg in Hoff | reflexivity].
Qed.

Lemma enqueue_fresh_jobs js w :
  (forall j, In j (jobs w) -> ~ In (job_name (snd j)) (map job_name js)) ->
  map snd (jobs (enqueue js w)) = map snd (jobs w) ++ js.
Proof.
  intros H. unfold enqueue. cbn [jobs].
  now rewrite (without_fresh _ _ H), map_app, combine_seq_snd.
Qed.

Lemma timers_of_incl seen seen' w :
  incl seen seen' -> timers_of seen w -> timers_of seen' w.
Proof.
  intros Hi [Hwf Hn]. split; [exact Hwf|].
  eapply Forall_impl; [|exact Hn]. intros j (i & Hin & Hnamed).
  exists i. split; [now apply Hi | exact Hnamed].
Qed.

Lemma gtb_leb a b : Datetime.leb a b = negb (Datetime.gtb a b).
Proof.
  unfold Datetime.gtb, Datetime.ltb, Datetime.leb, compare.
  rewrite (lex_compare_antisym (fields a) (fields b)).
  now destruct (lex_compare (fields a) (fields b)).
Qed.

Lemma NoDup_app_disjoint {A} (l1 l2 : list A) x :
  NoDup (l1 ++ l2) -> In x l1 -> In x l2 -> False.
Proof.
  induction l1 as [|y l1 IH]; cbn; intros ND H1 H2; [contradiction|].
  inversion ND as [|? ? Hy ND']; subst. destruct H1 as [-> | H1].
  - apply Hy. apply in_or_app. now right.
  - now apply IH.
Qed.

Section Recovery.

Variable env : Env.
Variable now : datetime.
Hypothesis frozen : forall i, clock env i = now.
Hypothesis now_valid : valid now = true.
Hypothesis now_year : 2 <= year now <= 9998.

Lemma recover_event uid e seen w :
  valid (when e) = true -> ~ In (id e) seen -> timers_of seen w ->
  exists w',
    (if Datetime.gtb (when e) now
     then schedule_event_jobs env uid e else ret tt) w = (Ok tt, w')
    /\ timers_of (id e :: seen) w'
    /\ map snd (jobs w')
       = map snd (jobs w)
         ++ (if Datetime.gtb (when e) now then derived_jobs uid e now else [])
    /\ disk w' = disk w.
Proof.
  intros Vw Hnew [Hwf Hn].
  destruct (Datetime.gtb (when e) now) eqn:G.
  - pose proof (schedule_event_jobs_spec env uid e w) as S.
    cbv zeta in S. rewrite frozen in S.
    specialize (S Vw now_valid now_year Hwf).
    rewrite gtb_leb, G in S. cbn [negb] in S.
    eexists. split; [exact S|].
    assert (Fresh : forall j, In j (jobs (tick w)) ->
              ~ In (job_name (snd j)) (map job_name (derived_jobs uid e now))).
    { intros j Hj Hin. rewrite Forall_forall in Hn.
      destruct (Hn j Hj) as (i & Hi & Hnamed).
      apply in_map_iff in Hin. destruct Hin as (j' & Ej & Hj').
      apply derived_jobs_named in Hj'. rewrite Ej in Hj'.
      pose proof (named_for_inj _ _ _ Hnamed Hj'). subst i. contradiction. }
    split; [|split].
    + split; [now apply wf_enqueue|].
      unfold enqueue. cbn [jobs]. apply Forall_app. split.
      * rewrite (without_fresh _ _ Fresh). cbn [jobs tick].
        eapply Forall_impl; [|exact Hn]. intros j (i & Hi & Hnamed).
        exists i. split; [now right | exact Hnamed].
      * apply Forall_forall. intros [k j] Hj. cbn [snd].
        exists (id e). split; [now left|].
        apply (derived_jobs_named uid e now). now apply in_combine_r in Hj.
    + now rewrite (enqueue_fresh_jobs _ _ Fresh).
    + reflexivity.
  - exists w. split; [reflexivity|]. split; [|split].
    + apply (timers_of_incl seen); [now apply incl_tl, incl_refl|]. now split.
    + now rewrite app_nil_r.
    + reflexivity.
Qed.

Lemma recover_owner uid : forall evs seen w,
  Forall (fun e => valid (when e) = true) evs ->
  NoDup (map id evs) -> (forall e, In e evs -> ~ In (id e) seen) ->
  timers_of seen w ->
  exists w',
    for_each evs (fun event =>
      if Datetime.gtb (when event) now
      then schedule_event_jobs env uid event else ret tt) w = (Ok tt, w')
    /\ timers_of (map id evs ++ seen) w'
    /\ map snd (jobs w') = map snd (jobs w) ++ owner_jobs now uid evs
    /\ disk w' = disk w.
Proof.
  induction evs as [|e evs IH]; intros seen w V ND Hnew Hinv.
  - exists w. cbn. rewrite app_nil_r. auto.
  - inversion V as [|? ? Ve V']; subst.
    cbn [map] in ND. inversion ND as [|? ? He ND']; subst.
    destruct (recover_event uid e seen w Ve (Hnew e (or_introl eq_refl)) Hinv)
      as (w1 & E1 & I1 & J1 & D1).
    destruct (IH (id e :: seen) w1 V' ND') as (w2 & E2 & I2 & J2 & D2).
    { intros e' He' [Hid | Hs].
      - apply He. rewrite Hid. now apply in_map.
      - apply (Hnew e'); [now right | exact Hs]. }
    { exact I1. }
    exists w2. cbn [for_each]. unfold bind. rewrite E1, E2.
    split; [reflexivity|]. split; [|split].
    + apply (timers_of_incl (map id evs ++ id e :: seen)); [|exact I2].
      intros i Hi. cbn [map app]. apply in_app_or in Hi.
      destruct Hi as [Hi | [Hi | Hi]].
      * right. apply in_or_app. now left.
      * now left.
      * right. apply in_or_app. now right.
    + rewrite J2, J1, <- app_assoc. reflexivity.
    + congruence.
Qed.

Lemma recover_store : forall data seen w,
  all_valid data ->
  NoDup (map id (flat_map snd data)) ->
  (forall e, In e (flat_map snd data) -> ~ In (id e) seen) ->
  timers_of seen w ->
  exists w',
    for_each data (fun entry =>
      match int_of_str (fst entry) with
      | None => ret tt
      | Some user_id =>
          for_each (snd entry) (fun event =>
            if Datetime.gtb (when event) now
            then schedule_event_jobs env user_id event
            else ret tt)
      end) w = (Ok tt, w')
    /\ map snd (jobs w') = map snd (jobs w) ++ recovered_jobs now data
    /\ disk w' = disk w.
Proof.
  induction data as [|[k evs] data IH]; intros seen w V ND Hnew Hinv.
  - exists w. cbn. rewrite app_nil_r. auto.
  - inversion V as [|? ? Ve V']; subst. cbn [snd] in Ve.
    cbn [flat_map snd] in ND, Hnew. rewrite map_app in ND.
    pose proof (NoDup_app_remove_r _ _ ND) as ND1.
    pose proof (NoDup_app_remove_l _ _ ND) as ND2.
    cbn [for_each fst snd]. unfold bind, recovered_jobs. cbn [flat_map fst snd].
    fold (recovered_jobs now data).
    destruct (int_of_str k) as [uid|].
    + destruct (recover_owner uid evs seen w Ve ND1) as (w1 & E1 & I1 & J1 & D1).
      { intros e He. apply Hnew. apply in_or_app. now left. }
      { exact Hinv. }
      destruct (IH (map id evs ++ seen) w1 V' ND2) as (w2 & E2 & J2 & D2).
      { intros e He Hin. apply in_app_or in Hin. destruct Hin as [Hin | Hin].
        - apply (NoDup_app_disjoint _ _ (id e) ND Hin). now apply in_map.
        - apply (Hnew e); [|exact Hin]. apply in_or_app. now right. }
      { exact I1. }
      exists w2. rewrite E1, E2. split; [reflexivity|].
      split; [|congruence]. rewrite J2, J1, <- app_assoc. reflexivity.
    + destruct (IH seen w V' ND2) as (w2 & E2 & J2 & D2).
      { intros e He. apply Hnew. apply in_or_app. now right. }
      { exact Hinv. }
      exists w2. unfold ret at 1. rewrite E2. auto.
Qed.

End Recovery.

Lemma rmap_raises {A B} (f : A -> result B) xs a x :
  In a xs -> f a = Raise x -> exists x', rmap f xs = Raise x'.
Proof.
  induction xs as [|b xs IH]; cbn; intros Hin Hf; [contradiction|].
  destruct (f b) as [y|x0] eqn:E; cbn; [|eauto].
  destruct Hin as [-> | Hin]; [congruence|].
  destruct (IH Hin Hf) as [x' ->]. cbn. eauto.
Qed.

Lemma wf_jobs_empty w : jobs w = [] -> wf_jobs w.
Proof. intros E. unfold wf_jobs. rewrite E. split; constructor. Qed.

Lemma reschedule_all_events_spec env store w data now :
  (forall i, clock env i = now) ->
  valid now = true -> 2 <= year now <= 9998 ->
  jobs w = [] ->
  fst (load_all store w) = Ok data ->
  NoDup (map id (flat_map snd data)) ->
  exists w',
    reschedule_all_events env store w = (Ok tt, w')
    /\ map snd (jobs w') = recovered_jobs now data.
Proof.
  intros Hfrozen Vn Hy Hj Hload ND.
  unfold load_all in Hload. rewrite _read_eq in Hload. cbn [fst] in Hload.
  pose proof (decode_valid_disk _ _ _ Hload) as V.
  unfold reschedule_all_events, bind at 1, load_all. rewrite _read_eq, Hload.
  unfold bind at 1, datetime_now at 1. rewrite Hfrozen. fold (tick w).
  destruct (recover_store env now Hfrozen Vn Hy data [] (tick w) V ND)
    as (w' & E & J & _).
  - intros e _ [].
  - split; [now apply wf_jobs_empty|]. cbn [jobs tick]. rewrite Hj. constructor.
  - exists w'. split; [exact E|]. rewrite J. cbn [jobs tick]. now rewrite Hj.
Qed.

Lemma creation_timers_spec env uid e now :
  (forall i, clock env i = now) ->
  valid now = true -> 2 <= year now <= 9998 -> valid (when e) = true ->
  creation_timers env uid e
  = if Datetime.gtb (when e) now then derived_jobs uid e now else [].
Proof.
  intros Hfrozen Vn Hy Vw. unfold creation_timers.
  pose proof (schedule_event_jobs_spec env uid e fresh_world) as S.
  cbv zeta in S. rewrite Hfrozen in S.
  rewrite (S Vw Vn Hy (wf_jobs_empty fresh_world eq_refl)). cbn [snd].
  rewrite gtb_leb. destruct (Datetime.gtb (when e) now); cbn [negb]; [|reflexivity].
  rewrite enqueue_fresh_jobs; [reflexivity|]. intros j [].
Qed.

Lemma recovered_jobs_future now data j :
  In j (recovered_jobs now data) ->
  Datetime.gtb (when (jd_event (job_data j))) now = true.
Proof.
  unfold recovered_jobs, owner_jobs. intros H.
  apply in_flat_map in H. destruct H as ([k evs] & _ & H). cbn [fst snd] in H.
  destruct (int_of_str k) as [uid|]; [|contradiction].
  apply in_flat_map in H. destruct H as (e & _ & H).
  destruct (Datetime.gtb (when e) now) eqn:G; [|contradiction].
  unfold derived_jobs in H. destruct H as [<- | H]; [exact G|].
  apply in_map_iff in H. destruct H as (off & <- & _). exact G.
Qed.

(** Claim C4.  Recovery is a projection of the store.  With no timer
    in memory, a clock standing at [now] and event ids unique across the
    store, [reschedule_all_events] ends normally and leaves exactly, owner
    by owner and event by event, the timers that the creation path
    registers for each event with [when] strictly after [now]
    ([creation_timers]); no timer belongs to an event with
    [when <= now]. *)
Theorem recovery_matches_creation (env : Env) (store : FS.path) (w : World)
    (data : Dict.dict (list Event)) (now : datetime) :
  (forall i, clock env i = now) ->
  valid now = true -> 2 <= year now <= 9998 ->
  jobs w = [] ->
  fst (load_all store w) = Ok data ->
  NoDup (map id (flat_map snd data)) ->
  exists w',
    reschedule_all_events env store w = (Ok tt, w')
    /\ map snd (jobs w')
       = flat_map (fun entry =>
           match int_of_str (fst entry) with
           | Some user_id =>
               flat_map (fun e => if Datetime.gtb (when e) now
                                  then creation_timers env user_id e else [])
                        (snd entry)
           | None => []
           end) data
    /\ (forall j, In j (map snd (jobs w')) ->
          Datetime.leb (when (jd_event (job_data j))) now = false).
Proof.
  intros Hfrozen Vn Hy Hj Hload ND.
  destruct (reschedule_all_events_spec env store w data now
              Hfrozen Vn Hy Hj Hload ND) as (w' & E & J).
  exists w'. split; [exact E|]. split.
  - rewrite J. unfold recovered_jobs, owner_jobs.
    unfold load_all in Hload. rewrite _read_eq in Hload. cbn [fst] in Hload.
    pose proof (decode_valid_disk _ _ _ Hload) as V. clear - V Hfrozen Vn Hy.
    induction V as [|[k evs] data' Ve _ IH]; [reflexivity|].
    cbn [flat_map fst snd]. rewrite IH. f_equal.
    destruct (int_of_str k) as [uid|]; [|reflexivity].
    cbn [snd] in Ve. clear IH. induction Ve as [|e evs' Vw _ IHe]; [reflexivity|].
    cbn [flat_map]. rewrite IHe. f_equal.
    rewrite (creation_timers_spec env uid e now Hfrozen Vn Hy Vw).
    now destruct (Datetime.gtb (when e) now).
  - intros j Hin. rewrite J in Hin. apply recovered_jobs_future in Hin.
    rewrite gtb_leb, Hin. reflexivity.
Qed.

(** Claim C8, as amended.  Recovery skips an owner whose key is not an
    integer, and only that: the timers it leaves are those of the store
    without that owner's entry, so every future event of every other
    owner is scheduled.  A corrupt event record is not skipped: when
    [load_all] raises, [reschedule_all_events] raises the same exception
    and changes nothing, and [load_all] does raise as soon as one record
    of one owner is turned down by [Event.from_dict]. *)
Theorem recovery_skips_owner_not_record (env : Env) (store : FS.path)
    (w : World) (now : datetime) :
  (forall i, clock env i = now) ->
  valid now = true -> 2 <= year now <= 9998 ->
  jobs w = [] ->
  (forall data,
     fst (load_all store w) = Ok data ->
     NoDup (map id (flat_map snd data)) ->
     exists w',
       reschedule_all_events env store w = (Ok tt, w')
       /\ map snd (jobs w') = recovered_jobs now data
       /\ forall before k evs after,
            data = before ++ (k, evs) :: after -> int_of_str k = None ->
            recovered_jobs now data = recovered_jobs now (before ++ after))
  /\ (forall x,
        fst (load_all store w) = Raise x ->
        reschedule_all_events env store w = (Raise x, w))
  /\ (forall members k items item x,
        FS.lookup store (FS.files (disk w)) = Some (FS.Document (JObj members)) ->
        In (k, JArr items) members -> In item items ->
        from_dict item = Raise x ->
        exists x', fst (load_all store w) = Raise x').
Proof.
  intros Hfrozen Vn Hy Hj. split; [|split].
  - intros data Hload ND.
    destruct (reschedule_all_events_spec env store w data now
                Hfrozen Vn Hy Hj Hload ND) as (w' & E & J).
    exists w'. split; [exact E|]. split; [exact J|].
    intros before k evs after -> Hk. unfold recovered_jobs.
    rewrite !flat_map_app. cbn [flat_map fst]. now rewrite Hk.
  - intros x Hload. unfold load_all in Hload. rewrite _read_eq in Hload.
    cbn [fst] in Hload.
    unfold reschedule_all_events, bind, load_all. now rewrite _read_eq, Hload.
  - intros members k items item x Hfile Hin Hitem Hbad.
    unfold load_all. rewrite _read_eq. cbn [fst]. unfold read_disk.
    rewrite Hfile. unfold decode.
    destruct (rmap_raises from_dict items item x Hitem Hbad) as [x1 Hx1].
    eapply (rmap_raises _ members (k, JArr items)); [exact Hin|].
    cbn [snd decode_items]. rewrite Hx1. reflexivity.
Qed.

Lemma recovery_aborts_on_corrupt_record :
  let env := frozen_env (mkDatetime 2024 12 1 12 0 0 0) in
  let w := set_disk corrupt_store fresh_world in
  reschedule_all_events env STORAGE_PATH w = (Raise KeyError, w)
  /\ jobs w = []
  /\ map snd (jobs (snd (reschedule_all_events env STORAGE_PATH
                           (set_disk sound_store fresh_world))))
     = derived_jobs 2 party (mkDatetime 2024 12 1 12 0 0 0)
  /\ derived_jobs 2 party (mkDatetime 2024 12 1 12 0 0 0) <> [].
Proof.
  cbv zeta. split; [|split; [|split]].
  - vm_compute. reflexivity.
  - reflexivity.
  - vm_compute. reflexivity.
  - discriminate.
Qed.

(** ** The daily countdown and the entry paths: claims C6, C2 and C1 *)

Lemma nine_fields dt :
  valid dt = true -> time_of_day dt = NINE ->
  hour dt = 9 /\ minute dt = 0 /\ second dt = 0 /\ microsecond dt = 0.
Proof.
  intros V H. apply valid_spec in V.
  unfold time_of_day, NINE, US_PER_SECOND in H. lia.
Qed.

(** Claim C6, as amended.  The first firing of the daily countdown is
    the next 09:00 strictly after [now]: a well-formed datetime at
    09:00:00 that is after [now] and not after any other 09:00 after
    [now]; it is today's 09:00 when [now] is strictly before it, and the
    09:00 of the next day when [now] is at or after today's 09:00.
    [schedule_daily_counter] registers the repeating timer with that
    first firing (as a delay from [now]) and an interval of one day. *)
Theorem daily_first_run (user_id : Z) (e : Event) (now : datetime) (w : World) :
  valid now = true -> year now <= 9998 -> wf_jobs w ->
  let today := combine (date_of now) DAILY_REMINDER_TIME in
  exists fr,
    first_run now = Ok fr
    /\ valid fr = true
    /\ (hour fr = 9 /\ minute fr = 0 /\ second fr = 0 /\ microsecond fr = 0)
    /\ (Datetime.ltb now today = true -> fr = today)
    /\ (Datetime.leb today now = true -> toordinal fr = toordinal now + 1)
    /\ Datetime.gtb fr now = true
    /\ (forall x, valid x = true -> time_of_day x = NINE ->
          Datetime.gtb x now = true -> Datetime.leb fr x = true)
    /\ schedule_daily_counter user_id e now w
       = (Ok tt,
          enqueue [mkJob (daily_job_name user_id e)
                         (RunRepeating (mk_timedelta 1 0 0 0)
                                       (Datetime.diff fr now))
                         DailyCountdown (mkJobData user_id e None)] w).
Proof.
  intros V Hy Hwf today.
  destruct (first_run_spec now V Hy) as (fr & Hfr & Vf & Hd & Ht & Ho).
  pose proof (combine_nine_valid now V) as Vt. fold today in Vt.
  assert (Et : to_delta today = toordinal now * US_PER_DAY + NINE).
  { rewrite to_delta_split. reflexivity. }
  pose proof (to_delta_split now) as En.
  pose proof (to_delta_split fr) as Ef. rewrite Ht in Ef.
  pose proof (time_of_day_range now V) as Tn.
  exists fr. split; [exact Hfr|]. split; [exact Vf|].
  split; [now apply nine_fields|].
  split; [|split; [|split; [|split]]].
  - intros L. unfold first_run in Hfr. fold today in Hfr.
    unfold Datetime.gtb in Hfr. rewrite L in Hfr. now injection Hfr.
  - rewrite (leb_to_delta _ _ Vt V). intros L. apply Z.leb_le in L.
    rewrite Ho. replace (time_of_day now <? NINE) with false; [reflexivity|].
    symmetry. apply Z.ltb_ge. lia.
  - rewrite (gtb_to_delta _ _ Vf V). apply Z.ltb_lt.
    destruct (time_of_day now <? NINE) eqn:E;
      [apply Z.ltb_lt in E | apply Z.ltb_ge in E];
      unfold NINE, US_PER_DAY, US_PER_SECOND in *; lia.
  - intros x Vx Hx G. rewrite (gtb_to_delta _ _ Vx V) in G. apply Z.ltb_lt in G.
    rewrite (leb_to_delta _ _ Vf Vx). apply Z.leb_le.
    pose proof (to_delta_split x) as Ex. rewrite Hx in Ex.
    destruct (time_of_day now <? NINE) eqn:E;
      [apply Z.ltb_lt in E | apply Z.ltb_ge in E];
      unfold NINE, US_PER_DAY, US_PER_SECOND in *; lia.
  - rewrite (schedule_daily_counter_spec user_id e now w V Hy Hwf).
    unfold daily_job. now rewrite Hd.
Qed.

Lemma daily_first_run_witness :
  exists fr,
    first_run (mkDatetime 2024 12 1 12 0 0 0) = Ok fr
    /\ valid fr = true
    /\ (hour fr = 9 /\ minute fr = 0 /\ second fr = 0 /\ microsecond fr = 0)
    /\ (Datetime.ltb (mkDatetime 2024 12 1 12 0 0 0)
                     (mkDatetime 2024 12 1 9 0 0 0) = true ->
        fr = mkDatetime 2024 12 1 9 0 0 0)
    /\ (Datetime.leb (mkDatetime 2024 12 1 9 0 0 0)
                     (mkDatetime 2024 12 1 12 0 0 0) = true ->
        toordinal fr = toordinal (mkDatetime 2024 12 1 12 0 0 0) + 1)
    /\ Datetime.gtb fr (mkDatetime 2024 12 1 12 0 0 0) = true
    /\ (forall x, valid x = true -> time_of_day x = NINE ->
          Datetime.gtb x (mkDatetime 2024 12 1 12 0 0 0) = true ->
          Datetime.leb fr x = true)
    /\ schedule_daily_counter 7 party (mkDatetime 2024 12 1 12 0 0 0) fresh_world
       = (Ok tt,
          enqueue [mkJob (daily_job_name 7 party)
                         (RunRepeating (mk_timedelta 1 0 0 0)
                            (Datetime.diff fr (mkDatetime 2024 12 1 12 0 0 0)))
                         DailyCountdown (mkJobData 7 party None)] fresh_world).
Proof.
  apply (daily_first_run 7 party (mkDatetime 2024 12 1 12 0 0 0) fresh_world).
  - reflexivity.
  - cbn. lia.
  - split; constructor.
Defined.

Example first_run_after_noon :
  first_run (mkDatetime 2024 12 1 12 0 0 0) = Ok (mkDatetime 2024 12 2 9 0 0 0).
Proof. reflexivity. Qed.

Lemma first_run_at_nine_sharp :
  let now := mkDatetime 2024 12 1 9 0 0 0 in
  let today := combine (date_of now) DAILY_REMINDER_TIME in
  valid now = true
  /\ Datetime.leb now today = true
  /\ Datetime.leb today now = true
  /\ first_run now = Ok (mkDatetime 2024 12 2 9 0 0 0)
  /\ first_run now <> Ok today.
Proof. cbv zeta. repeat split; try reflexivity. discriminate. Qed.

(** Claim C2, as amended.  A firing of the daily countdown at [now]
    cancels its timer, sending nothing, exactly when [when e <= now];
    otherwise it sends the notification with
    [days_left = (when e).date() - now.date()] and keeps the timer.  A
    negative [days_left] always cancels and a positive one always
    notifies; when [days_left] is zero the firing cancels only if the
    event's time of day has been reached, and notifies "0" before it. *)
Theorem daily_countdown_outcome (env : Env) (jid : nat) (job : Job) (w : World) :
  let e := jd_event (job_data job) in
  let now := clock env (clock_reads w) in
  let days_left := date_diff_days (date_of (when e)) (date_of now) in
  valid (when e) = true -> valid now = true ->
  (Datetime.leb (when e) now = true ->
     daily_countdown env jid job w = schedule_removal jid (tick w)
     /\ sent (snd (daily_countdown env jid job w)) = sent w
     /\ days_left <= 0)
  /\ (Datetime.leb (when e) now = false ->
        daily_countdown env jid job w
        = send_message (chat_id e)
            ("До события " ++ dquote ++ title e ++ dquote ++ " осталось "
             ++ str_of_int days_left ++ " дней.")%string (tick w)
        /\ jobs (snd (daily_countdown env jid job w)) = jobs w
        /\ 0 <= days_left)
  /\ (days_left < 0 -> Datetime.leb (when e) now = true)
  /\ (0 < days_left -> Datetime.leb (when e) now = false).
Proof.
  intros e now days_left Vw Vn.
  assert (Hrun : daily_countdown env jid job w
                 = if Datetime.leb (when e) now then schedule_removal jid (tick w)
                   else send_message (chat_id e)
                          ("До события " ++ dquote ++ title e ++ dquote
                           ++ " осталось " ++ str_of_int days_left ++ " дней.")%string
                          (tick w)).
  { unfold daily_countdown, bind, datetime_now. fold e now (tick w).
    destruct (Datetime.leb (when e) now); reflexivity. }
  pose proof (to_delta_split (when e)) as Ew.
  pose proof (to_delta_split now) as En.
  pose proof (time_of_day_range _ Vw) as Tw.
  pose proof (time_of_day_range _ Vn) as Tn.
  assert (Hd : days_left = toordinal (when e) - toordinal now) by reflexivity.
  rewrite (leb_to_delta _ _ Vw Vn) in *.
  unfold US_PER_DAY, US_PER_SECOND in *.
  split; [|split; [|split]].
  - intros L. rewrite Hrun, L. apply Z.leb_le in L.
    split; [reflexivity|]. split; [reflexivity|]. lia.
  - intros L. rewrite Hrun, L. apply Z.leb_gt in L.
    split; [reflexivity|]. split; [reflexivity|]. lia.
  - intros H. apply Z.leb_le. lia.
  - intros H. apply Z.leb_gt. lia.
Qed.

Lemma daily_countdown_outcome_witness :
  let env := frozen_env (mkDatetime 2025 1 1 9 0 0 0) in
  let job := daily_job 7 party (mkDatetime 2024 12 1 12 0 0 0) in
  let w := enqueue [job] fresh_world in
  daily_countdown env 0 job w = schedule_removal 0 (tick w)
  /\ sent (snd (daily_countdown env 0 job w)) = sent w
  /\ date_diff_days (date_of (when party)) (date_of (clock env 0)) <= 0.
Proof.
  cbv zeta.
  apply (proj1 (daily_countdown_outcome
                  (frozen_env (mkDatetime 2025 1 1 9 0 0 0)) 0
                  (daily_job 7 party (mkDatetime 2024 12 1 12 0 0 0))
                  (enqueue [daily_job 7 party (mkDatetime 2024 12 1 12 0 0 0)]
                           fresh_world)
                  eq_refl eq_refl)).
  reflexivity.
Defined.

Lemma countdown_on_event_day :
  let env := frozen_env (mkDatetime 2024 12 31 9 0 0 0) in
  let job := daily_job 7 party (mkDatetime 2024 12 1 12 0 0 0) in
  let w := enqueue [job] fresh_world in
  date_diff_days (date_of (when party)) (date_of (clock env (clock_reads w))) = 0
  /\ jobs w = [(0%nat, job)]
  /\ fst (daily_countdown env 0 job w) = Ok tt
  /\ jobs (snd (daily_countdown env 0 job w)) = [(0%nat, job)]
  /\ sent (snd (daily_countdown env 0 job w))
     = [(70, ("До события " ++ dquote ++ "party" ++ dquote
              ++ " осталось 0 дней.")%string)].
Proof. cbv zeta. repeat split; vm_compute; reflexivity. Qed.

(** Claim C1, as amended.  For a moment [wh] that is not strictly after
    the clock's reading: [create_event_and_schedule] does not check it;
    it still adds the event to the store and returns it, and only
    registers no timer.  The check is made by its two callers:
    [add_event_command] and [add_event_date] answer that the date must be
    in the future and leave the store and the job queue as they were. *)
Theorem not_future_is_turned_down_by_callers (env : Env) (store : FS.path)
    (wh : datetime) (w : World) :
  Datetime.leb wh (clock env (clock_reads w)) = true ->
  (forall user chat title data,
     valid wh = true ->
     fst (load_all store w) = Ok data ->
     let e := mkEvent (uuid4 env (uuid_reads w)) title wh chat in
     exists w' new,
       create_event_and_schedule env store user chat title wh w = (Ok e, w')
       /\ jobs w' = jobs w
       /\ fst (list_events store user w') = Ok new
       /\ In e new)
  /\ (forall update args text user chat cmd payload t d,
        message update = Some text ->
        effective_user update = Some user ->
        effective_chat update = Some chat ->
        args <> [] ->
        split_once " " text = Some (cmd, payload) ->
        split_once ";" payload = Some (t, d) ->
        strip t <> "" ->
        parse_datetime env (strip d) = Some wh ->
        exists w',
          add_event_command env store update args w = (Ok tt, w')
          /\ disk w' = disk w /\ jobs w' = jobs w
          /\ replies w' = replies w ++ ["Дата должна быть в будущем."])
  /\ (forall update raw user chat,
        message update = Some raw ->
        effective_user update = Some user ->
        effective_chat update = Some chat ->
        String.eqb (lower env (strip raw)) "отмена" = false ->
        parse_datetime env (strip raw) = Some wh ->
        exists w',
          add_event_date env store update w = (Ok DATE, w')
          /\ disk w' = disk w /\ jobs w' = jobs w
          /\ replies w'
             = replies w
               ++ ["Дата должна быть в будущем. Попробуй ещё раз или Отмена."]).
Proof.
  intros L. split; [|split].
  - intros user chat title data Vw Hload e.
    unfold load_all in Hload. rewrite _read_eq in Hload. cbn [fst] in Hload.
    set (key := str_of_int user).
    set (old := Dict.get_default key [] data).
    set (new := sort_by_when (old ++ [e])).
    set (data' := Dict.set key new data).
    pose proof (decode_valid_disk store (disk w) data Hload) as Vd.
    assert (Pn : Permutation (old ++ [e]) new) by apply sort_by_when_perm.
    assert (Vnew : Forall (fun x => valid (when x) = true) new).
    { apply (Forall_perm _ (old ++ [e])); [exact Pn|].
      apply Forall_app. split; [now apply all_valid_get|]. now constructor. }
    assert (Vd' : all_valid data') by now apply all_valid_set.
    eexists. exists new. split; [|split; [|split]].
    + unfold create_event_and_schedule, bind at 1, new_uuid at 1.
      fold (drawn w). fold e. unfold bind at 1.
      rewrite (add_event_spec store user e (drawn w) data Hload).
      fold key old new data'. unfold bind at 1.
      unfold schedule_event_jobs, bind at 1, datetime_now at 1.
      cbn [clock_reads set_disk drawn]. change (when e) with wh.
      rewrite L. reflexivity.
    + reflexivity.
    + unfold list_events, bind. rewrite _read_eq. cbn [disk set_disk drawn fst].
      rewrite read_disk_after_write, (decode_encode _ Vd'). cbn [fst ret].
      unfold Dict.get_default. fold key. unfold data'.
      rewrite dict_get_set_same. f_equal. apply sort_sorted_id.
      apply sort_by_when_sorted.
    + eapply Permutation_in; [exact Pn|]. apply in_or_app. right. now left.
  - intros update args text user chat cmd payload t d Hm Hu Hc Ha Hs1 Hs2 Ht Hp.
    unfold add_event_command. rewrite Hm, Hu, Hc.
    destruct args as [|a args]; [congruence|].
    rewrite Hs1, Hs2. destruct (strip t) eqn:Et; [congruence|].
    rewrite Hp. unfold bind, datetime_now. rewrite L.
    eexists. split; [reflexivity|]. repeat split.
  - intros update raw user chat Hm Hu Hc Hl Hp.
    unfold add_event_date. rewrite Hm, Hu, Hc, Hl, Hp.
    unfold bind at 1, datetime_now at 1. rewrite L.
    eexists. split; [reflexivity|]. repeat split.
Qed.

Lemma not_future_is_turned_down_by_callers_witness :
  let now := mkDatetime 2024 12 1 12 0 0 0 in
  let env := reading_env now in
  Datetime.leb (mkDatetime 2024 11 30 8 0 0 0) (clock env 0) = true
  /\ (exists w',
        add_event_date env STORAGE_PATH
          (mkUpdate (Some "2024-11-30 08:00") (Some 7) (Some 70)) fresh_world
        = (Ok DATE, w')
        /\ disk w' = disk fresh_world /\ jobs w' = jobs fresh_world
        /\ replies w'
           = replies fresh_world
             ++ ["Дата должна быть в будущем. Попробуй ещё раз или Отмена."]).
Proof.
  cbv zeta. split; [reflexivity|].
  apply (proj2 (proj2 (not_future_is_turned_down_by_callers
                         (reading_env (mkDatetime 2024 12 1 12 0 0 0))
                         STORAGE_PATH (mkDatetime 2024 11 30 8 0 0 0)
                         fresh_world eq_refl))
           (mkUpdate (Some "2024-11-30 08:00") (Some 7) (Some 70))
           "2024-11-30 08:00" 7 70); reflexivity.
Defined.

Lemma create_event_accepts_past_moment :
  let now := mkDatetime 2024 12 1 12 0 0 0 in
  let env := frozen_env now in
  let r := create_event_and_schedule env STORAGE_PATH 7 70 "party" now
             fresh_world in
  Datetime.leb now (clock env 0) = true
  /\ fst (list_events STORAGE_PATH 7 fresh_world) = Ok []
  /\ fst r = Ok (mkEvent "uuid-0" "party" now 70)
  /\ fst (list_events STORAGE_PATH 7 (snd r))
     = Ok [mkEvent "uuid-0" "party" now 70]
  /\ jobs (snd r) = [].
Proof. cbv zeta. repeat split; vm_compute; reflexivity. Qed.

(** ** Instances of the statements above *)

Lemma reminders_registered_witness :
  schedule_event_reminders 7 soon noon fresh_world
  = (Ok tt, enqueue (map (reminder_job 7 soon noon) (due_offsets soon noon))
                    fresh_world)
  /\ due_offsets soon noon = [mk_timedelta 0 0 5 0; mk_timedelta 0 0 0 0].
Proof.
  destruct (reminders_registered 7 soon noon fresh_world)
    as (H1 & _ & H3).
  - reflexivity.
  - reflexivity.
  - cbn. lia.
  - reflexivity.
  - split; constructor.
  - split; [exact H1 | apply H3; reflexivity].
Defined.

Lemma derivation_idempotent_witness :
  let w1 := snd (schedule_event_jobs (frozen_env noon) 7 party fresh_world) in
  let w2 := snd (schedule_event_jobs (frozen_env noon) 7 party w1) in
  fst (schedule_event_jobs (frozen_env noon) 7 party fresh_world) = Ok tt
  /\ fst (schedule_event_jobs (frozen_env noon) 7 party w1) = Ok tt
  /\ map snd (jobs w2) = map snd (jobs w1).
Proof.
  cbv zeta.
  destruct (derivation_idempotent (frozen_env noon) 7 party fresh_world)
    as (H1 & H2 & H3 & _).
  - reflexivity.
  - reflexivity.
  - reflexivity.
  - cbn. lia.
  - split; constructor.
  - split; [exact H1 | split; [exact H2 | exact H3]].
Defined.

Lemma recovery_matches_creation_witness :
  exists w',
    reschedule_all_events (frozen_env noon) STORAGE_PATH
      (set_disk sound_store fresh_world) = (Ok tt, w')
    /\ map snd (jobs w') = creation_timers (frozen_env noon) 2 party.
Proof.
  destruct (recovery_matches_creation (frozen_env noon) STORAGE_PATH
              (set_disk sound_store fresh_world) [("2", [party])] noon)
    as (w' & E & J & _).
  - intros i. reflexivity.
  - reflexivity.
  - cbn. lia.
  - reflexivity.
  - vm_compute. reflexivity.
  - cbn. constructor; [intros [] | constructor].
  - exists w'. split; [exact E|]. rewrite J. cbn [flat_map fst snd].
    change (int_of_str "2") with (Some 2).
    change (Datetime.gtb (when party) noon) with true.
    now rewrite !app_nil_r.
Defined.

Lemma recovery_skips_owner_not_record_witness :
  reschedule_all_events (frozen_env noon) STORAGE_PATH
    (set_disk corrupt_store fresh_world)
  = (Raise KeyError, set_disk corrupt_store fresh_world).
Proof.
  destruct (recovery_skips_owner_not_record (frozen_env noon) STORAGE_PATH
              (set_disk corrupt_store fresh_world) noon) as (_ & H & _).
  - intros i. reflexivity.
  - reflexivity.
  - cbn. lia.
  - reflexivity.
  - apply H. vm_compute. reflexivity.
Defined.

(* ================================================================= *)
(** ** Further properties of the code *)

(** *** Texts *)



(** X2.  A reminder that the scheduler registered never fails when it
    fires: its job carries the offset, and [event_reminder] sends one
    message, to the chat of the event, with one of five texts, touching
    nothing else. *)
Theorem event_reminder_of_derived_job (user_id : Z) (e : Event) (now : datetime)
    (j : Job) (w : World) :
  In j (derived_jobs user_id e now) -> job_callback j = EventReminder ->
  exists text,
    In text (reminder_texts e)
    /\ event_reminder j w = send_message (chat_id e) text w.
Proof.
  unfold derived_jobs. intros [<- | Hj] Hc; [discriminate Hc|].
  apply in_map_iff in Hj. destruct Hj as (off & <- & Hoff).
  unfold due_offsets in Hoff. apply filter_In in Hoff. destruct Hoff as [Hoff _].
  unfold event_reminder. cbn [job_data reminder_job jd_offset jd_event].
  unfold reminder_texts. cbn [map].
  unfold REMINDER_OFFSETS in Hoff. cbn [In] in Hoff.
  destruct Hoff as [<- | [<- | [<- | [<- | [<- | []]]]]];
    eexists; (split; [|reflexivity]); cbn; tauto.
Qed.

Lemma event_reminder_of_derived_job_witness :
  exists text,
    In text (reminder_texts soon)
    /\ event_reminder (reminder_job 7 soon noon (mk_timedelta 0 0 5 0)) fresh_world
       = send_message (chat_id soon) text fresh_world.
Proof.
  apply (event_reminder_of_derived_job 7 soon noon).
  - right. left. reflexivity.
  - reflexivity.
Defined.

(** *** The job queue *)

Lemma live_count_zero name q :
  live_count name q = 0%nat <->
  (forall j, In j q -> job_name (snd j) <> name).
Proof.
  unfold live_count. rewrite length_zero_iff_nil. split.
  - intros H j Hj E.
    assert (Hin : In j (filter (fun j => String.eqb (job_name (snd j)) name) q)).
    { apply filter_In. split; [exact Hj|]. now apply String.eqb_eq. }
    rewrite H in Hin. contradiction.
  - intros H. apply filter_none. intros j Hj. apply String.eqb_neq. now apply H.
Qed.

Lemma in_without names q j :
  In j (without names q) <-> In j q /\ ~ In (job_name (snd j)) names.
Proof.
  unfold without. rewrite filter_In, negb_true_iff. split; intros [H1 H2]; split; auto.
  - intros Hin. apply not_true_iff_false in H2. apply H2.
    apply existsb_exists. exists (job_name (snd j)).
    split; [exact Hin | apply String.eqb_refl].
  - apply not_true_is_false. intros E. apply existsb_exists in E.
    destruct E as (n & Hn & En). apply String.eqb_eq in En. now subst n.
Qed.

(** X3.  With unique job identities, [remove_existing_jobs name] ends
    normally, leaves no live job of that name, keeps every job of another
    name (in queue order, the rest of the world untouched), and changes
    nothing at all when no job bears the name. *)
Theorem remove_existing_jobs_cancels (name : string) (w : World) :
  wf_jobs w ->
  exists q,
    remove_existing_jobs name w = (Ok tt, set_jobs q w)
    /\ live_count name q = 0%nat
    /\ (forall j, In j q <-> In j (jobs w) /\ job_name (snd j) <> name)
    /\ q = filter (fun j => negb (String.eqb (job_name (snd j)) name)) (jobs w)
    /\ (live_count name (jobs w) = 0%nat -> set_jobs q w = w)
    /\ wf_jobs (set_jobs q w).
Proof.
  intros Hwf. exists (without [name] (jobs w)).
  assert (Hin : forall j, In j (without [name] (jobs w))
                          <-> In j (jobs w) /\ job_name (snd j) <> name).
  { intros j. rewrite in_without. cbn [In]. intuition. }
  split; [now apply remove_existing_jobs_spec|]. split; [|split; [|split; [|split]]].
  - apply live_count_zero. intros j Hj. now apply Hin in Hj.
  - exact Hin.
  - unfold without. apply filter_ext. intros j. cbn [existsb].
    now rewrite orb_false_r.
  - intros H0. rewrite without_fresh.
    + unfold set_jobs. apply world_eta.
    + rewrite live_count_zero in H0. intros j Hj [E | []]. now apply (H0 j Hj).
  - destruct Hwf as [ND Hlt]. split; cbn [jobs set_jobs next_job].
    + clear Hin Hlt. unfold without.
      induction (jobs w) as [|j q IH]; cbn; [constructor|].
      inversion ND as [|? ? Hn ND']; subst.
      destruct (negb _); cbn; auto. constructor; auto.
      intros Hi. apply Hn. apply in_map_iff in Hi. destruct Hi as (x & Ex & Hx).
      apply filter_In in Hx. rewrite <- Ex. apply in_map. tauto.
    + rewrite Forall_forall in *. intros j Hj. apply Hlt. now apply Hin in Hj.
Qed.

Lemma remove_existing_jobs_cancels_witness :
  exists q,
    remove_existing_jobs "daily-7-uuid-0"
      (enqueue (derived_jobs 7 party noon) fresh_world)
    = (Ok tt, set_jobs q (enqueue (derived_jobs 7 party noon) fresh_world))
    /\ live_count "daily-7-uuid-0" q = 0%nat
    /\ List.length q = 5%nat.
Proof.
  destruct (remove_existing_jobs_cancels "daily-7-uuid-0"
              (enqueue (derived_jobs 7 party noon) fresh_world))
    as (q & E & L & _ & Eq & _).
  - apply wf_enqueue. split; constructor.
  - exists q. split; [exact E|]. split; [exact L|]. rewrite Eq. reflexivity.
Defined.

(** X4.  Timer names tell the timers apart: two timers derived for
    events, at whatever times, bear the same name only if they belong to
    the same owner and the same event id, have the same callback and, for
    reminders, the same offset. *)
Theorem timer_names_injective (user_id user_id' : Z) (e e' : Event)
    (now now' : datetime) (j j' : Job) :
  In j (derived_jobs user_id e now) -> In j' (derived_jobs user_id' e' now') ->
  job_name j = job_name j' ->
  user_id = user_id' /\ id e = id e'
  /\ job_callback j = job_callback j'
  /\ jd_offset (job_data j) = jd_offset (job_data j').
Proof.
  unfold derived_jobs. intros [<- | Hj] [<- | Hj'] E; cbn in E.
  - apply daily_job_name_inj in E. cbn. tauto.
  - apply in_map_iff in Hj'. destruct Hj' as (o' & <- & _). cbn in E.
    now apply daily_reminder_name_neq in E.
  - apply in_map_iff in Hj. destruct Hj as (o & <- & _). cbn in E.
    symmetry in E. now apply daily_reminder_name_neq in E.
  - apply in_map_iff in Hj. destruct Hj as (o & <- & Ho).
    apply in_map_iff in Hj'. destruct Hj' as (o' & <- & Ho'). cbn in E |- *.
    pose proof (due_offsets_nonneg _ _ _ Ho) as Po.
    pose proof (due_offsets_nonneg _ _ _ Ho') as Po'.
    apply reminder_job_name_inj in E; [|exact Po|exact Po'].
    destruct E as (-> & Ei & Es). repeat split; auto.
    unfold due_offsets in Ho, Ho'. apply filter_In in Ho, Ho'.
    destruct Ho as [Ho _], Ho' as [Ho' _].
    unfold REMINDER_OFFSETS in Ho, Ho'. cbn [In] in Ho, Ho'.
    destruct Ho as [<- | [<- | [<- | [<- | [<- | []]]]]];
    destruct Ho' as [<- | [<- | [<- | [<- | [<- | []]]]]];
      first [reflexivity | discriminate Es].
Qed.

Lemma timer_names_injective_witness :
  7 = 7 /\ id party = id party
  /\ job_callback (daily_job 7 party noon)
     = job_callback (daily_job 7 party (mkDatetime 2024 12 30 8 0 0 0))
  /\ jd_offset (job_data (daily_job 7 party noon))
     = jd_offset (job_data (daily_job 7 party (mkDatetime 2024 12 30 8 0 0 0))).
Proof.
  apply (timer_names_injective 7 7 party party noon
           (mkDatetime 2024 12 30 8 0 0 0)).
  - left. reflexivity.
  - left. reflexivity.
  - reflexivity.
Defined.

(** X5.  Deriving the timers of one event leaves the live timers of every
    other event as they are: a job whose name belongs to an event of
    another id is still in the queue, under the same identity, after
    [schedule_event_jobs]. *)
Theorem scheduling_keeps_other_timers (env : Env) (user_id : Z) (e : Event)
    (w : World) (n : nat) (j : Job) (i : string) :
  let now := clock env (clock_reads w) in
  valid (when e) = true -> valid now = true -> 2 <= year now <= 9998 ->
  wf_jobs w ->
  In (n, j) (jobs w) -> named_for i (job_name j) -> i <> id e ->
  fst (schedule_event_jobs env user_id e w) = Ok tt
  /\ In (n, j) (jobs (snd (schedule_event_jobs env user_id e w))).
Proof.
  intros now Vw Vn Hy Hwf Hin Hnamed Hi.
  rewrite (schedule_event_jobs_spec env user_id e w Vw Vn Hy Hwf). fold now.
  split; [reflexivity|]. cbn [snd].
  destruct (Datetime.leb (when e) now); [exact Hin|].
  unfold enqueue. cbn [jobs tick]. apply in_or_app. left.
  apply in_without. split; [exact Hin|]. cbn [snd]. intros Hn.
  apply in_map_iff in Hn. destruct Hn as (j' & Ej & Hj').
  apply derived_jobs_named in Hj'. rewrite Ej in Hj'.
  apply Hi. eapply named_for_inj; eauto.
Qed.

Lemma scheduling_keeps_other_timers_witness :
  fst (schedule_event_jobs (frozen_env noon) 7 soon
         (enqueue (derived_jobs 7 party noon) fresh_world)) = Ok tt
  /\ In (0%nat, daily_job 7 party noon)
        (jobs (snd (schedule_event_jobs (frozen_env noon) 7 soon
                      (enqueue (derived_jobs 7 party noon) fresh_world)))).
Proof.
  apply (scheduling_keeps_other_timers (frozen_env noon) 7 soon
           (enqueue (derived_jobs 7 party noon) fresh_world)
           0%nat (daily_job 7 party noon) "uuid-0").
  - reflexivity.
  - reflexivity.
  - cbn. lia.
  - apply wf_enqueue. split; constructor.
  - left. reflexivity.
  - exists 7, party. split; [reflexivity|]. left. reflexivity.
  - discriminate.
Defined.

(** X6.  The owner key that [add_event] writes, [str(user_id)], is read
    back by the recovery pass, [int(user_id_str)], as the same owner, and
    two owners never share a key. *)
Theorem owner_key_roundtrip (user_id user_id' : Z) :
  int_of_str (str_of_int user_id) = Some user_id
  /\ (str_of_int user_id = str_of_int user_id' -> user_id = user_id').
Proof. split; [apply int_of_str_of_int | apply str_of_int_inj]. Qed.

(** *** Sorting *)

Lemma lex_compare_eq xs : forall ys, lex_compare xs ys = Eq -> xs = ys.
Proof.
  induction xs as [|x xs IH]; intros [|y ys]; cbn; try discriminate; auto.
  destruct (Z.compare_spec x y) as [Exy | Exy | Exy]; try discriminate.
  intros Hr. subst. f_equal. now apply IH.
Qed.

Lemma same_when_not_earlier t x e :
  same_when t e = true -> Datetime.ltb (when x) (when e) = true ->
  same_when t x = false.
Proof.
  unfold same_when, Datetime.ltb, compare.
  destruct (lex_compare (fields (when e)) (fields t)) eqn:E; try discriminate.
  apply lex_compare_eq in E. rewrite <- E. intros _.
  destruct (lex_compare (fields (when x)) (fields (when e))); congruence.
Qed.

Lemma filter_insert_by_when t e l :
  filter (same_when t) (insert_by_when e l)
  = if same_when t e then e :: filter (same_when t) l
    else filter (same_when t) l.
Proof.
  induction l as [|x l IH]; cbn [insert_by_when].
  - cbn. now destruct (same_when t e).
  - destruct (Datetime.ltb (when x) (when e)) eqn:L.
    + cbn [filter]. rewrite IH. destruct (same_when t e) eqn:S.
      * now rewrite (same_when_not_earlier t x e S L).
      * reflexivity.
    + cbn [filter]. now destruct (same_when t e).
Qed.

(** X7.  The sort of [add_event] and [list_events] is stable: the events
    of any one moment come out in the order in which they stood. *)
Theorem sort_by_when_stable (t : datetime) (events : list Event) :
  filter (same_when t) (sort_by_when events) = filter (same_when t) events.
Proof.
  induction events as [|e l IH]; [reflexivity|].
  change (sort_by_when (e :: l)) with (insert_by_when e (sort_by_when l)).
  rewrite filter_insert_by_when, IH. cbn [filter].
  now destruct (same_when t e).
Qed.

(** *** The store *)

Lemma load_all_eq path w : load_all path w = (read_disk path (disk w), w).
Proof. apply _read_eq. Qed.

Lemma list_events_eq path user w :
  list_events path user w
  = (match read_disk path (disk w) with
     | Ok data => Ok (sort_by_when (Dict.get_default (str_of_int user) [] data))
     | Raise x => Raise x
     end, w).
Proof.
  unfold list_events, bind. rewrite _read_eq.
  destruct (read_disk path (disk w)); reflexivity.
Qed.

(** X8.  [list_events] only reads: the world is as before.  From a store
    that loads it returns the owner's stored events sorted ascending by
    [when] (all of them, each as often as stored), the empty list for an owner
    without entry and when there is no file yet; when the load raises,
    the same exception comes out. *)
Theorem list_events_reads_sorted (path : FS.path) (user : Z) (w : World) :
  snd (list_events path user w) = w
  /\ (forall data,
        fst (load_all path w) = Ok data ->
        exists l,
          fst (list_events path user w) = Ok l
          /\ Sorted when_le l
          /\ Permutation (Dict.get_default (str_of_int user) [] data) l
          /\ (Dict.get (str_of_int user) data = None -> l = []))
  /\ (forall x, fst (load_all path w) = Raise x ->
                fst (list_events path user w) = Raise x)
  /\ (FS.lookup path (FS.files (disk w)) = None ->
      fst (list_events path user w) = Ok []).
Proof.
  rewrite list_events_eq, load_all_eq. cbn [fst snd].
  split; [reflexivity|]. split; [|split].
  - intros data ->. eexists. split; [reflexivity|].
    split; [apply sort_by_when_sorted|]. split; [apply sort_by_when_perm|].
    intros Hn. unfold Dict.get_default. now rewrite Hn.
  - now intros x ->.
  - intros Hn. unfold read_disk. now rewrite Hn.
Qed.

Lemma add_event_effect path user e w data :
  valid (when e) = true ->
  read_disk path (disk w) = Ok data ->
  let data' := Dict.set (str_of_int user)
                 (sort_by_when (Dict.get_default (str_of_int user) [] data ++ [e]))
                 data in
  exists w',
    add_event path user e w = (Ok tt, w')
    /\ read_disk path (disk w') = Ok data'
    /\ set_disk (disk w) w' = w.
Proof.
  intros Ve Hr data'. eexists. split; [exact (add_event_spec path user e w data Hr)|].
  split.
  - cbn [disk set_disk]. rewrite read_disk_after_write. apply decode_encode.
    apply all_valid_set; [now apply decode_valid_disk in Hr|].
    apply (Forall_perm _ (Dict.get_default (str_of_int user) [] data ++ [e]));
      [apply sort_by_when_perm|].
    apply Forall_app. split; [|now constructor].
    apply all_valid_get. now apply decode_valid_disk in Hr.
  - unfold set_disk. cbn. apply world_eta.
Qed.

Lemma get_default_set_same {V} k (v dflt : V) d :
  Dict.get_default k dflt (Dict.set k v d) = v.
Proof. unfold Dict.get_default. now rewrite dict_get_set_same. Qed.

Lemma get_default_set_other {V} k k' (v dflt : V) d :
  k' <> k -> Dict.get_default k' dflt (Dict.set k v d) = Dict.get_default k' dflt d.
Proof. intros H. unfold Dict.get_default. now rewrite dict_get_set_other. Qed.

(** X9.  [add_event] is append-only, owner by owner: on a store that
    loads it ends normally, changes nothing but the disk, and afterwards
    [list_events] returns for the owner the old events and the new one,
    for every other owner exactly the events as before. *)
Theorem add_event_appends (path : FS.path) (user other : Z) (e : Event)
    (w : World) (data : Dict.dict (list Event)) :
  valid (when e) = true ->
  fst (load_all path w) = Ok data ->
  exists w' l,
    add_event path user e w = (Ok tt, w')
    /\ set_disk (disk w) w' = w
    /\ fst (list_events path other w') = Ok l
    /\ Sorted when_le l
    /\ Permutation
         (Dict.get_default (str_of_int other) [] data
          ++ (if other =? user then [e] else []))
         l.
Proof.
  intros Ve Hl. rewrite load_all_eq in Hl. cbn [fst] in Hl.
  destruct (add_event_effect path user e w data Ve Hl) as (w' & Ea & Hr & Hw).
  exists w'. eexists. split; [exact Ea|]. split; [exact Hw|].
  rewrite list_events_eq, Hr. cbn [fst]. split; [reflexivity|].
  split; [apply sort_by_when_sorted|].
  destruct (other =? user) eqn:E.
  - apply Z.eqb_eq in E. subst other. rewrite get_default_set_same.
    etransitivity; [apply sort_by_when_perm|]. apply sort_by_when_perm.
  - apply Z.eqb_neq in E. rewrite get_default_set_other.
    + rewrite app_nil_r. apply sort_by_when_perm.
    + intros Hk. apply E. now apply str_of_int_inj.
Qed.

Lemma add_event_appends_witness :
  exists w' l,
    add_event STORAGE_PATH 7 soon (set_disk sound_store fresh_world) = (Ok tt, w')
    /\ set_disk (disk (set_disk sound_store fresh_world)) w'
       = set_disk sound_store fresh_world
    /\ fst (list_events STORAGE_PATH 2 w') = Ok l
    /\ Sorted when_le l
    /\ Permutation ([party] ++ []) l.
Proof.
  apply (add_event_appends STORAGE_PATH 7 2 soon
           (set_disk sound_store fresh_world) [("2", [party])]);
    reflexivity.
Defined.

(** X10.  No lost update: after [add_event] for one owner and then for
    another, both new events are listed, each under its owner, and every
    event that was stored before is still listed under its owner. *)
Theorem add_event_two_owners (path : FS.path) (u1 u2 : Z) (e1 e2 : Event)
    (w : World) (data : Dict.dict (list Event)) :
  u1 <> u2 ->
  valid (when e1) = true -> valid (when e2) = true ->
  fst (load_all path w) = Ok data ->
  exists w2 l1 l2,
    (add_event path u1 e1 ;; add_event path u2 e2) w = (Ok tt, w2)
    /\ fst (list_events path u1 w2) = Ok l1 /\ In e1 l1
    /\ fst (list_events path u2 w2) = Ok l2 /\ In e2 l2
    /\ (forall u e, In e (Dict.get_default (str_of_int u) [] data) ->
          exists l, fst (list_events path u w2) = Ok l /\ In e l).
Proof.
  intros Hu V1 V2 Hl. rewrite load_all_eq in Hl. cbn [fst] in Hl.
  destruct (add_event_effect path u1 e1 w data V1 Hl) as (w1 & E1 & R1 & _).
  destruct (add_event_effect path u2 e2 w1 _ V2 R1) as (w2 & E2 & R2 & _).
  set (k1 := str_of_int u1) in *. set (k2 := str_of_int u2) in *.
  assert (Hk : k1 <> k2).
  { intros E. apply Hu. now apply str_of_int_inj. }
  set (d1 := Dict.set k1 (sort_by_when (Dict.get_default k1 [] data ++ [e1])) data) in *.
  assert (Hlist : forall u,
            fst (list_events path u w2)
            = Ok (sort_by_when
                    (Dict.get_default (str_of_int u) []
                       (Dict.set k2
                          (sort_by_when (Dict.get_default k2 [] d1 ++ [e2])) d1)))).
  { intros u. now rewrite list_events_eq, R2. }
  assert (Hin : forall l (x : Event), In x l -> In x (sort_by_when l)).
  { intros l x Hx. eapply Permutation_in; [apply sort_by_when_perm | exact Hx]. }
  exists w2. eexists. eexists.
  split; [unfold bind; rewrite E1; exact E2|].
  split; [apply Hlist|]. split.
  { apply Hin. fold k1. rewrite get_default_set_other by exact Hk.
    unfold d1. rewrite get_default_set_same. apply Hin.
    apply in_or_app. right. now left. }
  split; [apply Hlist|]. split.
  { apply Hin. fold k2. rewrite get_default_set_same. apply Hin.
    apply in_or_app. right. now left. }
  intros u e Hin0. eexists. split; [apply Hlist|]. apply Hin.
  assert (H1 : In e (Dict.get_default (str_of_int u) [] d1)).
  { unfold d1. destruct (String.eqb (str_of_int u) k1) eqn:E.
    - apply String.eqb_eq in E. rewrite E in *. rewrite get_default_set_same.
      apply Hin. apply in_or_app. now left.
    - apply String.eqb_neq in E. now rewrite get_default_set_other. }
  destruct (String.eqb (str_of_int u) k2) eqn:E.
  - apply String.eqb_eq in E. rewrite E in *. rewrite get_default_set_same.
    apply Hin. apply in_or_app. now left.
  - apply String.eqb_neq in E. now rewrite get_default_set_other.
Qed.

Lemma add_event_two_owners_witness :
  exists w2 l1 l2,
    (add_event STORAGE_PATH 7 party ;; add_event STORAGE_PATH 8 soon) fresh_world
    = (Ok tt, w2)
    /\ fst (list_events STORAGE_PATH 7 w2) = Ok l1 /\ In party l1
    /\ fst (list_events STORAGE_PATH 8 w2) = Ok l2 /\ In soon l2.
Proof.
  destruct (add_event_two_owners STORAGE_PATH 7 8 party soon fresh_world [])
    as (w2 & l1 & l2 & E & L1 & I1 & L2 & I2 & _).
  - discriminate.
  - reflexivity.
  - reflexivity.
  - reflexivity.
  - exists w2, l1, l2. auto.
Defined.

(** X11.  What [Event.from_dict] accepts is sound: the record is an
    object that has all four keys, its ["when"] is a text that
    [fromisoformat] reads as the event's [when], a [datetime] with
    well-formed fields, and writing the event out and reading it again
    gives the same event.  Keys other than the four play no part. *)
Theorem from_dict_sound (raw : json) (e : Event) :
  from_dict raw = Ok e ->
  valid (when e) = true
  /\ from_dict (to_dict e) = Ok e
  /\ exists members s,
       raw = JObj members
       /\ (forall k, In k EVENT_KEYS -> Dict.get k members <> None)
       /\ Dict.get "when" members = Some (JStr s)
       /\ fromisoformat s = Ok (when e)
       /\ (forall members',
             (forall k, In k EVENT_KEYS ->
                Dict.get k members' = Dict.get k members) ->
             from_dict (JObj members') = Ok e).
Proof.
  intros H. pose proof (from_dict_valid raw e H) as V.
  split; [exact V|]. split; [now apply from_dict_to_dict_ok|].
  destruct raw as [ | | | | |members]; try discriminate H.
  unfold from_dict, subscript in H.
  destruct (Dict.get "id" members) as [r_id|] eqn:Gi; cbn [of_option rbind] in H;
    [|discriminate].
  destruct (Dict.get "title" members) as [r_t|] eqn:Gt; cbn [of_option rbind] in H;
    [|discriminate].
  destruct (Dict.get "when" members) as [r_w|] eqn:Gw; cbn [of_option rbind] in H;
    [|discriminate].
  destruct r_w as [ | | |s| | ]; cbn [rbind] in H; try discriminate.
  destruct (fromisoformat s) as [dt|] eqn:F; cbn [rbind] in H; [|discriminate].
  destruct (Dict.get "chat_id" members) as [r_c|] eqn:Gc; cbn [of_option rbind] in H;
    [|discriminate].
  exists members, s. split; [reflexivity|]. split; [|split; [|split]].
  - intros k [<- | [<- | [<- | [<- | []]]]]; congruence.
  - exact Gw.
  - destruct r_id; try discriminate. destruct r_t; try discriminate.
    destruct r_c; try discriminate. now injection H as <-.
  - intros members' Hk. unfold from_dict, subscript.
    rewrite (Hk "id"), (Hk "title"), (Hk "when"), (Hk "chat_id"), Gi, Gt, Gw, Gc
      by (cbn; tauto).
    cbn [of_option rbind]. rewrite F. cbn [rbind]. exact H.
Qed.

Lemma from_dict_sound_witness :
  valid (when party) = true /\ from_dict (to_dict party) = Ok party.
Proof.
  destruct (from_dict_sound (to_dict party) party) as (V & R & _).
  - vm_compute. reflexivity.
  - split; [exact V | exact R].
Defined.

(** X12.  A record that lacks one of the four keys is never read as an
    event: [Event.from_dict] raises, and it is [KeyError] that it raises
    when ["id"] is the missing one. *)
Theorem from_dict_missing_key (members : list (string * json)) (k : string) :
  In k EVENT_KEYS -> Dict.get k members = None ->
  (exists x, from_dict (JObj members) = Raise x)
  /\ (k = "id" -> from_dict (JObj members) = Raise KeyError).
Proof.
  intros Hk Hn. unfold from_dict, subscript. split.
  - destruct (Dict.get "id" members) as [r_id|] eqn:Gi; cbn [of_option rbind];
      [|eauto].
    destruct (Dict.get "title" members) as [r_t|] eqn:Gt; cbn [of_option rbind];
      [|eauto].
    destruct (Dict.get "when" members) as [r_w|] eqn:Gw; cbn [of_option rbind];
      [|eauto].
    destruct (match r_w with JStr s => fromisoformat s | _ => Raise TypeError end)
      as [dt|]; cbn [rbind]; [|eauto].
    destruct (Dict.get "chat_id" members) as [r_c|] eqn:Gc; cbn [of_option rbind];
      [|eauto].
    exfalso. destruct Hk as [<- | [<- | [<- | [<- | []]]]]; congruence.
  - intros ->. now rewrite Hn.
Qed.

Lemma from_dict_missing_key_witness :
  from_dict (JObj [("title", JStr "t"); ("when", JStr "2024-12-31T18:00:00");
                   ("chat_id", JNum 1)]) = Raise KeyError.
Proof.
  apply (proj2 (from_dict_missing_key
                  [("title", JStr "t"); ("when", JStr "2024-12-31T18:00:00");
                   ("chat_id", JNum 1)] "id" (or_introl eq_refl) eq_refl)).
  reflexivity.
Defined.

Lemma lookup_delete_same p fl : FS.lookup p (FS.delete p fl) = None.
Proof.
  induction fl as [|[q c] fl IH]; cbn; [reflexivity|].
  destruct (FS.path_eqb p q) eqn:E; cbn; [exact IH|]. now rewrite E.
Qed.

Lemma lookup_delete_other p q fl :
  FS.path_eqb p q = false -> FS.lookup p (FS.delete q fl) = FS.lookup p fl.
Proof.
  intros N. induction fl as [|[r c'] fl IH]; cbn; [reflexivity|].
  destruct (FS.path_eqb q r) eqn:E; cbn.
  - apply path_eqb_eq in E. subst r. now rewrite N.
  - now rewrite IH.
Qed.

Lemma path_eqb_neq p q : p <> q -> FS.path_eqb p q = false.
Proof.
  intros H. apply not_true_is_false. intros E. apply H. now apply path_eqb_eq.
Qed.

(** X13.  A complete [_write] leaves the new document at the store path,
    no temporary file behind, and every other file as it was (for a
    store path whose suffix is not [.tmp]). *)
Theorem write_leaves_no_temp (path : FS.path) (data : Dict.dict (list Event))
    (w : World) :
  FS.suffix path <> ".tmp" ->
  let after := FS.files (disk (snd (_write path data w))) in
  FS.lookup path after = Some (FS.Document (encode data))
  /\ FS.lookup (FS.with_suffix path ".tmp") after = None
  /\ (forall q, q <> path -> q <> FS.with_suffix path ".tmp" ->
        FS.lookup q after = FS.lookup q (FS.files (disk w))).
Proof.
  intros Hs after. pose proof (tmp_path_differs path Hs) as N.
  assert (N' : FS.path_eqb (FS.with_suffix path ".tmp") path = false).
  { apply path_eqb_neq. intros E. rewrite <- E in N.
    now rewrite path_eqb_refl in N. }
  unfold after, _write, write_ops, FS.run.
  cbn [snd disk set_disk fold_left FS.exec FS.files FS.dirs].
  rewrite lookup_store_same. cbn [FS.files FS.dirs].
  split; [apply lookup_store_same|]. split.
  - rewrite lookup_store_other by exact N'. apply lookup_delete_same.
  - intros q Hq Hq'.
    rewrite lookup_store_other by now apply path_eqb_neq.
    rewrite lookup_delete_other by now apply path_eqb_neq.
    rewrite !lookup_store_other by now apply path_eqb_neq.
    reflexivity.
Qed.

Lemma write_leaves_no_temp_witness :
  FS.lookup STORAGE_PATH
    (FS.files (disk (snd (_write STORAGE_PATH [("7", [party])] fresh_world))))
  = Some (FS.Document (encode [("7", [party])]))
  /\ FS.lookup (FS.with_suffix STORAGE_PATH ".tmp")
       (FS.files (disk (snd (_write STORAGE_PATH [("7", [party])] fresh_world))))
     = None.
Proof.
  destruct (write_leaves_no_temp STORAGE_PATH [("7", [party])] fresh_world)
    as (H1 & H2 & _).
  - discriminate.
  - split; [exact H1 | exact H2].
Defined.

(** X14.  A store that does not load is never overwritten: when
    [load_all] raises, [add_event] and [list_events] raise the same
    exception and leave the world as it is, and
    [create_event_and_schedule] raises it having only drawn the
    identifier: nothing is written and no timer is registered. *)
Theorem unreadable_store_is_left_alone (env : Env) (path : FS.path)
    (user chat : Z) (title : string) (wh : datetime) (e : Event) (w : World)
    (x : exn) :
  fst (load_all path w) = Raise x ->
  add_event path user e w = (Raise x, w)
  /\ list_events path user w = (Raise x, w)
  /\ create_event_and_schedule env path user chat title wh w = (Raise x, drawn w)
  /\ disk (drawn w) = disk w /\ jobs (drawn w) = jobs w.
Proof.
  rewrite load_all_eq. cbn [fst]. intros Hr.
  split; [|split; [|split]].
  - unfold add_event, bind. now rewrite _read_eq, Hr.
  - now rewrite list_events_eq, Hr.
  - unfold create_event_and_schedule, bind at 1, new_uuid at 1. fold (drawn w).
    unfold bind at 1, add_event, bind at 1. rewrite _read_eq.
    change (disk (drawn w)) with (disk w). now rewrite Hr.
  - split; reflexivity.
Qed.

Lemma unreadable_store_is_left_alone_witness :
  let w := set_disk (FS.mkFs [] [(STORAGE_PATH, FS.Malformed)]) fresh_world in
  add_event STORAGE_PATH 7 party w = (Raise JSONDecodeError, w)
  /\ list_events STORAGE_PATH 7 w = (Raise JSONDecodeError, w).
Proof.
  cbv zeta.
  destruct (unreadable_store_is_left_alone (frozen_env noon) STORAGE_PATH 7 70
              "party" noon party
              (set_disk (FS.mkFs [] [(STORAGE_PATH, FS.Malformed)]) fresh_world)
              JSONDecodeError) as (H1 & H2 & _).
  - reflexivity.
  - split; [exact H1 | exact H2].
Defined.

(** *** Reading dates *)

Lemma rstrip_cons c s :
  rstrip (String c s)
  = match rstrip s with
    | EmptyString => if is_space c then EmptyString else String c EmptyString
    | r => String c r
    end.
Proof. reflexivity. Qed.

Lemma rstrip_idem s : rstrip (rstrip s) = rstrip s.
Proof.
  induction s as [|c s IH]; [reflexivity|].
  rewrite rstrip_cons. destruct (rstrip s) as [|c' r] eqn:E.
  - destruct (is_space c) eqn:Sc; [reflexivity|].
    rewrite rstrip_cons. cbn [rstrip]. now rewrite Sc.
  - rewrite rstrip_cons, IH. reflexivity.
Qed.

Lemma lstrip_head_cases s :
  lstrip s = EmptyString
  \/ exists c r, lstrip s = String c r /\ is_space c = false.
Proof.
  induction s as [|c s IH]; [now left|].
  cbn [lstrip]. destruct (is_space c) eqn:Sc; [exact IH|].
  right. now exists c, s.
Qed.

Lemma strip_idem s : strip (strip s) = strip s.
Proof.
  unfold strip.
  destruct (lstrip_head_cases s) as [E | (c & r & E & Sc)]; rewrite E.
  - reflexivity.
  - assert (H : exists r', rstrip (String c r) = String c r').
    { rewrite rstrip_cons. destruct (rstrip r); [rewrite Sc|]; eauto. }
    destruct H as [r' Er]. rewrite Er.
    rewrite (lstrip_head c r' Sc). rewrite <- Er. apply rstrip_idem.
Qed.

(** X15.  [parse_datetime] does not see white space around its input;
    a text in the date-and-time format gives that moment, a text in the
    date-only format gives 09:00:00 on that date, and [None] comes out
    exactly when [strptime] turns both formats down.  Whenever
    [strptime] yields well-formed datetimes, so does [parse_datetime]. *)
Theorem parse_datetime_reads (env : Env) (raw : string) :
  parse_datetime env (strip raw) = parse_datetime env raw
  /\ (forall dt, strptime env (strip raw) "%Y-%m-%d %H:%M" = Some dt ->
        parse_datetime env raw = Some dt)
  /\ (forall p, strptime env (strip raw) "%Y-%m-%d %H:%M" = None ->
        strptime env (strip raw) "%Y-%m-%d" = Some p ->
        parse_datetime env raw
        = Some (mkDatetime (year p) (month p) (day p) 9 0 0 0))
  /\ (parse_datetime env raw = None <->
      strptime env (strip raw) "%Y-%m-%d %H:%M" = None
      /\ strptime env (strip raw) "%Y-%m-%d" = None)
  /\ ((forall s f dt, strptime env s f = Some dt -> valid dt = true) ->
      forall dt, parse_datetime env raw = Some dt -> valid dt = true).
Proof.
  unfold parse_datetime. rewrite strip_idem.
  split; [reflexivity|]. split; [|split; [|split]].
  - now intros dt ->.
  - now intros p -> ->.
  - destruct (strptime env (strip raw) "%Y-%m-%d %H:%M");
      [split; [discriminate | intros [H _]; discriminate]|].
    destruct (strptime env (strip raw) "%Y-%m-%d");
      [split; [discriminate | intros [_ H]; discriminate]|].
    tauto.
  - intros Hv dt.
    destruct (strptime env (strip raw) "%Y-%m-%d %H:%M") as [d1|] eqn:E1.
    + intros [= <-]. now apply Hv in E1.
    + destruct (strptime env (strip raw) "%Y-%m-%d") as [d2|] eqn:E2;
        [|discriminate].
      intros [= <-]. apply Hv in E2. apply valid_spec in E2. apply valid_spec.
      cbn. lia.
Qed.

(** *** The listing *)

(** X16.  The status shown for an event: "already over" exactly when it
    is before [now]; otherwise, below 24 hours, the whole hours left, a
    number from 0 to 23; and from 24 hours on, the calendar days left,
    which are then at least 1 ("tomorrow" when 1), so that zero or
    negative days are never shown. *)
Theorem event_status_cases (now : datetime) (e : Event) :
  valid (when e) = true -> valid now = true ->
  let left := Datetime.diff (when e) now in
  let hours := left / (3600 * US_PER_SECOND) in
  let days_left := date_diff_days (date_of (when e)) (date_of now) in
  (Datetime.ltb (when e) now = true -> event_status now e = "уже прошло")
  /\ (Datetime.ltb (when e) now = false ->
      0 <= left
      /\ (left < US_PER_DAY ->
          0 <= hours <= 23
          /\ event_status now e = ("через " ++ str_of_int hours ++ " ч.")%string)
      /\ (US_PER_DAY <= left ->
          1 <= days_left
          /\ event_status now e
             = if days_left =? 1 then "завтра"
               else ("через " ++ str_of_int days_left ++ " дней")%string)).
Proof.
  intros Vw Vn left hours days_left. unfold event_status.
  split; [now intros ->|]. intros L. rewrite L.
  rewrite (ltb_to_delta _ _ Vw Vn) in L. apply Z.ltb_ge in L.
  fold left. fold hours. fold days_left.
  assert (Hleft : left = to_delta (when e) - to_delta now) by reflexivity.
  change (24 * 3600 * US_PER_SECOND) with US_PER_DAY.
  split; [lia|]. split.
  - intros Hlt. replace (left <? US_PER_DAY) with true
      by (symmetry; now apply Z.ltb_lt).
    split; [|reflexivity]. unfold hours, US_PER_DAY, US_PER_SECOND in *.
    split; [apply Z.div_pos; lia|].
    assert (left / (3600 * 1000000) < 24); [|lia].
    apply Z.div_lt_upper_bound; lia.
  - intros Hge. replace (left <? US_PER_DAY) with false
      by (symmetry; now apply Z.ltb_ge).
    split; [|reflexivity].
    pose proof (to_delta_split (when e)) as Ew.
    pose proof (to_delta_split now) as En.
    pose proof (time_of_day_range _ Vw) as Tw.
    pose proof (time_of_day_range _ Vn) as Tn.
    assert (Hd : days_left = toordinal (when e) - toordinal now) by reflexivity.
    unfold US_PER_DAY, US_PER_SECOND in *. lia.
Qed.

Lemma event_status_cases_witness :
  event_status noon soon = "через 0 ч."
  /\ event_status noon party = "через 30 дней".
Proof.
  destruct (event_status_cases noon soon eq_refl eq_refl) as [_ H1].
  destruct (event_status_cases noon party eq_refl eq_refl) as [_ H2].
  split.
  - apply (proj2 (H1 eq_refl)). vm_compute. reflexivity.
  - apply (proj2 (proj2 (H2 eq_refl))). vm_compute. discriminate.
Defined.

(** X17.  [send_events_list] answers with exactly one reply and changes
    neither disk nor job queue: the "no events yet" text, without reading
    the clock, exactly when the owner has no stored event; otherwise the
    listing, one line per stored event in ascending order of [when].  If
    the store does not load it raises and replies nothing. *)
Theorem send_events_list_replies_once (env : Env) (store : FS.path) (user : Z)
    (w : World) :
  (forall data,
     fst (load_all store w) = Ok data ->
     let events := sort_by_when (Dict.get_default (str_of_int user) [] data) in
     let now := clock env (clock_reads w) in
     exists text,
       send_events_list env store user w
       = reply_text text (match events with [] => w | _ => tick w end)
       /\ (Dict.get_default (str_of_int user) [] data = [] <->
           text = "Событий пока нет. Добавь через /add")
       /\ (events <> [] ->
           text = ("Твои события:" ++ newline
                   ++ String.concat newline (map (event_line now) events))%string)
       /\ disk (snd (send_events_list env store user w)) = disk w
       /\ jobs (snd (send_events_list env store user w)) = jobs w)
  /\ (forall x, fst (load_all store w) = Raise x ->
        send_events_list env store user w = (Raise x, w)).
Proof.
  split.
  - intros data Hl events now. rewrite load_all_eq in Hl. cbn [fst] in Hl.
    assert (Hnil : Dict.get_default (str_of_int user) [] data = [] <-> events = []).
    { unfold events. split; [now intros ->|]. intros E.
      pose proof (sort_by_when_perm (Dict.get_default (str_of_int user) [] data)) as P.
      rewrite E in P. now apply Permutation_sym, Permutation_nil in P. }
    assert (Heq : send_events_list env store user w
                  = match events with
                    | [] => reply_text "Событий пока нет. Добавь через /add" w
                    | _ :: _ =>
                        reply_text
                          ("Твои события:" ++ newline
                           ++ String.concat newline (map (event_line now) events))
                          (tick w)
                    end).
    { unfold send_events_list, bind. rewrite list_events_eq, Hl. fold events.
      destruct events; reflexivity. }
    rewrite Heq. clear Heq.
    destruct events as [|e0 rest].
    + eexists. split; [reflexivity|]. split; [tauto|]. split; [congruence|].
      split; reflexivity.
    + eexists. split; [reflexivity|]. split; [|split; [|split]]; try reflexivity.
      split; [intros H; apply Hnil in H; discriminate|].
      cbn. discriminate.
  - intros x Hl. rewrite load_all_eq in Hl. cbn [fst] in Hl.
    unfold send_events_list, bind. now rewrite list_events_eq, Hl.
Qed.

(** *** Creation, then a restart *)

Lemma create_event_and_schedule_spec env store uid chat title wh w data :
  let now := clock env (clock_reads w) in
  let e := mkEvent (uuid4 env (uuid_reads w)) title wh chat in
  let data' := Dict.set (str_of_int uid)
                 (sort_by_when (Dict.get_default (str_of_int uid) [] data ++ [e]))
                 data in
  let w1 := tick (set_disk (FS.run (write_ops store data') (disk w)) (drawn w)) in
  valid now = true -> 2 <= year now <= 9998 -> valid wh = true ->
  wf_jobs w ->
  read_disk store (disk w) = Ok data ->
  create_event_and_schedule env store uid chat title wh w
  = (Ok e, if Datetime.leb wh now then w1
           else enqueue (derived_jobs uid e now) w1).
Proof.
  intros now e data' w1 Vn Hy Vw Hwf Hr.
  unfold create_event_and_schedule, bind at 1, new_uuid at 1.
  fold (drawn w). fold e. unfold bind at 1.
  rewrite (add_event_spec store uid e (drawn w) data Hr). fold data'.
  change (disk (drawn w)) with (disk w). unfold bind.
  pose proof (schedule_event_jobs_spec env uid e
                (set_disk (FS.run (write_ops store data') (disk w)) (drawn w))) as S.
  cbv zeta in S. change (when e) with wh in S.
  rewrite (S Vw Vn Hy Hwf). cbn [ret]. fold w1. fold now.
  change (clock env (clock_reads
            (set_disk (FS.run (write_ops store data') (disk w)) (drawn w))))
    with now.
  destruct (Datetime.leb wh now); reflexivity.
Qed.

Lemma in_enqueue js w j : In j js -> In j (map snd (jobs (enqueue js w))).
Proof.
  intros H. unfold enqueue. cbn [jobs]. rewrite map_app, combine_seq_snd.
  apply in_or_app. now right.
Qed.

Lemma dict_get_In {V} k (v : V) d : Dict.get k d = Some v -> In (k, v) d.
Proof.
  induction d as [|[k' v'] d IH]; cbn; [discriminate|].
  destruct (String.eqb k k') eqn:E.
  - apply String.eqb_eq in E. subst k'. intros [= ->]. now left.
  - intros H. right. now apply IH.
Qed.

Lemma flat_map_set_perm (k : string) (new : list Event) (e : Event)
    (d : Dict.dict (list Event)) :
  Permutation (Dict.get_default k [] d ++ [e]) new ->
  Permutation (flat_map snd d ++ [e]) (flat_map snd (Dict.set k new d)).
Proof.
  unfold Dict.get_default.
  induction d as [|[k' v'] d IH]; cbn [Dict.get Dict.set flat_map snd]; intros P.
  - now rewrite app_nil_r.
  - destruct (String.eqb k k') eqn:E; cbn [flat_map snd].
    + rewrite <- P. rewrite <- !app_assoc. apply Permutation_app_head.
      apply Permutation_app_comm.
    + rewrite <- app_assoc. apply Permutation_app_head. now apply IH.
Qed.

Lemma in_recovered_jobs now data uid evs e j :
  In (str_of_int uid, evs) data -> In e evs ->
  Datetime.gtb (when e) now = true ->
  In j (derived_jobs uid e now) ->
  In j (recovered_jobs now data).
Proof.
  intros Hd He G Hj. unfold recovered_jobs. apply in_flat_map.
  exists (str_of_int uid, evs). split; [exact Hd|]. cbn [fst snd].
  rewrite int_of_str_of_int. unfold owner_jobs. apply in_flat_map.
  exists e. split; [exact He|]. now rewrite G.
Qed.

(** X18.  A created event survives a restart.  With the clock standing
    at [now], an event created for a moment after [now], with an id that
    the store does not hold yet, gets its timers; and from any later
    world that has the disk as the creation left it and no timer in
    memory, [reschedule_all_events] ends normally and registers those
    same timers again. *)
Theorem created_event_survives_restart (env : Env) (store : FS.path)
    (user_id chat : Z) (title : string) (wh now : datetime) (w : World)
    (data : Dict.dict (list Event)) :
  (forall i, clock env i = now) ->
  valid now = true -> 2 <= year now <= 9998 ->
  valid wh = true -> Datetime.gtb wh now = true ->
  wf_jobs w ->
  fst (load_all store w) = Ok data ->
  NoDup (map id (flat_map snd data)) ->
  ~ In (uuid4 env (uuid_reads w)) (map id (flat_map snd data)) ->
  let e := mkEvent (uuid4 env (uuid_reads w)) title wh chat in
  exists w1,
    create_event_and_schedule env store user_id chat title wh w = (Ok e, w1)
    /\ incl (derived_jobs user_id e now) (map snd (jobs w1))
    /\ forall w2, disk w2 = disk w1 -> jobs w2 = [] ->
       exists w3,
         reschedule_all_events env store w2 = (Ok tt, w3)
         /\ incl (derived_jobs user_id e now) (map snd (jobs w3)).
Proof.
  intros Hfrozen Vn Hy Vw G Hwf Hload ND Hfresh e.
  rewrite load_all_eq in Hload. cbn [fst] in Hload.
  pose proof (create_event_and_schedule_spec env store user_id chat title wh w data)
    as S. cbv zeta in S. rewrite Hfrozen in S.
  specialize (S Vn Hy Vw Hwf Hload). fold e in S.
  assert (L : Datetime.leb wh now = false) by (rewrite gtb_leb, G; reflexivity).
  rewrite L in S.
  set (key := str_of_int user_id) in *.
  set (new := sort_by_when (Dict.get_default key [] data ++ [e])) in *.
  set (data' := Dict.set key new data) in *.
  pose proof (decode_valid_disk store (disk w) data Hload) as Vd.
  assert (Pn : Permutation (Dict.get_default key [] data ++ [e]) new)
    by apply sort_by_when_perm.
  assert (Vd' : all_valid data').
  { apply all_valid_set; [exact Vd|].
    apply (Forall_perm _ _ _ Pn). apply Forall_app.
    split; [now apply all_valid_get | now constructor]. }
  eexists. split; [exact S|]. split.
  - intros j Hj. now apply in_enqueue.
  - intros w2 Hd Hj.
    assert (Rd : read_disk store (disk w2) = Ok data').
    { rewrite Hd. cbn [disk enqueue tick set_disk].
      rewrite read_disk_after_write. now apply decode_encode. }
    destruct (reschedule_all_events_spec env store w2 data' now Hfrozen Vn Hy Hj)
      as (w3 & E3 & J3).
    + now rewrite load_all_eq.
    + apply (Permutation_NoDup (l := map id (e :: flat_map snd data))).
      * apply Permutation_map.
        eapply Permutation_trans; [apply Permutation_cons_append|].
        exact (flat_map_set_perm key new e data Pn).
      * cbn [map]. constructor; [exact Hfresh | exact ND].
    + exists w3. split; [exact E3|]. rewrite J3. intros j Hj3.
      apply (in_recovered_jobs now data' user_id new e j); auto.
      * apply dict_get_In. apply dict_get_set_same.
      * eapply Permutation_in; [exact Pn|]. apply in_or_app. right. now left.
Qed.

(** *** The handlers that create events *)

Lemma create_event_and_schedule_outcome env store uid chat title wh w data :
  let now := clock env (clock_reads w) in
  let e := mkEvent (uuid4 env (uuid_reads w)) title wh chat in
  valid now = true -> 2 <= year now <= 9998 -> valid wh = true ->
  wf_jobs w ->
  read_disk store (disk w) = Ok data ->
  exists w',
    create_event_and_schedule env store uid chat title wh w = (Ok e, w')
    /\ replies w' = replies w /\ user_data w' = user_data w
    /\ (exists new, fst (list_events store uid w') = Ok new /\ In e new)
    /\ (Datetime.leb wh now = false ->
        incl (derived_jobs uid e now) (map snd (jobs w')))
    /\ (Datetime.leb wh now = true -> jobs w' = jobs w).
Proof.
  intros now e Vn Hy Vw Hwf Hr.
  pose proof (create_event_and_schedule_spec env store uid chat title wh w data)
    as S. cbv zeta in S. fold now e in S. specialize (S Vn Hy Vw Hwf Hr).
  set (key := str_of_int uid) in *.
  set (new := sort_by_when (Dict.get_default key [] data ++ [e])) in *.
  set (data' := Dict.set key new data) in *.
  pose proof (decode_valid_disk store (disk w) data Hr) as Vd.
  assert (Pn : Permutation (Dict.get_default key [] data ++ [e]) new)
    by apply sort_by_when_perm.
  assert (Vd' : all_valid data').
  { apply all_valid_set; [exact Vd|].
    apply (Forall_perm _ _ _ Pn). apply Forall_app.
    split; [now apply all_valid_get | now constructor]. }
  assert (Rd : read_disk store (FS.run (write_ops store data') (disk w)) = Ok data').
  { rewrite read_disk_after_write. now apply decode_encode. }
  eexists. split; [exact S|].
  destruct (Datetime.leb wh now);
    (split; [reflexivity|]; split; [reflexivity|]; split; [|split]).
  1,4: (exists (sort_by_when new); split;
        [ rewrite list_events_eq; cbn [fst disk enqueue tick set_disk];
          rewrite Rd; unfold data'; fold key;
          now rewrite get_default_set_same
        | eapply Permutation_in; [apply sort_by_when_perm|];
          eapply Permutation_in; [exact Pn|];
          apply in_or_app; right; now left ]).
  - discriminate.
  - reflexivity.
  - intros _ j Hj. now apply in_enqueue.
  - discriminate.
Qed.

Lemma bind_now {A} env (k : datetime -> M A) w :
  (now <- datetime_now env ;; k now) w = k (clock env (clock_reads w)) (tick w).
Proof. reflexivity. Qed.

Lemma wf_jobs_tick w : wf_jobs w -> wf_jobs (tick w).
Proof. exact (fun H => H). Qed.

(** X19.  [add_event_command] guards the creation.  Whatever the update
    and the arguments, either it ends normally with at most one reply and
    leaves disk, job queue, identifiers drawn and conversation data as
    they were, or the message, user and chat are there, the title between
    the command and the semicolon is non-empty after stripping, the text
    after the semicolon reads as a moment strictly after the clock's
    reading, and the handler is [create_event_and_schedule] for these,
    followed by the confirmation. *)
Theorem add_event_command_gate (env : Env) (store : FS.path) (update : Update)
    (args : list string) (w : World) :
  let now := clock env (clock_reads w) in
  let r := add_event_command env store update args w in
  (fst r = Ok tt
   /\ disk (snd r) = disk w /\ jobs (snd r) = jobs w
   /\ uuid_reads (snd r) = uuid_reads w /\ user_data (snd r) = user_data w
   /\ (replies (snd r) = replies w
       \/ exists text, replies (snd r) = replies w ++ [text]))
  \/ (exists text cmd payload t d user chat wh,
        message update = Some text
        /\ effective_user update = Some user
        /\ effective_chat update = Some chat
        /\ args <> []
        /\ split_once " " text = Some (cmd, payload)
        /\ split_once ";" payload = Some (t, d)
        /\ strip t <> ""
        /\ parse_datetime env (strip d) = Some wh
        /\ Datetime.leb wh now = false
        /\ r = (event <- create_event_and_schedule env store user chat
                                                   (strip t) wh ;;
                reply_text (added_text event)) (tick w)).
Proof.
  intros now r. subst r. unfold add_event_command.
  destruct (message update) as [text|] eqn:Em;
    [|left; repeat split; auto].
  destruct (effective_user update) as [user|] eqn:Eu;
    [|left; repeat split; auto].
  destruct (effective_chat update) as [chat|] eqn:Ec;
    [|left; repeat split; auto].
  destruct args as [|a args];
    [left; repeat split; try reflexivity; right; eexists; reflexivity|].
  destruct (split_once " " text) as [[cmd payload]|] eqn:E1;
    [|left; repeat split; try reflexivity; right; eexists; reflexivity].
  destruct (split_once ";" payload) as [[t d]|] eqn:E2;
    [|left; repeat split; try reflexivity; right; eexists; reflexivity].
  destruct (strip t) as [|c0 t0] eqn:Et;
    [left; repeat split; try reflexivity; right; eexists; reflexivity|].
  destruct (parse_datetime env (strip d)) as [wh|] eqn:Ep;
    [|left; repeat split; try reflexivity; right; eexists; reflexivity].
  rewrite !bind_now. fold now.
  destruct (Datetime.leb wh now) eqn:L;
    [left; repeat split; try reflexivity; right; eexists; reflexivity|].
  right. exists text, cmd, payload, t, d, user, chat, wh.
  rewrite Et. repeat split; try reflexivity; try assumption; discriminate.
Qed.

(** X20.  The happy path of [/add].  For a message [cmd title; date]
    whose title is non-empty after stripping and whose date reads as a
    moment after the clock's reading, on a store that loads:
    [add_event_command] ends normally, answers once with the
    confirmation for the new event, whose title is the stripped one, and
    afterwards [list_events] of the user holds the event.  The timers
    are derived from the clock's next reading [now']: they are all
    registered if [when > now'], and none is if the moment has passed by
    then. *)
Theorem add_event_command_creates (env : Env) (store : FS.path) (update : Update)
    (args : list string) (text cmd payload t d : string) (user chat : Z)
    (wh : datetime) (w : World) (data : Dict.dict (list Event)) :
  message update = Some text ->
  effective_user update = Some user ->
  effective_chat update = Some chat ->
  args <> [] ->
  split_once " " text = Some (cmd, payload) ->
  split_once ";" payload = Some (t, d) ->
  strip t <> "" ->
  parse_datetime env (strip d) = Some wh ->
  valid wh = true ->
  Datetime.leb wh (clock env (clock_reads w)) = false ->
  (forall i, valid (clock env i) = true /\ 2 <= year (clock env i) <= 9998) ->
  wf_jobs w ->
  fst (load_all store w) = Ok data ->
  let now' := clock env (S (clock_reads w)) in
  let e := mkEvent (uuid4 env (uuid_reads w)) (strip t) wh chat in
  exists w',
    add_event_command env store update args w = (Ok tt, w')
    /\ replies w' = replies w ++ [added_text e]
    /\ (exists new, fst (list_events store user w') = Ok new /\ In e new)
    /\ (Datetime.leb wh now' = false ->
        incl (derived_jobs user e now') (map snd (jobs w')))
    /\ (Datetime.leb wh now' = true -> jobs w' = jobs w).
Proof.
  intros Em Eu Ec Ha E1 E2 Ht Ep Vw L Hclock Hwf Hload now' e.
  rewrite load_all_eq in Hload. cbn [fst] in Hload.
  destruct (create_event_and_schedule_outcome env store user chat (strip t) wh
              (tick w) data) as (w1 & Ec1 & Rp & _ & Hl & Hj & Hn).
  1-2: apply Hclock. 1: exact Vw. 1: now apply wf_jobs_tick. 1: exact Hload.
  change (clock env (clock_reads (tick w))) with now' in *.
  change (uuid_reads (tick w)) with (uuid_reads w) in *. fold e in Ec1, Hl, Hj.
  unfold add_event_command. rewrite Em, Eu, Ec.
  destruct args as [|a args]; [congruence|]. rewrite E1, E2.
  destruct (strip t) as [|c0 t0] eqn:Et; [congruence|]. rewrite Ep.
  rewrite bind_now, L. unfold bind. rewrite Ec1.
  eexists. split; [reflexivity|]. cbn [replies jobs]. rewrite Rp.
  split; [reflexivity|]. split; [|split].
  - destruct Hl as (new & Hl & Hin). exists new. split; [|exact Hin].
    rewrite list_events_eq in *. exact Hl.
  - exact Hj.
  - exact Hn.
Qed.

(** *** The conversation *)

Lemma dict_remove_absent {V} k (d : Dict.dict V) :
  Dict.get k d = None -> Dict.remove k d = d.
Proof.
  induction d as [|[k' v'] d IH]; cbn; [reflexivity|].
  destruct (String.eqb k k'); [discriminate|]. intros H. now rewrite IH.
Qed.

Lemma dict_remove_set {V} k (v : V) d :
  Dict.get k d = None -> Dict.remove k (Dict.set k v d) = d.
Proof.
  induction d as [|[k' v'] d IH]; cbn.
  - now rewrite String.eqb_refl.
  - destruct (String.eqb k k') eqn:E; [discriminate|]. cbn. rewrite E.
    intros H. now rewrite IH.
Qed.

(** X21.  What [add_event_date] returns tells what it did.  It never
    returns [TITLE].  When it returns [DATE], asking for the date again,
    it has replied exactly once and left disk, job queue and conversation
    data, with the pending title, as they were.  And it can only have
    changed the disk or the job queue when message, user and chat were
    there, the stripped text was not the cancel word, and it read as a
    moment strictly after the clock's reading. *)
Theorem add_event_date_outcomes (env : Env) (store : FS.path) (update : Update)
    (w : World) :
  let now := clock env (clock_reads w) in
  let r := add_event_date env store update w in
  fst r <> Ok TITLE
  /\ (fst r = Ok DATE ->
      disk (snd r) = disk w /\ jobs (snd r) = jobs w
      /\ user_data (snd r) = user_data w
      /\ exists text, replies (snd r) = replies w ++ [text])
  /\ (disk (snd r) <> disk w \/ jobs (snd r) <> jobs w ->
      exists raw user chat wh,
        message update = Some raw
        /\ effective_user update = Some user
        /\ effective_chat update = Some chat
        /\ String.eqb (lower env (strip raw)) "отмена" = false
        /\ parse_datetime env (strip raw) = Some wh
        /\ Datetime.leb wh now = false).
Proof.
  intros now r. subst r. unfold add_event_date.
  destruct (message update) as [raw|] eqn:Em;
    [|cbn; repeat split; try discriminate; intros [H|H]; now destruct H].
  destruct (effective_user update) as [user|] eqn:Eu;
    [|cbn; repeat split; try discriminate; intros [H|H]; now destruct H].
  destruct (effective_chat update) as [chat|] eqn:Ec;
    [|cbn; repeat split; try discriminate; intros [H|H]; now destruct H].
  cbv zeta.
  destruct (String.eqb (lower env (strip raw)) "отмена") eqn:Ecancel;
    [cbn; repeat split; try discriminate; intros [H|H]; now destruct H|].
  destruct (parse_datetime env (strip raw)) as [wh|] eqn:Ep;
    [|cbn; repeat split; try discriminate; try (intros [H|H]; now destruct H);
      eexists; reflexivity].
  rewrite !bind_now. fold now.
  destruct (Datetime.leb wh now) eqn:L;
    [cbn; repeat split; try discriminate; try (intros [H|H]; now destruct H);
     eexists; reflexivity|].
  unfold bind. cbv beta.
  match goal with
  | |- context [create_event_and_schedule ?a ?b ?c ?d ?t ?m ?w0] =>
      destruct (create_event_and_schedule a b c d t m w0) as [[ev|x] w1]
  end;
    cbn; (split; [discriminate|]; split; [discriminate|]);
    intros _; exists raw, user, chat, wh; auto 10.
Qed.

(** X22.  The conversation creates the event it was told.  After
    [add_event_title] on a title that is neither empty nor the cancel
    word, [add_event_date] on a text that reads as a moment [wh] after
    the clock's reading ends the conversation: the event created carries
    the stripped title of the first message and [wh], [list_events] of
    the user holds it, the two replies are the prompt for the date and
    the confirmation, and the pending title is gone from the
    conversation data, which are as they were before the first message
    (no title was pending then). *)
Theorem conversation_creates_event (env : Env) (store : FS.path)
    (u1 u2 : Update) (raw_title raw_date : string) (asker user chat : Z)
    (wh : datetime) (w : World) (data : Dict.dict (list Event)) :
  message u1 = Some raw_title -> effective_user u1 = Some asker ->
  strip raw_title <> "" ->
  String.eqb (lower env (strip raw_title)) "отмена" = false ->
  message u2 = Some raw_date -> effective_user u2 = Some user ->
  effective_chat u2 = Some chat ->
  String.eqb (lower env (strip raw_date)) "отмена" = false ->
  parse_datetime env (strip raw_date) = Some wh ->
  valid wh = true ->
  Datetime.leb wh (clock env (clock_reads w)) = false ->
  (forall i, valid (clock env i) = true /\ 2 <= year (clock env i) <= 9998) ->
  wf_jobs w ->
  fst (load_all store w) = Ok data ->
  Dict.get "new_event_title" (user_data w) = None ->
  let now' := clock env (S (clock_reads w)) in
  let e := mkEvent (uuid4 env (uuid_reads w)) (strip raw_title) wh chat in
  exists w1 w2,
    add_event_title env u1 w = (Ok DATE, w1)
    /\ add_event_date env store u2 w1 = (Ok END, w2)
    /\ replies w2
       = replies w
         ++ ["Укажи дату и время в формате YYYY-MM-DD HH:MM (можно только дату).";
             added_text e]
    /\ user_data w2 = user_data w
    /\ (exists new, fst (list_events store user w2) = Ok new /\ In e new)
    /\ (Datetime.leb wh now' = false ->
        incl (derived_jobs user e now') (map snd (jobs w2))).
Proof.
  intros Em1 Eu1 Ht Hc1 Em2 Eu2 Ec2 Hc2 Ep Vw L Hclock Hwf Hload Hnone now' e.
  rewrite load_all_eq in Hload. cbn [fst] in Hload.
  set (ud := Dict.set "new_event_title" (strip raw_title) (user_data w)).
  set (w1 := mkWorld (disk w) (jobs w) (next_job w) (sent w)
               (replies w
                ++ ["Укажи дату и время в формате YYYY-MM-DD HH:MM (можно только дату)."])
               ud (clock_reads w) (uuid_reads w)).
  assert (E1 : add_event_title env u1 w = (Ok DATE, w1)).
  { unfold add_event_title. rewrite Em1, Eu1. cbv zeta. rewrite Hc1.
    destruct (strip raw_title); [congruence|]. reflexivity. }
  destruct (create_event_and_schedule_outcome env store user chat
              (strip raw_title) wh (tick w1) data)
    as (w' & Ec1 & Rp & Ud & Hl & Hj & _).
  1-2: apply Hclock. 1: exact Vw. 1: exact Hwf. 1: exact Hload.
  change (clock env (clock_reads (tick w1))) with now' in *.
  change (uuid_reads (tick w1)) with (uuid_reads w) in *. fold e in Ec1, Hl, Hj.
  change (replies (tick w1)) with (replies w1) in Rp.
  change (user_data (tick w1)) with ud in Ud.
  eexists w1, _. split; [exact E1|]. split; [|split; [|split; [|split]]].
  - unfold add_event_date. rewrite Em2, Eu2, Ec2. cbv zeta. rewrite Hc2, Ep.
    rewrite bind_now. change (clock_reads w1) with (clock_reads w). rewrite L.
    unfold bind at 1 2. cbn [fst snd].
    change (user_data (tick w1)) with ud. unfold ud at 1.
    rewrite get_default_set_same. rewrite Ec1. unfold bind. cbn. reflexivity.
  - cbn [replies]. rewrite Rp. unfold w1. cbn [replies].
    now rewrite <- app_assoc.
  - cbn [user_data]. rewrite Ud. unfold ud. now apply dict_remove_set.
  - destruct Hl as (new & Hl & Hin). exists new. split; [|exact Hin].
    rewrite list_events_eq in *. exact Hl.
  - exact Hj.
Qed.

(** X23.  Cancelling leaves nothing behind.  Whatever [add_event_title]
    did with its message, [cancel_add] after it ends the conversation
    with the conversation data as they were before (no title was pending
    then), and neither of the two touches disk or job queue. *)
Theorem title_then_cancel (env : Env) (u1 u2 : Update) (w : World) :
  Dict.get "new_event_title" (user_data w) = None ->
  exists c w1 w2,
    add_event_title env u1 w = (Ok c, w1)
    /\ (c = DATE <->
        exists raw, message u1 = Some raw /\ effective_user u1 <> None
                    /\ Dict.get "new_event_title" (user_data w1) = Some (strip raw))
    /\ cancel_add u2 w1 = (Ok END, w2)
    /\ user_data w2 = user_data w
    /\ disk w2 = disk w /\ jobs w2 = jobs w.
Proof.
  intros Hnone. unfold add_event_title, cancel_add.
  destruct (message u1) as [raw|]; [destruct (effective_user u1) as [a|]|].
  2,3: (destruct (message u2); eexists END, w, _; (split; [reflexivity|]);
        (split; [split; [discriminate | intros (r & H & H' & _); congruence]|]);
        (split; [reflexivity|]); cbn; auto using dict_remove_absent).
  cbv zeta.
  destruct ((match strip raw with EmptyString => true | _ => false end)
            || String.eqb (lower env (strip raw)) "отмена") eqn:G.
  - destruct (message u2); eexists END, _, _; (split; [reflexivity|]);
      (split; [split; [discriminate|]|]).
    1,3: intros (r & [= <-] & _ & H); cbn in H; congruence.
    all: split; [reflexivity|]; cbn; auto using dict_remove_absent.
  - destruct (message u2); eexists DATE, _, _; (split; [reflexivity|]);
      (split; [split; [intros _|reflexivity]|]).
    1,3: (exists raw; split; [reflexivity|]; split; [discriminate|];
          cbn; apply dict_get_set_same).
    all: split; [reflexivity|]; cbn; auto using dict_remove_set.
Qed.

(** *** Instances of the further properties *)

Lemma created_event_survives_restart_witness :
  exists w1,
    create_event_and_schedule (frozen_env noon) STORAGE_PATH 7 70 "party"
      (mkDatetime 2024 12 31 18 0 0 0) fresh_world
    = (Ok party, w1)
    /\ incl (derived_jobs 7 party noon) (map snd (jobs w1))
    /\ forall w2, disk w2 = disk w1 -> jobs w2 = [] ->
       exists w3,
         reschedule_all_events (frozen_env noon) STORAGE_PATH w2 = (Ok tt, w3)
         /\ incl (derived_jobs 7 party noon) (map snd (jobs w3)).
Proof.
  apply (created_event_survives_restart (frozen_env noon) STORAGE_PATH 7 70
           "party" (mkDatetime 2024 12 31 18 0 0 0) noon fresh_world []).
  - reflexivity.
  - reflexivity.
  - cbn. lia.
  - reflexivity.
  - reflexivity.
  - split; constructor.
  - reflexivity.
  - constructor.
  - intros [].
Defined.

Lemma add_event_command_creates_witness :
  let env := reading_env (mkDatetime 2024 11 1 12 0 0 0) in
  let e := mkEvent "uuid-0" "call" (mkDatetime 2024 11 30 8 0 0 0) 70 in
  exists w',
    add_event_command env STORAGE_PATH
      (mkUpdate (Some "/add call ; 2024-11-30 08:00") (Some 7) (Some 70))
      ["call"; ";"; "2024-11-30"; "08:00"] fresh_world
    = (Ok tt, w')
    /\ replies w' = replies fresh_world ++ [added_text e]
    /\ (exists new, fst (list_events STORAGE_PATH 7 w') = Ok new /\ In e new)
    /\ (Datetime.leb (when e) (clock env 1) = false ->
        incl (derived_jobs 7 e (clock env 1)) (map snd (jobs w')))
    /\ (Datetime.leb (when e) (clock env 1) = true -> jobs w' = jobs fresh_world).
Proof.
  cbv zeta.
  apply (add_event_command_creates (reading_env (mkDatetime 2024 11 1 12 0 0 0))
           STORAGE_PATH
           (mkUpdate (Some "/add call ; 2024-11-30 08:00") (Some 7) (Some 70))
           ["call"; ";"; "2024-11-30"; "08:00"]
           "/add call ; 2024-11-30 08:00" "/add" "call ; 2024-11-30 08:00"
           "call " " 2024-11-30 08:00" 7 70 (mkDatetime 2024 11 30 8 0 0 0)
           fresh_world []).
  - reflexivity.
  - reflexivity.
  - reflexivity.
  - discriminate.
  - reflexivity.
  - reflexivity.
  - discriminate.
  - reflexivity.
  - reflexivity.
  - reflexivity.
  - intros i. cbn. split; [reflexivity | lia].
  - split; constructor.
  - reflexivity.
Defined.

Lemma conversation_creates_event_witness :
  let env := reading_env (mkDatetime 2024 11 1 12 0 0 0) in
  let e := mkEvent "uuid-0" "call" (mkDatetime 2024 11 30 8 0 0 0) 70 in
  exists w1 w2,
    add_event_title env (mkUpdate (Some "  call ") (Some 7) None) fresh_world
    = (Ok DATE, w1)
    /\ add_event_date env STORAGE_PATH
         (mkUpdate (Some "2024-11-30 08:00") (Some 7) (Some 70)) w1
       = (Ok END, w2)
    /\ replies w2
       = replies fresh_world
         ++ ["Укажи дату и время в формате YYYY-MM-DD HH:MM (можно только дату).";
             added_text e]
    /\ user_data w2 = user_data fresh_world
    /\ (exists new, fst (list_events STORAGE_PATH 7 w2) = Ok new /\ In e new)
    /\ (Datetime.leb (when e) (clock env 1) = false ->
        incl (derived_jobs 7 e (clock env 1)) (map snd (jobs w2))).
Proof.
  cbv zeta.
  apply (conversation_creates_event (reading_env (mkDatetime 2024 11 1 12 0 0 0))
           STORAGE_PATH
           (mkUpdate (Some "  call ") (Some 7) None)
           (mkUpdate (Some "2024-11-30 08:00") (Some 7) (Some 70))
           "  call " "2024-11-30 08:00" 7 7 70 (mkDatetime 2024 11 30 8 0 0 0)
           fresh_world []).
  - reflexivity.
  - reflexivity.
  - discriminate.
  - reflexivity.
  - reflexivity.
  - reflexivity.
  - reflexivity.
  - reflexivity.
  - reflexivity.
  - reflexivity.
  - reflexivity.
  - intros i. cbn. split; [reflexivity | lia].
  - split; constructor.
  - reflexivity.
  - reflexivity.
Defined.

Lemma title_then_cancel_witness :
  exists c w1 w2,
    add_event_title (frozen_env noon) (mkUpdate (Some "call") (Some 7) None)
      fresh_world = (Ok c, w1)
    /\ (c = DATE <->
        exists raw, message (mkUpdate (Some "call") (Some 7) None) = Some raw
                    /\ effective_user (mkUpdate (Some "call") (Some 7) None) <> None
                    /\ Dict.get "new_event_title" (user_data w1) = Some (strip raw))
    /\ cancel_add (mkUpdate None None None) w1 = (Ok END, w2)
    /\ user_data w2 = user_data fresh_world
    /\ disk w2 = disk fresh_world /\ jobs w2 = jobs fresh_world.
Proof.
  apply (title_then_cancel (frozen_env noon)
           (mkUpdate (Some "call") (Some 7) None) (mkUpdate None None None)
           fresh_world).
  reflexivity.
Defined.
